(** * music_finder: duplicate audio files, their index and their resolution

    A shallow embedding of the core of the music_finder program:

    - [core/file_info.py]    ([FileInfo]: stat snapshot, display strings,
                              lazily computed MD5 with bounded retry);
    - [core/file_index.py]   ([FileIndex]: the persisted per-root index,
                              [save_index] and [load_index]);
    - [core/music_finder.py] ([MusicFinder]: file name parsing, the
                              index-assisted directory walk and the four
                              grouping methods of [find_duplicates]);
    - [gui/widgets/file_tree.py] (the automatic selection of the copies to
                              delete, [_select_files_to_delete]);
    - [gui/main_window.py]   ([SearchWorker.run], the caller that turns an
                              exception of the scan into an error signal);
    - [config/settings.py]   ([Settings]: the settings file).

    Conventions of the model.

    - A Python [str] is a Rocq [string] holding its bytes as the file
      system has them: its UTF-8 bytes, when it has an encoding
      ([Str.is_utf8]).  Case
      mapping ([str.lower], [re.IGNORECASE]) and white space ([str.strip],
      [\s]) and digits ([\d]) are the ASCII ones; letters, blanks and
      digits outside ASCII are left alone.  On ASCII text the model and
      Python agree.
    - Paths follow [posixpath].
    - Times are integers counted in nanoseconds ([second] of them make one
      second); byte sizes are integers.
    - The file system, the clock and the outcome of each attempt to read a
      file are inputs, gathered in the record [World].  The world does not
      change while one operation runs, except for the index directory,
      which is threaded through as a finite map from paths to contents.
    - A Python [dict] whose iteration order matters is an association list
      in insertion order ([dict_set], [dict_append]). *)

From stdpp Require Import gmap strings list pretty.
From Stdlib Require Import ZArith String Ascii Bool Lia Permutation Sorted.

Open Scope string_scope.
Open Scope Z_scope.

(** ** Python strings *)

Module Str.

Definition code (c : ascii) : nat := nat_of_ascii c.

(** [c.isspace()] on the ASCII range: TAB..CR, FS..US and the blank. *)
Definition is_space (c : ascii) : bool :=
  ((9 <=? code c)%nat && (code c <=? 13)%nat)
  || ((28 <=? code c)%nat && (code c <=? 32)%nat).

Definition is_digit (c : ascii) : bool :=
  (48 <=? code c)%nat && (code c <=? 57)%nat.

Definition is_upper (c : ascii) : bool :=
  (65 <=? code c)%nat && (code c <=? 90)%nat.

Definition lower_char (c : ascii) : ascii :=
  if is_upper c then ascii_of_nat (code c + 32) else c.

(** [s.lower()] *)
Fixpoint lower (s : string) : string :=
  match s with
  | EmptyString => EmptyString
  | String c s' => String (lower_char c) (lower s')
  end.

(** [s.lstrip()], [s.rstrip()] and [s.strip()] *)
Fixpoint lstrip (s : string) : string :=
  match s with
  | EmptyString => EmptyString
  | String c s' => if is_space c then lstrip s' else s
  end.

Fixpoint rstrip (s : string) : string :=
  match s with
  | EmptyString => EmptyString
  | String c s' =>
      match rstrip s' with
      | EmptyString => if is_space c then EmptyString else String c EmptyString
      | r => String c r
      end
  end.

Definition strip (s : string) : string := rstrip (lstrip s).

(** [s.rstrip(ch)] for a single character [ch] *)
Fixpoint rstrip_char (ch : ascii) (s : string) : string :=
  match s with
  | EmptyString => EmptyString
  | String c s' =>
      match rstrip_char ch s' with
      | EmptyString => if Ascii.eqb c ch then EmptyString else String c EmptyString
      | r => String c r
      end
  end.

(** [s.startswith(p)] and what follows the prefix *)
Fixpoint drop_prefix (p s : string) : option string :=
  match p with
  | EmptyString => Some s
  | String a p' =>
      match s with
      | EmptyString => None
      | String b s' => if Ascii.eqb a b then drop_prefix p' s' else None
      end
  end.

Definition startswith (s p : string) : bool :=
  match drop_prefix p s with Some _ => true | None => false end.

(** the same, ignoring ASCII case *)
Fixpoint drop_prefix_ci (p s : string) : option string :=
  match p with
  | EmptyString => Some s
  | String a p' =>
      match s with
      | EmptyString => None
      | String b s' =>
          if Ascii.eqb (lower_char a) (lower_char b)
          then drop_prefix_ci p' s' else None
      end
  end.

(** [sub in s] *)
Fixpoint contains (sub s : string) : bool :=
  if startswith s sub then true
  else match s with
       | EmptyString => false
       | String _ s' => contains sub s'
       end.

(** [s.split(sep, 1)]: the text before and after the first [sep], or
    [None] when [sep] does not occur (the list then has one element). *)
Fixpoint split_once (sep s : string) : option (string * string) :=
  match drop_prefix sep s with
  | Some rest => Some (EmptyString, rest)
  | None =>
      match s with
      | EmptyString => None
      | String c s' =>
          match split_once sep s' with
          | Some (a, b) => Some (String c a, b)
          | None => None
          end
      end
  end.

(** [s.split(sep)[0]] *)
Definition before_first (sep s : string) : string :=
  match split_once sep s with
  | Some (a, _) => a
  | None => s
  end.

(** [s[:n]] *)
Fixpoint take (n : nat) (s : string) : string :=
  match n, s with
  | S k, String c s' => String c (take k s')
  | _, _ => EmptyString
  end.

(** [s.rfind(ch)], as the text up to and including the last [ch] and the
    text after it; [None] when [ch] does not occur. *)
Fixpoint rsplit_char (ch : ascii) (s : string) : option (string * string) :=
  match s with
  | EmptyString => None
  | String c s' =>
      match rsplit_char ch s' with
      | Some (a, b) => Some (String c a, b)
      | None =>
          if Ascii.eqb c ch then Some (String c EmptyString, s') else None
      end
  end.

Fixpoint all_chars (p : ascii -> bool) (s : string) : bool :=
  match s with
  | EmptyString => true
  | String c s' => p c && all_chars p s'
  end.

(** the bytes 80 to BF, which continue a character *)
Definition is_cont (c : ascii) : bool :=
  (128 <=? code c)%nat && (code c <=? 191)%nat.

(** [s.encode()] does not raise: the bytes are well-formed UTF-8, which
    has no encoding of a surrogate. *)
Fixpoint is_utf8 (s : string) : bool :=
  match s with
  | EmptyString => true
  | String c0 s1 =>
      let b0 := code c0 in
      if (b0 <? 128)%nat then is_utf8 s1
      else
        match s1 with
        | EmptyString => false
        | String c1 s2 =>
            let b1 := code c1 in
            if (194 <=? b0)%nat && (b0 <=? 223)%nat then is_cont c1 && is_utf8 s2
            else
              match s2 with
              | EmptyString => false
              | String c2 s3 =>
                  if (224 <=? b0)%nat && (b0 <=? 239)%nat then
                    is_cont c1 && is_cont c2
                    && (if (b0 =? 224)%nat then (160 <=? b1)%nat
                        else if (b0 =? 237)%nat then (b1 <=? 159)%nat
                        else true)
                    && is_utf8 s3
                  else
                    match s3 with
                    | EmptyString => false
                    | String c3 s4 =>
                        (240 <=? b0)%nat && (b0 <=? 244)%nat
                        && is_cont c1 && is_cont c2 && is_cont c3
                        && (if (b0 =? 240)%nat then (144 <=? b1)%nat
                            else if (b0 =? 244)%nat then (b1 <=? 143)%nat
                            else true)
                        && is_utf8 s4
                    end
              end
        end
  end.

End Str.

(** ** The regular expressions of the program *)

Module Re.

(** The patterns of [music_finder.py] are sequences of literals,
    alternatives of literals, character classes, greedy repetitions of a
    class and the end anchor.  All of them are used with [re.sub]. *)
Inductive atom : Type :=
| Lit (s : string)                   (* literal text *)
| Alt (alts : list string)           (* one of several literal texts *)
| Plus (p : ascii -> bool)           (* [class]+, greedy *)
| Rep (n : nat) (p : ascii -> bool)  (* [class]{n} *)
| End.                               (* $ *)

Definition regex : Type := list atom.

Definition dot (c : ascii) : bool := negb (Ascii.eqb c "010"%char).

Fixpoint take_class (n : nat) (p : ascii -> bool) (s : string) : option string :=
  match n with
  | O => Some s
  | S k =>
      match s with
      | EmptyString => None
      | String c s' => if p c then take_class k p s' else None
      end
  end.

(** [$] holds at the end of the text and just before a final newline. *)
Definition at_end (s : string) : bool :=
  match s with
  | EmptyString => true
  | String c EmptyString => Ascii.eqb c "010"%char
  | _ => false
  end.

(** [match_here ci r s]: the text left after the match of [r] anchored at
    the start of [s] that a backtracking matcher finds first.  [ci] is
    [re.IGNORECASE]. *)
Fixpoint match_here (ci : bool) (r : regex) (s : string) {struct r} : option string :=
  match r with
  | [] => Some s
  | Lit t :: r' =>
      match (if ci then Str.drop_prefix_ci t s else Str.drop_prefix t s) with
      | Some s' => match_here ci r' s'
      | None => None
      end
  | Alt alts :: r' =>
      (fix try (l : list string) : option string :=
         match l with
         | [] => None
         | t :: l' =>
             match (if ci then Str.drop_prefix_ci t s else Str.drop_prefix t s) with
             | Some s' =>
                 match match_here ci r' s' with
                 | Some rest => Some rest
                 | None => try l'
                 end
             | None => try l'
             end
         end) alts
  | Plus p :: r' =>
      (fix more (s : string) : option string :=
         match s with
         | EmptyString => None
         | String c s' =>
             if p c then
               match more s' with
               | Some rest => Some rest
               | None => match_here ci r' s'
               end
             else None
         end) s
  | Rep n p :: r' =>
      match take_class n p s with
      | Some s' => match_here ci r' s'
      | None => None
      end
  | End :: r' => if at_end s then match_here ci r' s else None
  end.

(** [re.sub(r, repl, s)]: scan from the left; where [r] matches, emit
    [repl] and resume after the match.  [skip] counts the characters of a
    match still to be passed over. *)
Fixpoint sub_scan (ci : bool) (r : regex) (repl : string) (s : string) (skip : nat) : string :=
  match skip with
  | S k =>
      match s with
      | EmptyString => EmptyString
      | String _ s' => sub_scan ci r repl s' k
      end
  | O =>
      match match_here ci r s with
      | Some rest =>
          match (String.length s - String.length rest)%nat, s with
          | S k, String _ s' => (repl ++ sub_scan ci r repl s' k)%string
          | _, String c s' => (repl ++ String c (sub_scan ci r repl s' O))%string
          | _, EmptyString => repl
          end
      | None =>
          match s with
          | EmptyString => EmptyString
          | String c s' => String c (sub_scan ci r repl s' O)
          end
      end
  end.

Definition sub (ci : bool) (r : regex) (repl s : string) : string :=
  sub_scan ci r repl s O.

End Re.

(** ** [os.path] *)

Module PosixPath.

Definition sep : ascii := "/"%char.
Definition extsep : ascii := "."%char.

(** [os.path.split(p)]: head up to and including the last separator, and
    the tail. *)
Definition cut (p : string) : string * string :=
  match Str.rsplit_char sep p with
  | Some (head, tail) => (head, tail)
  | None => (EmptyString, p)
  end.

(** [os.path.basename(p)] *)
Definition basename (p : string) : string := snd (cut p).

(** [os.path.dirname(p)] *)
Definition dirname (p : string) : string :=
  let head := fst (cut p) in
  if Str.all_chars (Ascii.eqb sep) head then head
  else Str.rstrip_char sep head.

(** [os.path.join(a, b)] *)
Definition join (a b : string) : string :=
  if Str.startswith b (String sep EmptyString) then b
  else
    match Str.rsplit_char sep a with
    | Some (_, EmptyString) => (a ++ b)%string
    | _ =>
        match a with
        | EmptyString => b
        | _ => (a ++ String sep b)%string
        end
    end.

(** [os.path.splitext(p)]: the extension starts at the last dot of the
    last component, unless only dots precede it there. *)
Definition splitext (p : string) : string * string :=
  let (head, tail) := cut p in
  match Str.rsplit_char extsep tail with
  | Some (stem_dot, ext) =>
      let stem := Str.take (String.length stem_dot - 1) stem_dot in
      if Str.all_chars (Ascii.eqb extsep) stem then (p, EmptyString)
      else ((head ++ stem)%string, String extsep ext)
  | None => (p, EmptyString)
  end.

(** [os.path.normpath(p)] *)
Fixpoint split_sep (s : string) : list string :=
  match s with
  | EmptyString => [EmptyString]
  | String c s' =>
      if Ascii.eqb c sep then EmptyString :: split_sep s'
      else match split_sep s' with
           | [] => [String c EmptyString]
           | comp :: comps => String c comp :: comps
           end
  end.

(** the loop over the components; [new_comps] is kept reversed *)
Fixpoint norm_comps (rooted : bool) (comps new_comps : list string) : list string :=
  match comps with
  | [] => rev new_comps
  | comp :: comps' =>
      if String.eqb comp "" || String.eqb comp "." then
        norm_comps rooted comps' new_comps
      else if negb (String.eqb comp "..") then
        norm_comps rooted comps' (comp :: new_comps)
      else
        match new_comps with
        | [] => if rooted then norm_comps rooted comps' []
                else norm_comps rooted comps' [comp]
        | last :: before =>
            if String.eqb last ".." then norm_comps rooted comps' (comp :: new_comps)
            else norm_comps rooted comps' before
        end
  end.

Definition normpath (p : string) : string :=
  match p with
  | EmptyString => "."
  | _ =>
      let initial_slashes : nat :=
        if Str.startswith p "/" then
          if Str.startswith p "//" && negb (Str.startswith p "///") then 2%nat else 1%nat
        else 0%nat in
      let comps := norm_comps (negb (Nat.eqb initial_slashes 0)) (split_sep p) [] in
      let body := String.concat "/" comps in
      let res := (Str.take initial_slashes "//" ++ body)%string in
      match res with
      | EmptyString => "."
      | _ => res
      end
  end.

End PosixPath.

(** ** The world outside the program *)

(** One second, in the unit of the time stamps. *)
Definition second : Z := 1000000000.

(** [os.stat(path)]: the two fields the program reads. *)
Record stat_result : Type := { st_size : Z; st_mtime : Z }.

(** The outcome of one attempt to open and read a file for hashing. *)
Inductive attempt : Type :=
| ReadDigest (hexdigest : string)   (* the file was read to its end *)
| ReadIOError                       (* [IOError] *)
| ReadOtherError.                   (* any other exception *)

(** What [os.walk] sees below a directory: a directory that cannot be listed
    yields nothing; one that can yields its file names and is followed by
    its subdirectories, in order. *)
Inductive dir_tree : Type :=
| Unlistable
| Listing (files : list string) (subdirs : dir_forest)
with dir_forest : Type :=
| NoDir
| SubDir (name : string) (t : dir_tree) (rest : dir_forest).

Scheme dir_tree_mut := Induction for dir_tree Sort Prop
  with dir_forest_mut := Induction for dir_forest Sort Prop.

Record World : Type := {
  w_now : Z;                                (* [time.time()] *)
  w_stat : string -> option stat_result;    (* [os.stat]; [None]: it raises *)
  w_read : string -> nat -> attempt;        (* the n-th attempt to read a file *)
  w_walk : string -> dir_tree;              (* [os.walk(top)] *)
  w_home : string;                          (* [Path.home()] *)
  w_index_dir_ok : bool;                    (* the index directory can be made *)
  w_md5_hex : string -> string;             (* [hashlib.md5(s.encode()).hexdigest()] *)
  w_localtime_ok : Z -> bool                (* [datetime.fromtimestamp(t)] returns *)
}.

(** [os.path.exists(path)] *)
Definition path_exists (w : World) (p : string) : bool :=
  match w_stat w p with Some _ => true | None => false end.

(** ** Insertion-ordered dictionaries *)

Section Dict.
Context {K V : Type} `{EqDecision K}.

(** [d[k] = v]: an existing key keeps its place. *)
Fixpoint dict_set (k : K) (v : V) (d : list (K * V)) : list (K * V) :=
  match d with
  | [] => [(k, v)]
  | (k', v') :: d' =>
      if decide (k = k') then (k', v) :: d' else (k', v') :: dict_set k v d'
  end.

Fixpoint dict_get (k : K) (d : list (K * V)) : option V :=
  match d with
  | [] => None
  | (k', v') :: d' => if decide (k = k') then Some v' else dict_get k d'
  end.
End Dict.

Section DefaultDict.
Context {K V : Type} `{EqDecision K}.

(** [d[k].append(v)] on a [defaultdict(list)] *)
Fixpoint dict_append (k : K) (v : V) (d : list (K * list V)) : list (K * list V) :=
  match d with
  | [] => [(k, [v])]
  | (k', vs) :: d' =>
      if decide (k = k') then (k', (vs ++ [v])%list) :: d' else (k', vs) :: dict_append k v d'
  end.

(** the loop [for (k, v) in kvs: d[k].append(v)] from an empty dictionary *)
Definition group_pairs (kvs : list (K * V)) : list (K * list V) :=
  fold_left (fun d kv => dict_append (fst kv) (snd kv) d) kvs [].

(** the loop [for x in xs: d[key(x)].append(x)] *)
Definition group_by (key : V -> K) (xs : list V) : list (K * list V) :=
  group_pairs (map (fun x => (key x, x)) xs).
End DefaultDict.

(** ** core/file_info.py *)

Module FileInfoM.

(** The dataclass [FileInfo].  [mtime] stands for the formatted local
    time: [None] is the text "N/A", [Some t] the text of the whole second
    [t]. *)
Record FileInfo : Type := {
  path : string;
  size : string;
  mtime : option Z;
  exists_ : bool;
  _md5 : option string;
  _size_bytes : Z
}.

#[global] Instance FileInfo_eq_dec : EqDecision FileInfo.
Proof. solve_decision. Defined.

Definition size_bytes (f : FileInfo) : Z := _size_bytes f.

(** The number of hundredths in ["{x:.2f}"] for [x = n / 2^20]: the exact
    quotient rounded to the nearest hundredth, ties to the even one.  (The
    division by a power of two is exact in floating point for every size
    below 2^53.) *)
Definition hundredths_of_mb (n : Z) : Z :=
  let q := (n * 100) / 1048576 in
  let r := (n * 100) mod 1048576 in
  if r <? 524288 then q
  else if 524288 <? r then q + 1
  else if Z.even q then q else q + 1.

Definition two_digits (n : Z) : string :=
  if n <? 10 then ("0" ++ pretty n)%string else pretty n.

(** [f"{st_size / (1024*1024):.2f} MB"] *)
Definition format_size (n : Z) : string :=
  let h := hundredths_of_mb n in
  (pretty (h / 100) ++ "." ++ two_digits (h mod 100) ++ " MB")%string.

(** [FileInfo.from_path] *)
Definition from_path (w : World) (p : string) : FileInfo :=
  match w_stat w p with
  | Some stats =>
      {| path := p; size := format_size (st_size stats);
         mtime := Some (st_mtime stats / second);
         exists_ := true; _md5 := None; _size_bytes := st_size stats |}
  | None =>
      {| path := p; size := "N/A"; mtime := None;
         exists_ := false; _md5 := None; _size_bytes := 0 |}
  end.

(** [FileInfo._calculate_md5]: the [while retries < max_retries] loop.
    [read n] is the outcome of the attempt made with [retries = n]; [fuel]
    bounds the iterations.  The result is the returned value ([None] when
    the loop ends without a [return]) and the number of attempts made. *)
Fixpoint md5_loop (read : nat -> attempt) (max_retries retries fuel : nat)
  : option string * nat :=
  match fuel with
  | O => (None, O)
  | S fuel' =>
      if (retries <? max_retries)%nat then
        match read retries with
        | ReadDigest d => (Some d, 1%nat)
        | ReadIOError =>
            let retries' := S retries in
            if (max_retries <=? retries')%nat then (Some "", 1%nat)
            else
              let (r, n) := md5_loop read max_retries retries' fuel' in
              (r, S n)
        | ReadOtherError => (Some "", 1%nat)
        end
      else (None, O)
  end.

Definition calculate_md5_with (read : nat -> attempt) (max_retries : nat)
  : option string * nat :=
  md5_loop read max_retries 0 max_retries.

Definition default_max_retries : nat := 3.

(** the value the sentinel stands for: no digest *)
Definition unknown_md5 : string := "".

Definition _calculate_md5 (w : World) (f : FileInfo) : option string :=
  fst (calculate_md5_with (w_read w (path f)) default_max_retries).

(** The property [FileInfo.md5]: computed on first use when the file
    exists, [None] otherwise. *)
Definition md5 (w : World) (f : FileInfo) : option string :=
  match _md5 f with
  | None => if exists_ f then _calculate_md5 w f else None
  | Some d => Some d
  end.

(** the truth value of [md5] in [if md5:] *)
Definition truthy (m : option string) : option string :=
  match m with
  | Some EmptyString => None
  | other => other
  end.

End FileInfoM.

(** ** core/file_index.py *)

Module FileIndexM.

(** One element of ['files']: the dict with the keys ['path'], ['size'],
    ['mtime'] (and ['exists'], which is written and never read).  A key
    that is absent is [None]. *)
Record index_entry : Type := {
  e_path : option string;
  e_size : option Z;
  e_mtime : option Z
}.

#[global] Instance index_entry_eq_dec : EqDecision index_entry.
Proof. solve_decision. Defined.

(** The content of a file of the index directory: text that [json.load]
    rejects, or a document with the keys ['root_dir'], ['timestamp'] and
    ['files'] (the last two possibly absent). *)
Inductive index_file : Type :=
| Malformed
| Document (root_dir : string) (timestamp : option Z)
           (files : option (list index_entry)).

#[global] Instance index_file_eq_dec : EqDecision index_file.
Proof. solve_decision. Defined.

(** The index directory: which paths hold which content. *)
Abbreviation store := (gmap string index_file).

Definition index_dir (w : World) : string :=
  PosixPath.join (PosixPath.join (w_home w) ".music_finder") "index".

(** [get_index_path] *)
Definition get_index_path (w : World) (root_dir : string) : string :=
  PosixPath.join (index_dir w) (w_md5_hex w root_dir ++ ".json").

(** [index_path.with_suffix('.json.tmp')] *)
Definition temp_path_of (w : World) (root_dir : string) : string :=
  PosixPath.join (index_dir w) (w_md5_hex w root_dir ++ ".json.tmp").

(** the body of the first loop of [save_index] *)
Definition refresh_entry (w : World) (file : index_entry) : option index_entry :=
  match e_path file with
  | None => None
  | Some p =>
      match w_stat w p with
      | None => None
      | Some stats =>
          match e_size file with
          | None => None
          | Some sz =>
              Some {| e_path := Some p; e_size := Some sz;
                      e_mtime := Some (st_mtime stats) |}
          end
      end
  end.

(** [save_index]: nothing is written when no entry is left; otherwise the
    document goes to the temporary file, which then replaces the index
    file.  Writing into the index directory is taken to succeed. *)
Definition save_index (w : World) (st : store) (root_dir : string)
    (files : list index_entry) : store :=
  let valid_files := omap (refresh_entry w) files in
  match valid_files with
  | [] => st
  | _ =>
      let index_path := get_index_path w root_dir in
      let temp_path := temp_path_of w root_dir in
      let index_data := Document root_dir (Some (w_now w)) (Some valid_files) in
      let written := <[temp_path := index_data]> st in
      let replaced := <[index_path := index_data]> (delete temp_path written) in
      match replaced !! temp_path with
      | Some _ => delete temp_path replaced
      | None => replaced
      end
  end.

(** The verdict of the validation loop of [load_index] on one entry. *)
Inductive verdict : Type :=
| Valid
| Invalid (p : string)
| Skipped.                 (* the body raised; the entry is only logged *)

Definition check_entry (w : World) (file : index_entry) : verdict :=
  match e_path file with
  | None => Skipped
  | Some p =>
      match w_stat w p with
      | Some stats =>
          if bool_decide (Some (st_size stats) = e_size file)
             && (Z.abs (st_mtime stats - default 0 (e_mtime file)) <? 1 * second)
          then Valid else Invalid p
      | None => Invalid p
      end
  end.

Definition is_valid (w : World) (file : index_entry) : bool :=
  match check_entry w file with
  | Valid => true
  | _ => false
  end.

Definition valid_of (w : World) (files : list index_entry) : list index_entry :=
  List.filter (is_valid w) files.

Definition invalid_of (w : World) (files : list index_entry) : list string :=
  omap (fun file => match check_entry w file with
                    | Invalid p => Some p
                    | _ => None
                    end) files.

(** [load_index]: the loaded entries with the time stamp of the index, and
    the index directory as the call leaves it. *)
Definition load_index (w : World) (st : store) (root_dir : string)
  : option (list index_entry * Z) * store :=
  match st !! get_index_path w root_dir with
  | None => (None, st)
  | Some Malformed => (None, st)
  | Some (Document _ None _) => (None, st)
  | Some (Document _ (Some timestamp) files) =>
      if 24 * (3600 * second) <? w_now w - timestamp then (None, st)
      else
        match files with
        | None => (None, st)
        | Some files =>
            let valid_files := valid_of w files in
            let invalid_files := invalid_of w files in
            let st' := match invalid_files with
                       | [] => st
                       | _ => save_index w st root_dir valid_files
                       end in
            match valid_files with
            | [] => (None, st')
            | _ => (Some (valid_files, timestamp), st')
            end
        end
  end.

(** [remove_index] *)
Definition remove_index (w : World) (st : store) (root_dir : string) : store :=
  delete (get_index_path w root_dir) st.

End FileIndexM.

(** ** core/enums.py *)

Inductive DuplicateCheckMethod : Type := FILENAME | SIZE | MD5 | MIXED.

(** ** core/music_finder.py *)

Module MusicFinderM.
Import FileInfoM FileIndexM.

Definition MUSIC_EXTENSIONS : list string :=
  [".mp3"; ".wav"; ".flac"; ".aac"; ".ogg"; ".m4a"; ".ape"; ".wma"].

Fixpoint replace_char (a b : ascii) (s : string) : string :=
  match s with
  | EmptyString => EmptyString
  | String c s' => String (if Ascii.eqb c a then b else c) (replace_char a b s')
  end.

Fixpoint lstrip_slashes (s : string) : string :=
  match s with
  | EmptyString => EmptyString
  | String c s' =>
      if Ascii.eqb c "\"%char || Ascii.eqb c "/"%char then lstrip_slashes s' else s
  end.

(** [normalize_path]; the module [win32wnet] is not there to import, so
    no mapped drive is resolved. *)
Definition normalize_path (p : string) : string :=
  if Str.startswith p "\\" || Str.startswith p "//" then
    let p' := replace_char "/"%char "\"%char p in
    if negb (Str.startswith p' "\\") then ("\\" ++ lstrip_slashes p')%string
    else p'
  else PosixPath.normpath p.

(** *** File names *)

Definition artist_separators (c : ascii) : bool :=
  Ascii.eqb c "%"%char || Ascii.eqb c "."%char || Str.is_space c
  || Ascii.eqb c "-"%char || Ascii.eqb c "_"%char.

Definition remove_patterns : list Re.regex :=
  [ [Re.Lit "邓紫棋"; Re.End]; [Re.Lit "G.E.M"; Re.End];
    [Re.Lit "阿妹"; Re.End]; [Re.Lit "A-Mei"; Re.End];
    [Re.Lit "feat."; Re.Plus Re.dot; Re.End];
    [Re.Lit "ft."; Re.Plus Re.dot; Re.End];
    [Re.Alt ["("; "（"]; Re.Plus Re.dot; Re.Alt [")"; "）"]; Re.End];
    [Re.Lit "翻自"; Re.Plus Re.dot; Re.End];
    [Re.Lit "cover"; Re.Plus Re.dot; Re.End] ].

(** [normalize_artist_name] *)
Definition normalize_artist_name (artist : string) : string :=
  let artist := Re.sub false [Re.Plus artist_separators] " " artist in
  let artist :=
    fold_left (fun a pattern => Re.sub true pattern "" a) remove_patterns artist in
  Str.lower (Str.strip artist).

Definition title_patterns : list Re.regex :=
  [ [Re.Lit "(Live)"; Re.End]; [Re.Lit "(Remix)"; Re.End];
    [Re.Lit "(Cover)"; Re.End]; [Re.Lit "(DJ版)"; Re.End];
    [Re.Lit "(纯音乐)"; Re.End]; [Re.Lit "(伴奏)"; Re.End];
    [Re.Lit "(片段)"; Re.End]; [Re.Lit "(Demo)"; Re.End] ].

(** [parse_music_filename]: (title, artist) *)
Definition parse_music_filename (filename : string) : string * string :=
  let name := Str.strip (fst (PosixPath.splitext filename)) in
  let name := Re.sub false [Re.Lit "_"; Re.Rep 14 Str.is_digit; Re.End] "" name in
  match Str.split_once " - " name with
  | Some (title, artist) =>
      let title :=
        fold_left (fun t pattern => Re.sub true pattern "" t) title_patterns title in
      (Str.strip title, normalize_artist_name artist)
  | None => (name, "")
  end.

(** *** The scan: lines 159 to 301 of [find_duplicates] *)

(** [get_dir_mtime].  The memo table of the source only saves calls: the
    world does not change during a scan. *)
Definition get_dir_mtime (w : World) (dir_path : string) : Z :=
  match w_stat w dir_path with
  | Some stats => st_mtime stats
  | None => 0
  end.

(** One turn of the loop over the entries of the loaded index.  The state
    is [all_files] and [known_files]. *)
Definition rehydrate_step (w : World) (acc : list FileInfo * gset string)
    (f : index_entry) : list FileInfo * gset string :=
  let (all_files, known_files) := acc in
  match e_path f with
  | None => acc                       (* every loaded entry has a path *)
  | Some p =>
      let dir_path := PosixPath.dirname p in
      if String.eqb dir_path "" then acc      (* [relpath] raises; logged *)
      else
        let file_mtime := default 0 (e_mtime f) in
        let dir_mtime := get_dir_mtime w dir_path in
        if file_mtime <? dir_mtime then acc   (* the directory was updated *)
        else
          let file_info := from_path w p in
          if exists_ file_info
          then ((all_files ++ [file_info])%list, {[p]} ∪ known_files)
          else acc
  end.

Definition rehydrate (w : World) (indexed_files : list index_entry)
  : list FileInfo * gset string :=
  fold_left (rehydrate_step w) indexed_files ([], ∅).

Section Walk.
Variable w : World.
Variable root_dir : string.
Variable index_time : option Z.       (* [None]: no index was loaded *)
Variable known_files : gset string.
Variable max_depth : Z.
Variable min_size_bytes : Z.

(** [should_scan_dir(dir_path, index_result is not None)] *)
Definition should_scan_dir (dir_path : string) : bool :=
  match index_time with
  | None => true
  | Some t =>
      if t <? get_dir_mtime w dir_path then true
      else
        let parent := PosixPath.dirname dir_path in
        if negb (String.eqb parent "") && Str.startswith parent root_dir
        then t <? get_dir_mtime w parent
        else false
  end.

Definition recognized (file_path : string) : bool :=
  bool_decide (Str.lower (snd (PosixPath.splitext file_path)) ∈ MUSIC_EXTENSIONS).

(** the body of [for file in files] *)
Definition scan_file (root file : string) : option FileInfo :=
  let file_path := PosixPath.join root file in
  if bool_decide (file_path ∈ known_files) then None
  else if negb (recognized file_path) then None
  else
    match w_stat w file_path with
    | None => None
    | Some stats =>
        if st_size stats <? min_size_bytes then None
        else
          let file_info := from_path w file_path in
          if exists_ file_info then Some file_info else None
    end.

(** [for root, dirs, files in os.walk(root_dir)].  [depth] is the number
    of components of [root] relative to [root_dir]; it is 0 exactly when
    the relative path is ['.']. *)
Fixpoint walk (depth : nat) (root : string) (t : dir_tree) : list FileInfo :=
  match t with
  | Unlistable => []
  | Listing files dirs =>
      if negb (should_scan_dir root) then []
      else if (0 <? max_depth) && negb (Nat.eqb depth 0)
              && (max_depth <? Z.of_nat depth) then []
      else (omap (scan_file root) files ++ walk_dirs (S depth) root dirs)%list
  end
with walk_dirs (depth : nat) (root : string) (dirs : dir_forest) : list FileInfo :=
  match dirs with
  | NoDir => []
  | SubDir name t rest =>
      (walk depth (PosixPath.join root name) t ++ walk_dirs depth root rest)%list
  end.
End Walk.

(** What the scan hands on: the loaded index, [all_files],
    [new_files_count] and the index directory. *)
Record scan : Type := {
  index_result : option (list index_entry * Z);
  cached_files : list FileInfo;
  known_files : gset string;
  new_files : list FileInfo;
  scan_store : store
}.

Definition all_files (s : scan) : list FileInfo :=
  (cached_files s ++ new_files s)%list.

Definition new_files_count (s : scan) : nat := List.length (new_files s).

(** [root_dir] is the normalized root. *)
Definition collect_files (w : World) (st : store) (root_dir : string)
    (max_depth min_size_mb : Z) : scan :=
  let (index_result, st') := load_index w st root_dir in
  let (cached, known) :=
    match index_result with
    | Some (indexed_files, _) => rehydrate w indexed_files
    | None => ([], ∅)
    end in
  let min_size_bytes := min_size_mb * 1024 * 1024 in
  let found :=
    walk w root_dir (snd <$> index_result) known max_depth min_size_bytes
         0 root_dir (w_walk w root_dir) in
  {| index_result := index_result; cached_files := cached;
     known_files := known; new_files := found; scan_store := st' |}.

(** *** The index refresh: lines 304 to 322 *)

Definition index_data_of (w : World) (files : list FileInfo) : list index_entry :=
  omap (fun file_info =>
          match w_stat w (path file_info) with
          | Some stats =>
              Some {| e_path := Some (path file_info);
                      e_size := Some (size_bytes file_info);
                      e_mtime := Some (st_mtime stats) |}
          | None => None
          end) files.

Definition refresh_index (w : World) (root_dir : string) (s : scan) : store :=
  let drift :=
    match index_result s with
    | Some (indexed_files, _) =>
        negb (Nat.eqb (List.length (all_files s)) (List.length indexed_files))
    | None => false
    end in
  if (0 <? new_files_count s)%nat || drift then
    match index_data_of w (all_files s) with
    | [] => scan_store s
    | index_data => save_index w (scan_store s) root_dir index_data
    end
  else scan_store s.

(** *** The grouping: lines 329 to 401 *)

Abbreviation groups := (list (string * list FileInfo)).

(** [for k, files in d.items(): if len(files) > 1: duplicates[label] = files] *)
Definition add_duplicates {K : Type} (label : K -> list FileInfo -> string)
    (d : list (K * list FileInfo)) (duplicates : groups) : groups :=
  fold_left (fun dup kf =>
               if (1 <? List.length (snd kf))%nat
               then dict_set (label (fst kf) (snd kf)) (snd kf) dup
               else dup) d duplicates.

(** [files[0].size] *)
Definition first_size (files : list FileInfo) : string :=
  match files with
  | f :: _ => size f
  | [] => ""
  end.

Definition size_label (_ : Z) (files : list FileInfo) : string :=
  ("大小: " ++ first_size files)%string.

Definition md5_label (md5 : string) (_ : list FileInfo) : string :=
  ("MD5: " ++ Str.take 8 md5 ++ "...")%string.

Definition mixed_label (md5 : string) (md5_files : list FileInfo) : string :=
  ("大小: " ++ first_size md5_files ++ ", MD5: " ++ Str.take 8 md5 ++ "...")%string.

Definition song_label (name_key : string) (files : list FileInfo) : string :=
  ("歌曲: " ++ Str.before_first "|" name_key
    ++ " (" ++ pretty (List.length files) ++ "个版本)")%string.

(** [size_groups]: the files by byte size *)
Definition size_groups (files : list FileInfo) : list (Z * list FileInfo) :=
  group_by size_bytes files.

(** [md5_groups]: the files with a digest, by digest *)
Definition md5_groups (w : World) (files : list FileInfo) : list (string * list FileInfo) :=
  group_pairs
    (omap (fun file_info =>
             match truthy (md5 w file_info) with
             | Some d => Some (d, file_info)
             | None => None
             end) files).

Definition name_key (file_info : FileInfo) : string :=
  let (title, artist) := parse_music_filename (PosixPath.basename (path file_info)) in
  match artist with
  | EmptyString => title
  | _ => (title ++ "|" ++ artist)%string
  end.

Definition name_groups (files : list FileInfo) : list (string * list FileInfo) :=
  group_by name_key files.

Definition group_files (w : World) (method : DuplicateCheckMethod)
    (files : list FileInfo) : groups :=
  match method with
  | SIZE => add_duplicates size_label (size_groups files) []
  | MD5 => add_duplicates md5_label (md5_groups w files) []
  | MIXED =>
      fold_left (fun dup sf =>
                   if (1 <? List.length (snd sf))%nat
                   then add_duplicates mixed_label (md5_groups w (snd sf)) dup
                   else dup) (size_groups files) []
  | FILENAME => add_duplicates song_label (name_groups files) []
  end.

(** *** [find_duplicates] *)

(** the exceptions that leave [find_duplicates], with [str(e)] *)
Inductive exn : Type :=
| OSError (what : string)
| UnicodeEncodeError (what : string)
| OverflowError (what : string)
| ValueError (what : string).

Definition str_of (e : exn) : string :=
  match e with
  | OSError what | UnicodeEncodeError what | OverflowError what | ValueError what => what
  end.

Inductive result (A : Type) : Type :=
| Raised (e : exn)
| Returned (a : A).
Arguments Raised {A} e.
Arguments Returned {A} a.

(** [FileIndex()]: the constructor makes the index directory and raises
    when it cannot. *)
Definition FileIndex_init (w : World) : result unit :=
  if w_index_dir_ok w then Returned tt
  else Raised (OSError (index_dir w)).

(** The body of [find_duplicates] from [FileIndex()] on, for a call that
    no exception leaves after it: the groups with the number of files
    scanned, and the index directory.  The progress callback and the log
    lines only report and are left out.  No step of the grouping raises,
    so the handler around it is never entered.  The exceptions of a call
    are in [find_duplicates_call]. *)
Definition find_duplicates (w : World) (st : store) (root_dir : string)
    (method : DuplicateCheckMethod) (max_depth min_size_mb : Z)
  : result (groups * nat) * store :=
  let root_dir := normalize_path root_dir in
  match FileIndex_init w with
  | Raised e => (Raised e, st)
  | Returned _ =>
      let s := collect_files w st root_dir max_depth min_size_mb in
      let st' := refresh_index w root_dir s in
      (Returned (group_files w method (all_files s), List.length (all_files s)), st')
  end.

(** the path holds a NUL character: [os.walk] raises [ValueError] *)
Definition has_nul (p : string) : bool :=
  negb (Str.all_chars (fun c => negb (Ascii.eqb c "000"%char)) p).

(** A call of [find_duplicates], with the exceptions that leave it.  After
    [FileIndex()] three steps are outside every handler: [get_index_path]
    (called first by [load_index]) encodes the root and raises
    [UnicodeEncodeError] when it has no encoding; the time stamp of a
    loaded index is formatted for the log with [datetime.fromtimestamp],
    which raises ([OverflowError], [OSError] or [ValueError], by platform)
    for a time it cannot convert; and [os.walk], which passes over the
    errors of listing ([OSError]), raises [ValueError] for a root with a
    NUL character.  The load, with its compaction, has happened by
    then. *)
Definition find_duplicates_call (w : World) (st : store) (root_dir : string)
    (method : DuplicateCheckMethod) (max_depth min_size_mb : Z)
  : result (groups * nat) * store :=
  let root := normalize_path root_dir in
  match FileIndex_init w with
  | Raised e => (Raised e, st)
  | Returned _ =>
      if negb (Str.is_utf8 root) then (Raised (UnicodeEncodeError root), st)
      else
        let s := collect_files w st root max_depth min_size_mb in
        let shown :=
          match index_result s with
          | Some (_, index_time) => w_localtime_ok w index_time
          | None => true
          end in
        if negb shown then (Raised (OverflowError "timestamp out of range"), scan_store s)
        else if has_nul root then (Raised (ValueError "embedded null byte"), scan_store s)
        else find_duplicates w st root_dir method max_depth min_size_mb
  end.

End MusicFinderM.

(** ** gui/main_window.py: the search thread *)

Module SearchWorker.
Import FileInfoM FileIndexM MusicFinderM.

(** the signals [finished(dict, int)] and [error(str)] *)
Inductive signal : Type :=
| finished (results : groups) (total : nat)
| error (message : string).

(** [SearchWorker.run] *)
Definition run (w : World) (st : store) (directory : string)
    (method : DuplicateCheckMethod) : signal * store :=
  match find_duplicates_call w st directory method 0 0 with
  | (Returned (results, total), st') => (finished results total, st')
  | (Raised e, st') => (error (str_of e), st')
  end.

End SearchWorker.

(** ** gui/widgets/file_tree.py: the automatic selection *)

Module FileTree.

(** The dict returned by [DuplicateSettingsDialog.get_settings]. *)
Record settings : Type := {
  format_priority : gmap string Z;
  prefer_larger : bool;
  exclude_dirs : list string;
  delete_dirs : list string;
  keep_oldest : bool;
  skip_different_names : bool
}.

(** A row below a group of the tree, as [auto_select_duplicates] reads it:
    the path of column 0, the number of column 1 ("x.yz MB") counted in
    hundredths of a megabyte, and [time.mktime] of the local time of
    column 2, in seconds. *)
Record tree_item : Type := {
  text0 : string;
  text1 : Z;
  text2 : Z
}.

(** The dict built for each row that is not excluded; [item] is the
    position of the row in its group. *)
Record file_entry : Type := {
  item : nat;
  path : string;
  ext : string;
  size : Z;
  mtime : Z;
  priority : Z
}.

#[global] Instance file_entry_eq_dec : EqDecision file_entry.
Proof. solve_decision. Defined.

(** [any(d.lower() in file['path'].lower() for d in delete_dirs)] *)
Definition in_delete_dir (s : settings) (file : file_entry) : bool :=
  existsb (fun d => Str.contains (Str.lower d) (Str.lower (path file)))
          (delete_dirs s).

(** The sort key of [_select_files_to_delete]; tuples compare
    lexicographically and [False < True]. *)
Definition sort_key (s : settings) (x : file_entry) : bool * Z * Z * Z :=
  (in_delete_dir s x,
   priority x,
   if prefer_larger s then size x else - size x,
   if keep_oldest s then - mtime x else mtime x).

Definition bool_ltb (a b : bool) : bool := negb a && b.

Definition key_ltb (a b : bool * Z * Z * Z) : bool :=
  let '(a1, a2, a3, a4) := a in
  let '(b1, b2, b3, b4) := b in
  if bool_ltb a1 b1 then true else if bool_ltb b1 a1 then false
  else if a2 <? b2 then true else if b2 <? a2 then false
  else if a3 <? b3 then true else if b3 <? a3 then false
  else a4 <? b4.

(** [a <= b] on sort keys: [b] is not strictly below [a]. *)
Definition key_le (a b : bool * Z * Z * Z) : Prop := key_ltb b a = false.

(** [files.sort(key=...)]: the sort is stable, so an element goes before
    the first one whose key is strictly greater. *)
Fixpoint insert_by (s : settings) (x : file_entry) (l : list file_entry)
  : list file_entry :=
  match l with
  | [] => [x]
  | y :: l' =>
      if key_ltb (sort_key s x) (sort_key s y) then x :: y :: l'
      else y :: insert_by s x l'
  end.

Definition sort_files (s : settings) (files : list file_entry) : list file_entry :=
  fold_left (fun sorted x => insert_by s x sorted) files [].

(** a list in ascending order of the sort key *)
Definition ascending (s : settings) (l : list file_entry) : Prop :=
  StronglySorted (fun x y => key_le (sort_key s x) (sort_key s y)) l.

(** [_select_files_to_delete]: the rows that get selected *)
Definition _select_files_to_delete (files : list file_entry) (s : settings)
  : list file_entry :=
  match files with
  | [] => []
  | _ => tail (sort_files s files)
  end.

(** the row that is not selected *)
Definition kept (files : list file_entry) (s : settings) : option file_entry :=
  head (sort_files s files).

(** the loop that gathers the rows of one group *)
Fixpoint collect (s : settings) (j : nat) (rows : list tree_item) : list file_entry :=
  match rows with
  | [] => []
  | row :: rows' =>
      let p := text0 row in
      let e := Str.lower (snd (PosixPath.splitext p)) in
      if existsb (fun excl_dir => Str.contains excl_dir p) (exclude_dirs s)
      then collect s (S j) rows'
      else {| item := j; path := p; ext := e; size := text1 row;
              mtime := text2 row;
              priority := default 999 (format_priority s !! e) |}
           :: collect s (S j) rows'
  end.

Definition base_name (f : file_entry) : string :=
  fst (PosixPath.splitext (PosixPath.basename (path f))).

(** the body of the loop of [auto_select_duplicates] for one group *)
Definition auto_select_group (s : settings) (rows : list tree_item)
  : list file_entry :=
  let files := collect s 0 rows in
  match files with
  | [] => []
  | _ =>
      if skip_different_names s then
        flat_map (fun ng =>
                    if (1 <? List.length (snd ng))%nat
                    then _select_files_to_delete (snd ng) s
                    else [])
                 (group_by base_name files)
      else _select_files_to_delete files s
  end.

(** case analysis on sort keys, for the order lemmas *)
Ltac key_cases :=
  unfold key_le, key_ltb, bool_ltb in *;
  repeat match goal with
         | k : (bool * Z * Z * Z)%type |- _ => destruct k as [[[[|] ?] ?] ?]
         end;
  simpl in *;
  repeat match goal with
         | H : context [?a <? ?b] |- _ => destruct (Z.ltb_spec a b)
         | |- context [?a <? ?b] => destruct (Z.ltb_spec a b)
         end;
  try discriminate; try reflexivity; try lia.

End FileTree.

(** ** The statements of the specification that the code is compared with *)

Module Stated.
Import FileInfoM FileIndexM MusicFinderM.

(** "Result = validated cached records ∪ newly discovered records": every
    entry that [load_index] returns has its record in the scan result. *)
Definition keeps_validated_records (w : World) (st : store) (root_dir : string)
    (max_depth min_size_mb : Z) : Prop :=
  forall valid ts e p,
    fst (load_index w st root_dir) = Some (valid, ts) ->
    e ∈ valid -> e_path e = Some p ->
    exists fi, fi ∈ all_files (collect_files w st root_dir max_depth min_size_mb)
               /\ path fi = p.

(** "On malformed content the corrupt file is renamed aside (not deleted)
    and treated as a cache miss." *)
Definition renames_corrupt_index_aside (w : World) (st : store) (root_dir : string) : Prop :=
  st !! get_index_path w root_dir = Some Malformed ->
  fst (load_index w st root_dir) = None /\
  snd (load_index w st root_dir) !! get_index_path w root_dir = None /\
  exists aside, aside <> get_index_path w root_dir /\
                st !! aside = None /\
                snd (load_index w st root_dir) !! aside = Some Malformed.

(** what identifies a stored record: its path and its size *)
Definition entry_id (e : index_entry) : option string * option Z :=
  (e_path e, e_size e).

(** "Whenever at least one record was dropped it issues a compaction save
    whose content is exactly the remaining valid set": after a load that
    dropped a record, the index file holds the valid records. *)
Definition persisted_index_is_compacted (w : World) (st : store) (root_dir : string) : Prop :=
  forall rd ts files,
    st !! get_index_path w root_dir = Some (Document rd (Some ts) (Some files)) ->
    w_now w - ts < 24 * (3600 * second) ->
    valid_of w files <> files ->
    exists rd' ts' saved,
      snd (load_index w st root_dir) !! get_index_path w root_dir
        = Some (Document rd' ts' (Some saved)) /\
      map entry_id saved = map entry_id (valid_of w files).

(** every record of the document has its ['path'], as [save_index]
    writes them *)
Definition records_have_paths (files : list index_entry) : Prop :=
  forall e, e ∈ files -> exists p, e_path e = Some p.

(** "an unreadable root surfaces as a scan-level error, not an empty
    result" *)
Definition unreadable_root_is_an_error (w : World) (st : store) (directory : string)
    (method : DuplicateCheckMethod) : Prop :=
  w_walk w (normalize_path directory) = Unlistable ->
  exists message, fst (SearchWorker.run w st directory method) = SearchWorker.error message.

(** "normalizes both to title "song"/artist "artist" and groups them
    together" *)
Definition live_scenario_as_stated (w : World) (a b : FileInfo) : Prop :=
  parse_music_filename (PosixPath.basename (path a)) = ("song", "artist") /\
  parse_music_filename (PosixPath.basename (path b)) = ("song", "artist") /\
  exists label, group_files w FILENAME [a; b] = [(label, [a; b])].

(** the record of a loaded index entry whose file is below the size bound
    or has no recognized extension is in the scan result all the same *)
Definition index_records_bypass_filters (w : World) (st : store) (root_dir : string)
    (max_depth min_size_mb : Z) : Prop :=
  forall valid ts e p stats,
    fst (load_index w st root_dir) = Some (valid, ts) ->
    e ∈ valid -> e_path e = Some p -> w_stat w p = Some stats ->
    st_size stats < min_size_mb * 1024 * 1024
    \/ recognized p = false ->
    exists fi, fi ∈ all_files (collect_files w st root_dir max_depth min_size_mb)
               /\ path fi = p.

(** the test of the loop over the loaded entries: the entry has a path
    with a directory part, and the directory is not newer than the stored
    modification time *)
Definition rehydrates (w : World) (e : index_entry) (p : string) : Prop :=
  e_path e = Some p /\ PosixPath.dirname p <> "" /\
  get_dir_mtime w (PosixPath.dirname p) <= default 0 (e_mtime e).

(** what the walk requires of a file it adds *)
Definition newly_found (w : World) (known : gset string) (min_size_bytes : Z)
    (fi : FileInfo) : Prop :=
  fi = from_path w (path fi) /\ exists_ fi = true /\ (path fi ∉ known) /\
  recognized (path fi) = true /\ min_size_bytes <= size_bytes fi.

(** The ranking of the specification: size descending when
    [prefer_larger], ascending otherwise; time ascending when
    [keep_oldest], descending otherwise. *)
Definition stated_key (s : FileTree.settings) (x : FileTree.file_entry)
  : bool * Z * Z * Z :=
  (FileTree.in_delete_dir s x,
   FileTree.priority x,
   if FileTree.prefer_larger s then - FileTree.size x else FileTree.size x,
   if FileTree.keep_oldest s then FileTree.mtime x else - FileTree.mtime x).

End Stated.

(** ** Concrete worlds *)

Module Scenarios.
Import FileInfoM FileIndexM MusicFinderM.

Definition secs (n : Z) : Z := n * second.

(** MD5 digests of the root paths used below *)
Definition root_digests : list (string * string) :=
  [ ("/m", "36e11f4aa67c6edbb1fcca180c1a8f89");
    ("/music", "5f1d78717e05af5ea56f25e47d0355ce");
    ("/nowhere", "3399f00d6fd40ebca172cd8c15d9f193") ].

(** A world given by its clock, the stat of its paths, the digests of its
    readable files and what [os.walk] finds.  A file without a digest
    fails every read with an I/O error. *)
Definition world_of (now : Z) (stats : list (string * stat_result))
    (digests : list (string * string)) (trees : list (string * dir_tree)) : World :=
  {| w_now := now;
     w_stat := fun p => dict_get p stats;
     w_read := fun p _ => match dict_get p digests with
                          | Some d => ReadDigest d
                          | None => ReadIOError
                          end;
     w_walk := fun top => default Unlistable (dict_get top trees);
     w_home := "/home/u";
     w_index_dir_ok := true;
     w_md5_hex := fun s => default "d41d8cd98f00b204e9800998ecf8427e"
                                   (dict_get s root_digests);
     w_localtime_ok := fun t => (0 <=? t) && (t <? 253402300800 * second) |}.

Definition file_stat (sz t : Z) : stat_result := {| st_size := sz; st_mtime := secs t |}.

Definition entry (p : string) (sz t : Z) : index_entry :=
  {| e_path := Some p; e_size := Some sz; e_mtime := Some (secs t) |}.

Definition index_of (w : World) (root_dir : string) (content : index_file) : store :=
  {[ get_index_path w root_dir := content ]}.

(** *** A song older than its directory, indexed after both changed

    [/m/a.mp3] was last written at second 100, [/m] was last changed at
    second 200 (or 350), the index was made at second 300 and the scan
    runs at second 400. *)
Definition old_song_world (dir_mtime : Z) : World :=
  world_of (secs 400)
    [ ("/m", file_stat 4096 dir_mtime); ("/m/a.mp3", file_stat 5000000 100) ]
    []
    [ ("/m", Listing ["a.mp3"] NoDir) ].

Definition old_song_index (w : World) : store :=
  index_of w "/m" (Document "/m" (Some (secs 300)) (Some [entry "/m/a.mp3" 5000000 100])).

(** *** A song newer than its directory, below a root that changed

    [/m/sub/a.mp3] (second 100) is in the index of second 300 and
    [/m/sub] has not changed since second 50; [/m] changed at second 350,
    when [/m/new.mp3] was added. *)
Definition fresh_song_world : World :=
  world_of (secs 400)
    [ ("/m", file_stat 4096 350); ("/m/sub", file_stat 4096 50);
      ("/m/sub/a.mp3", file_stat 5000000 100);
      ("/m/new.mp3", file_stat 7000000 350); ("/m/notes.txt", file_stat 10 350) ]
    []
    [ ("/m", Listing ["new.mp3"; "notes.txt"]
               (SubDir "sub" (Listing ["a.mp3"] NoDir) NoDir)) ].

Definition fresh_song_index (w : World) : store :=
  index_of w "/m"
    (Document "/m" (Some (secs 300)) (Some [entry "/m/sub/a.mp3" 5000000 100])).

(** *** A corrupt index file *)
Definition corrupt_index (w : World) : store := index_of w "/m" Malformed.

(** *** An index whose only file is gone, and one with a survivor *)
Definition gone_world : World :=
  world_of (secs 400)
    [ ("/m", file_stat 4096 50); ("/m/kept.mp3", file_stat 3000000 100) ]
    []
    [ ("/m", Listing ["kept.mp3"] NoDir) ].

Definition stale_index (w : World) : store :=
  index_of w "/m" (Document "/m" (Some (secs 300)) (Some [entry "/m/gone.mp3" 5000000 100])).

(** *** An index with a record that has no path *)
Definition no_path_index (w : World) : store :=
  index_of w "/m"
    (Document "/m" (Some (secs 300))
       (Some [ {| e_path := None; e_size := Some 5000000; e_mtime := Some (secs 100) |};
               entry "/m/kept.mp3" 3000000 100 ])).

Definition half_stale_index (w : World) : store :=
  index_of w "/m"
    (Document "/m" (Some (secs 300))
       (Some [entry "/m/gone.mp3" 5000000 100; entry "/m/kept.mp3" 3000000 100])).

(** *** A root that cannot be listed *)
Definition no_root_world : World := world_of (secs 400) [] [] [].

(** *** Two sizes, one label

    Two pairs of files, of 1048576 and 1048577 bytes: both sizes print as
    "1.00 MB". *)
Definition two_sizes_world : World :=
  world_of (secs 400)
    [ ("/m/a.mp3", file_stat 1048576 100); ("/m/b.mp3", file_stat 1048576 100);
      ("/m/c.mp3", file_stat 1048577 100); ("/m/d.mp3", file_stat 1048577 100) ]
    [] [].

Definition two_sizes_files : list FileInfo :=
  map (from_path two_sizes_world) ["/m/a.mp3"; "/m/b.mp3"; "/m/c.mp3"; "/m/d.mp3"].

(** *** Two digests, one label

    Two pairs of files of eight bytes each; the files hold the texts
    "00042832" and "00049218", whose MD5 digests start with the same eight
    characters. *)
Definition digest_1 : string := "22fc0bbcf26179b47ab984a14be7be1d".
Definition digest_2 : string := "22fc0bbce0b8365a20ebebd6d466bc22".

Definition two_digests_world : World :=
  world_of (secs 400)
    [ ("/m/a.mp3", file_stat 8 100); ("/m/b.mp3", file_stat 8 100);
      ("/m/c.mp3", file_stat 8 100); ("/m/d.mp3", file_stat 8 100) ]
    [ ("/m/a.mp3", digest_1); ("/m/b.mp3", digest_1);
      ("/m/c.mp3", digest_2); ("/m/d.mp3", digest_2) ]
    [].

Definition two_digests_files : list FileInfo :=
  map (from_path two_digests_world) ["/m/a.mp3"; "/m/b.mp3"; "/m/c.mp3"; "/m/d.mp3"].

(** *** Two unreadable files and a readable pair *)
Definition unreadable_world : World :=
  world_of (secs 400)
    [ ("/m/a.mp3", file_stat 8 100); ("/m/b.mp3", file_stat 8 100);
      ("/m/x.mp3", file_stat 8 100); ("/m/y.mp3", file_stat 8 100) ]
    [ ("/m/a.mp3", digest_1); ("/m/b.mp3", digest_1) ]
    [].

Definition unreadable_files : list FileInfo :=
  map (from_path unreadable_world) ["/m/x.mp3"; "/m/a.mp3"; "/m/y.mp3"; "/m/b.mp3"].

(** *** The two file names of the "Live" scenario *)
Definition live_world : World :=
  world_of (secs 400)
    [ ("/m/Song - Artist.mp3", file_stat 3000000 100);
      ("/m/Song - Artist (Live).mp3", file_stat 4000000 200) ]
    [] [].

Definition song_plain : FileInfo := from_path live_world "/m/Song - Artist.mp3".
Definition song_live : FileInfo := from_path live_world "/m/Song - Artist (Live).mp3".

(** *** Rows of one group of the result tree *)
Definition plain_settings (larger oldest : bool) : FileTree.settings :=
  {| FileTree.format_priority := {[ ".flac" := 1; ".mp3" := 4 ]};
     FileTree.prefer_larger := larger;
     FileTree.exclude_dirs := [];
     FileTree.delete_dirs := [];
     FileTree.keep_oldest := oldest;
     FileTree.skip_different_names := false |}.

(** the dict built for a row with the extension ".mp3" *)
Definition mp3_entry (j : nat) (p : string) (sz t : Z) : FileTree.file_entry :=
  {| FileTree.item := j; FileTree.path := p; FileTree.ext := ".mp3";
     FileTree.size := sz; FileTree.mtime := t; FileTree.priority := 4 |}.

(** a 3.00 MB and a 5.00 MB copy with the same time *)
Definition small_and_large : list FileTree.tree_item :=
  [ {| FileTree.text0 := "/m/a.mp3"; FileTree.text1 := 300; FileTree.text2 := 1000 |};
    {| FileTree.text0 := "/m/b.mp3"; FileTree.text1 := 500; FileTree.text2 := 1000 |} ].

(** two copies of the same size, written at second 1000 and second 2000 *)
Definition old_and_new : list FileTree.tree_item :=
  [ {| FileTree.text0 := "/m/a.mp3"; FileTree.text1 := 300; FileTree.text2 := 1000 |};
    {| FileTree.text0 := "/m/b.mp3"; FileTree.text1 := 300; FileTree.text2 := 2000 |} ].

End Scenarios.

(** ** Reference definitions for the grouping *)

Module GroupingRef.
Import FileInfoM FileIndexM MusicFinderM.

(** what makes two files duplicates under a method *)
Definition duplicate_under (w : World) (method : DuplicateCheckMethod)
    (a b : FileInfo) : Prop :=
  match method with
  | SIZE => size_bytes a = size_bytes b
  | MD5 =>
      exists d, md5 w a = Some d /\ md5 w b = Some d /\ d <> unknown_md5
  | MIXED =>
      size_bytes a = size_bytes b /\
      exists d, md5 w a = Some d /\ md5 w b = Some d /\ d <> unknown_md5
  | FILENAME => name_key a = name_key b
  end.

(** the values filed under a key, in the order of the pairs *)
Definition values_of {K V : Type} `{EqDecision K} (k : K) (kvs : list (K * V)) : list V :=
  map snd (List.filter (fun kv => bool_decide (fst kv = k)) kvs).

(** the classes with more than one member, each under its label, in the
    order in which the dictionary holds them *)
Definition labelled {K : Type} (label : K -> list FileInfo -> string)
    (d : list (K * list FileInfo)) : groups :=
  map (fun kf => (label (fst kf) (snd kf), snd kf))
      (List.filter (fun kf => (1 <? List.length (snd kf))%nat) d).

(** the groups a method finds, before they are put into the result map *)
Definition labelled_classes (w : World) (method : DuplicateCheckMethod)
    (files : list FileInfo) : groups :=
  match method with
  | SIZE => labelled size_label (size_groups files)
  | MD5 => labelled md5_label (md5_groups w files)
  | MIXED =>
      flat_map (fun sf =>
                  if (1 <? List.length (snd sf))%nat
                  then labelled mixed_label (md5_groups w (snd sf))
                  else []) (size_groups files)
  | FILENAME => labelled song_label (name_groups files)
  end.

End GroupingRef.

(** ** Reference definitions for the file names *)

Module ParsingRef.
Import MusicFinderM.

(** the suffix patterns of [normalize_artist_name] that have neither a dot
    nor a dash in their literal text *)
Definition live_patterns : list Re.regex :=
  [ [Re.Lit "邓紫棋"; Re.End]; [Re.Lit "阿妹"; Re.End];
    [Re.Alt ["("; "（"]; Re.Plus Re.dot; Re.Alt [")"; "）"]; Re.End];
    [Re.Lit "翻自"; Re.Plus Re.dot; Re.End];
    [Re.Lit "cover"; Re.Plus Re.dot; Re.End] ].

(** [normalize_artist_name] with those patterns only *)
Definition normalize_artist_name_live (artist : string) : string :=
  let artist := Re.sub false [Re.Plus artist_separators] " " artist in
  let artist :=
    fold_left (fun a pattern => Re.sub true pattern "" a) live_patterns artist in
  Str.lower (Str.strip artist).

(** a character that is no separator of the artist, or is the blank *)
Definition clean (c : ascii) : bool :=
  negb (artist_separators c) || Ascii.eqb c " "%char.

Definition no_dot_or_dash (c : ascii) : bool :=
  negb (Ascii.eqb c "."%char) && negb (Ascii.eqb c "-"%char).

End ParsingRef.

(** ** Reference definitions for the index *)

Module IndexRef.
Import FileIndexM.

(** every record that names a file of the world carries the size the
    file has *)
Definition sizes_are_live (w : World) (files : list index_entry) : Prop :=
  forall e p stats,
    e ∈ files -> e_path e = Some p -> w_stat w p = Some stats ->
    e_size e = Some (st_size stats).

End IndexRef.

(** ** Reference definitions for the scan *)

Module ScanRef.
Import FileInfoM FileIndexM MusicFinderM.

(** the paths of the files below a directory, in the order in which
    [os.walk] yields them *)
Fixpoint tree_files (root : string) (t : dir_tree) : list string :=
  match t with
  | Unlistable => []
  | Listing files dirs =>
      (map (PosixPath.join root) files ++ forest_files root dirs)%list
  end
with forest_files (root : string) (dirs : dir_forest) : list string :=
  match dirs with
  | NoDir => []
  | SubDir name t rest =>
      (tree_files (PosixPath.join root name) t ++ forest_files root rest)%list
  end.

(** the tree without what lies more than [n] directories below it *)
Fixpoint prune (n : nat) (t : dir_tree) : dir_tree :=
  match t with
  | Unlistable => Unlistable
  | Listing files dirs =>
      Listing files match n with
                    | O => NoDir
                    | S n' => prune_forest n' dirs
                    end
  end
with prune_forest (n : nat) (dirs : dir_forest) : dir_forest :=
  match dirs with
  | NoDir => NoDir
  | SubDir name t rest => SubDir name (prune n t) (prune_forest n rest)
  end.

(** a music file of at least the minimum size *)
Definition wanted (w : World) (min_size_bytes : Z) (p : string) : bool :=
  recognized p &&
  match w_stat w p with
  | Some stats => min_size_bytes <=? st_size stats
  | None => false
  end.

(** the record the index gets for a scanned file *)
Definition record_of (w : World) (fi : FileInfo) : index_entry :=
  {| e_path := Some (path fi); e_size := Some (size_bytes fi);
     e_mtime := st_mtime <$> w_stat w (path fi) |}.

(** a record whose path has a directory part and whose directory was not
    modified after the file *)
Definition stays (w : World) (fi : FileInfo) : bool :=
  negb (String.eqb (PosixPath.dirname (path fi)) "") &&
  negb (default 0 (st_mtime <$> w_stat w (path fi))
        <? get_dir_mtime w (PosixPath.dirname (path fi))).

End ScanRef.

(** ** Reference definitions for paths *)

Module PathRef.

(** a text in which the character does not occur *)
Definition free_of (ch : ascii) (s : string) : bool :=
  Str.all_chars (fun c => negb (Ascii.eqb c ch)) s.

(** a file name [stem.ext] below a directory *)
Definition file_at (dir stem ext : string) : string :=
  (dir ++ "/" ++ stem ++ "." ++ ext)%string.

End PathRef.

Module SizeRef.
Import FileInfoM.

(** the check that the two digits after the dot tell the hundredths
    0 to 99 apart *)
Definition tails_differ : bool :=
  forallb (fun i =>
    forallb (fun j =>
      implb (String.eqb (two_digits (Z.of_nat i) ++ " MB")
                        (two_digits (Z.of_nat j) ++ " MB"))
            (Nat.eqb i j))
      (seq 0 100))
    (seq 0 100).

End SizeRef.

(** ** core/file_info.py: the caches *)

Module FileInfoCache.
Import FileInfoM.

(** [self._md5 = d] *)
Definition with_md5 (f : FileInfo) (d : option string) : FileInfo :=
  {| path := path f; size := size f; mtime := mtime f; exists_ := exists_ f;
     _md5 := d; _size_bytes := _size_bytes f |}.

(** The property [FileInfo.md5] with the assignment it makes: the value
    returned and the object afterwards. *)
Definition md5_access (w : World) (f : FileInfo) : option string * FileInfo :=
  match _md5 f with
  | None =>
      if exists_ f then
        let d := _calculate_md5 w f in (d, with_md5 f d)
      else (None, f)
  | Some d => (Some d, f)
  end.

(** [FileInfo.calculate_md5]: one attempt to read the file, behind the
    class-level table [_md5_cache] from paths to digests.  The result is
    the value returned and the table afterwards. *)
Definition calculate_md5 (w : World) (cache : gmap string string) (f : FileInfo)
  : string * gmap string string :=
  match cache !! path f with
  | Some d => (d, cache)
  | None =>
      match w_read w (path f) 0%nat with
      | ReadDigest d => (d, <[path f := d]> cache)
      | _ => ("", cache)
      end
  end.

End FileInfoCache.

(** ** core/file_index.py: the two verifiers *)

Module IndexVerify.
Import FileIndexM.

(** [_quick_verify_index].  The body of its loop makes the test of the
    validation loop of [load_index], and counts.  The comparison
    [valid_count >= sample_size * 0.6] is made in floating point; for the
    sample sizes 0 to 5 it holds exactly when
    [5 * valid_count >= 3 * sample_size]. *)
Definition _quick_verify_index (w : World) (files : list index_entry) : bool :=
  let sample_size := Nat.min 5 (List.length files) in
  let valid_count :=
    List.length (List.filter (is_valid w) (take sample_size files)) in
  (3 * sample_size <=? 5 * valid_count)%nat.

(** what [_verify_index] does: it returns, or the [KeyError] of a record
    without ['path'] leaves it *)
Inductive verified : Type :=
| KeyError
| Verdict (b : bool).

(** [_verify_index], on the records that [random.sample] picked *)
Fixpoint _verify_index (w : World) (sample_files : list index_entry) : verified :=
  match sample_files with
  | [] => Verdict true
  | file :: rest =>
      match e_path file with
      | None => KeyError
      | Some p =>
          match w_stat w p with
          | None => Verdict false
          | Some stats =>
              if negb (bool_decide (Some (st_mtime stats) = e_mtime file))
              then Verdict false
              else if negb (bool_decide (Some (st_size stats) = e_size file))
              then Verdict false
              else _verify_index w rest
          end
      end
  end.

End IndexVerify.

(** ** config/settings.py *)

Module SettingsM.

#[local] Unset Elimination Schemes.

(** A value that [json.dump] writes and [json.load] gives back as it
    was. *)
Inductive json : Type :=
| JNull
| JBool (b : bool)
| JNum (n : Z)
| JStr (s : string)
| JList (l : list json)
| JDict (d : list (string * json)).

#[local] Set Elimination Schemes.

(** A value of the settings: a JSON value, or a [QByteArray] (the window
    geometry), given by its bytes. *)
Inductive value : Type :=
| Json (j : json)
| QByteArray (bytes : string).

(** What the settings file holds: text that [json.load] rejects with a
    [JSONDecodeError]; bytes on which reading or parsing raises another
    exception (bytes that are not UTF-8: [UnicodeDecodeError]; values
    nested too deeply: [RecursionError]); a JSON text that is no object;
    or an object. *)
Inductive content : Type :=
| NotJson
| Unreadable
| NotADict
| Object (d : gmap string json).

Abbreviation files := (gmap string content).

Definition config_dir (w : World) : string :=
  PosixPath.join (w_home w) ".music_finder".

Definition config_file (w : World) : string :=
  PosixPath.join (config_dir w) "settings.json".

(** [self.config_file.with_suffix('.json.bak')] *)
Definition backup_file (w : World) : string :=
  PosixPath.join (config_dir w) "settings.json.bak".

Definition defaults : gmap string value :=
  {[ "last_directory" := Json (JStr "");
     "check_method" := Json (JStr "按文件名");
     "min_size" := Json (JNum 0);
     "max_depth" := Json (JNum 0);
     "window_geometry" := Json JNull;
     "case_sensitive" := Json (JBool false);
     "title_only" := Json (JBool true) ]}.

Section Codec.
(** [str(value.toBase64(), 'utf-8')] and
    [QByteArray.fromBase64(value.encode('utf-8'))] *)
Variable to_base64 : string -> string.
Variable from_base64 : string -> string.

(** the body of the loop of [load] over the loaded items *)
Definition revive (key : string) (v : json) : value :=
  match v with
  | JStr s =>
      if decide (key = "window_geometry") then QByteArray (from_base64 s)
      else Json v
  | _ => Json v
  end.

(** the body of the loop of [save] *)
Definition to_save (v : value) : json :=
  match v with
  | QByteArray bytes => JStr (to_base64 bytes)
  | Json j => j
  end.

(** [Settings.load]: the settings and the directory afterwards.
    [overwrite] says whether [rename] replaces an existing target (as
    on POSIX) or raises (as on Windows).  The loop assigns every loaded
    item to a copy of the defaults.  Only the handler of
    [JSONDecodeError] renames the file; every other exception goes to
    the outer handler, which returns the defaults. *)
Definition load (w : World) (overwrite : bool) (fs : files)
  : gmap string value * files :=
  match fs !! config_file w with
  | None => (defaults, fs)
  | Some (Object loaded) =>
      (map_imap (fun key v => Some (revive key v)) loaded ∪ defaults, fs)
  | Some NotADict => (defaults, fs)        (* [.items()] raises; caught *)
  | Some Unreadable => (defaults, fs)      (* [json.load] raises; caught *)
  | Some NotJson =>
      let renamed := <[backup_file w := NotJson]> (delete (config_file w) fs) in
      match fs !! backup_file w with
      | Some _ => if overwrite then (defaults, renamed) else (defaults, fs)
      | None => (defaults, renamed)
      end
  end.

(** [Settings.save]; writing the file is taken to succeed. *)
Definition save (w : World) (settings : gmap string value) (fs : files) : files :=
  <[config_file w := Object (to_save <$> settings)]> fs.

(** [Settings.get] *)
Definition get (settings : gmap string value) (key : string) (dflt : value) : value :=
  default dflt (settings !! key).

(** [Settings.set] *)
Definition set (w : World) (settings : gmap string value) (key : string)
    (v : value) (fs : files) : gmap string value * files :=
  let settings := <[key := v]> settings in
  (settings, save w settings fs).
End Codec.

End SettingsM.

(** ** gui/widgets/file_tree.py: the filter *)

Module FileTreeFilter.

(** the three columns of a file row: path, size and time *)
Record row : Type := {
  column0 : string;
  column1 : string;
  column2 : string
}.

Section Lower.
(** [str.lower] *)
Variable lower : string -> string.

(** [show_file] for one row; [text] is lowered already *)
Definition show_file (text filter_by : string) (file_item : row) : bool :=
  if decide (filter_by = "全部") then
    existsb (fun column => Str.contains text (lower column))
            [column0 file_item; column1 file_item; column2 file_item]
  else if decide (filter_by = "路径") then Str.contains text (lower (column0 file_item))
  else if decide (filter_by = "大小") then Str.contains text (lower (column1 file_item))
  else if decide (filter_by = "时间") then Str.contains text (lower (column2 file_item))
  else false.

(** [filter_items]: for each group its hidden flag and the hidden flags
    of its rows *)
Definition filter_items (text filter_by : string) (tree : list (list row))
  : list (bool * list bool) :=
  let text := lower text in
  match text with
  | EmptyString => map (fun group_item => (false, map (fun _ => false) group_item)) tree
  | _ =>
      map (fun group_item =>
             let shown := map (show_file text filter_by) group_item in
             (negb (existsb id shown), map negb shown)) tree
  end.
End Lower.

End FileTreeFilter.

(** ** Reference definitions for the time stamp of a file name *)

Module StampRef.

(** the pattern [_\d{14}$] of [parse_music_filename] *)
Definition stamp_pattern : Re.regex :=
  [Re.Lit "_"; Re.Rep 14 Str.is_digit; Re.End].

(** fourteen digits *)
Definition is_stamp (s : string) : Prop :=
  String.length s = 14%nat /\ Str.all_chars Str.is_digit s = true.

(** a text of ASCII characters, on which the white space, the digits and
    the letters of the model are those of Python *)
Definition is_ascii (s : string) : bool :=
  Str.all_chars (fun c => (Str.code c <? 128)%nat) s.

(** a stem as a file name has it: ASCII, no separator, not only dots, no
    blank at either end and no time stamp of its own *)
Definition plain_stem (stem : string) : Prop :=
  is_ascii stem = true /\
  PathRef.free_of "/" stem = true /\
  Str.all_chars (Ascii.eqb ".") stem = false /\
  Str.lstrip stem = stem /\ Str.rstrip stem = stem /\
  Re.sub false stamp_pattern "" stem = stem.

End StampRef.

Module Scenarios2.
Import FileInfoM FileIndexM MusicFinderM Scenarios.

(** *** One title by two artists, a studio and a live version of each *)
Definition two_artists_world : World :=
  world_of (secs 400)
    [ ("/m/Song - Ann.mp3", file_stat 3000000 100);
      ("/m/Song - Ann (Live).mp3", file_stat 4000000 100);
      ("/m/Song - Bob.mp3", file_stat 5000000 100);
      ("/m/Song - Bob (Live).mp3", file_stat 6000000 100) ]
    [] [].

Definition two_artists_files : list FileInfo :=
  map (from_path two_artists_world)
      ["/m/Song - Ann.mp3"; "/m/Song - Ann (Live).mp3";
       "/m/Song - Bob.mp3"; "/m/Song - Bob (Live).mp3"].

End Scenarios2.

Module Scenarios3.
Import FileInfoM FileIndexM MusicFinderM Scenarios.

(** *** A new file below a root that did not change

    [/m] was last changed at second 50 and holds [a.mp3], written at
    second 100 and indexed at second 300.  At second 350 [new.mp3] was
    put into [/m/sub]: that changed [/m/sub], not [/m]. *)
Definition quiet_root_world : World :=
  world_of (secs 400)
    [ ("/m", file_stat 4096 50); ("/m/a.mp3", file_stat 5000000 100);
      ("/m/sub", file_stat 4096 350); ("/m/sub/new.mp3", file_stat 7000000 350) ]
    []
    [ ("/m", Listing ["a.mp3"]
               (SubDir "sub" (Listing ["new.mp3"] NoDir) NoDir)) ].

Definition quiet_root_index (w : World) : store :=
  index_of w "/m" (Document "/m" (Some (secs 300)) (Some [entry "/m/a.mp3" 5000000 100])).

(** *** Music at three depths, and two files that are no music *)
Definition deep_world : World :=
  world_of (secs 400)
    [ ("/m", file_stat 4096 50); ("/m/top.mp3", file_stat 5000000 100);
      ("/m/cover.jpg", file_stat 90000 100); ("/m/tiny.mp3", file_stat 10 100);
      ("/m/a", file_stat 4096 50); ("/m/a/one.flac", file_stat 30000000 100);
      ("/m/a/b", file_stat 4096 50); ("/m/a/b/two.ogg", file_stat 4000000 100) ]
    []
    [ ("/m", Listing ["top.mp3"; "cover.jpg"; "tiny.mp3"; "lost.mp3"]
               (SubDir "a" (Listing ["one.flac"]
                              (SubDir "b" (Listing ["two.ogg"] NoDir) NoDir))
                  NoDir)) ].

End Scenarios3.

(** * Properties *)

(** ** Dictionaries *)

Section DictFacts.
Context {K V : Type} `{EqDecision K}.

Lemma dict_set_elem (k : K) (v : V) (d : list (K * V)) (k0 : K) (v0 : V) :
  (k0, v0) ∈ dict_set k v d -> (k0 = k /\ v0 = v) \/ (k0, v0) ∈ d.
Proof.
  induction d as [|[k' v'] d IH]; simpl; intros Hin.
  - apply list_elem_of_singleton in Hin. inversion Hin. now left.
  - destruct (decide (k = k')) as [->|Hne].
    + apply elem_of_cons in Hin as [Heq|Hin].
      * inversion Heq. now left.
      * right. now apply list_elem_of_further.
    + apply elem_of_cons in Hin as [Heq|Hin].
      * right. rewrite Heq. apply list_elem_of_here.
      * destruct (IH Hin) as [?|?]; [now left|].
        right. now apply list_elem_of_further.
Qed.

Lemma dict_set_get (k : K) (v : V) (d : list (K * V)) :
  dict_get k (dict_set k v d) = Some v.
Proof.
  induction d as [|[k' v'] d IH]; simpl.
  - now rewrite decide_True.
  - destruct (decide (k = k')) as [->|Hne]; simpl.
    + now rewrite decide_True.
    + now rewrite decide_False.
Qed.

Lemma dict_append_elem (k : K) (v : V) (d : list (K * list V))
    (k0 : K) (vs : list V) (x : V) :
  (k0, vs) ∈ dict_append k v d -> x ∈ vs ->
  (k0 = k /\ x = v) \/ exists vs0, (k0, vs0) ∈ d /\ x ∈ vs0.
Proof.
  induction d as [|[k' vs'] d IH]; simpl; intros Hin Hx.
  - apply list_elem_of_singleton in Hin. inversion Hin; subst.
    apply list_elem_of_singleton in Hx. now left.
  - destruct (decide (k = k')) as [->|Hne].
    + apply elem_of_cons in Hin as [Heq|Hin].
      * inversion Heq; subst.
        apply elem_of_app in Hx as [Hx|Hx].
        -- right. exists vs'. split; [apply list_elem_of_here|done].
        -- apply list_elem_of_singleton in Hx. now left.
      * right. exists vs. split; [now apply list_elem_of_further|done].
    + apply elem_of_cons in Hin as [Heq|Hin].
      * inversion Heq; subst. right. exists vs'.
        split; [apply list_elem_of_here|done].
      * destruct (IH Hin Hx) as [?|(vs0 & ? & ?)]; [now left|].
        right. exists vs0. split; [now apply list_elem_of_further|done].
Qed.

Lemma fold_dict_append_elem (kvs : list (K * V)) (d : list (K * list V))
    (k0 : K) (vs : list V) (x : V) :
  (k0, vs) ∈ fold_left (fun d kv => dict_append (fst kv) (snd kv) d) kvs d ->
  x ∈ vs ->
  (k0, x) ∈ kvs \/ exists vs0, (k0, vs0) ∈ d /\ x ∈ vs0.
Proof.
  revert d. induction kvs as [|[k v] kvs IH]; simpl; intros d Hin Hx.
  - right. now exists vs.
  - destruct (IH _ Hin Hx) as [?|(vs0 & Hin0 & Hx0)].
    + left. now apply list_elem_of_further.
    + destruct (dict_append_elem _ _ _ _ _ _ Hin0 Hx0) as [[-> ->]|?].
      * left. apply list_elem_of_here.
      * now right.
Qed.

(** Every member of a class of [group_pairs] was paired with its key. *)
Lemma group_pairs_elem (kvs : list (K * V)) (k : K) (vs : list V) (x : V) :
  (k, vs) ∈ group_pairs kvs -> x ∈ vs -> (k, x) ∈ kvs.
Proof.
  intros Hin Hx.
  destruct (fold_dict_append_elem _ _ _ _ _ Hin Hx) as [?|(vs0 & Hnil & _)]; [done|].
  now apply elem_of_nil in Hnil.
Qed.

(** Every member of a class of [group_by] is an input with that key. *)
Lemma group_by_elem (key : V -> K) (xs : list V) (k : K) (vs : list V) (x : V) :
  (k, vs) ∈ group_by key xs -> x ∈ vs -> x ∈ xs /\ key x = k.
Proof.
  intros Hin Hx. apply (group_pairs_elem _ _ _ _ Hin) in Hx.
  apply list_elem_of_In, in_map_iff in Hx as (y & Heq & Hy).
  inversion Heq; subst. split; [now apply list_elem_of_In|done].
Qed.
End DictFacts.

(** ** The grouping methods *)

Module GroupingFacts.
Import FileInfoM FileIndexM MusicFinderM.

(** A group of the result was either there before or is a class with more
    than one member, filed under its label. *)
Lemma add_duplicates_elem {K : Type} (label : K -> list FileInfo -> string)
    (d : list (K * list FileInfo)) (dup : groups) (l : string) (g : list FileInfo) :
  (l, g) ∈ add_duplicates label d dup ->
  (l, g) ∈ dup \/
  exists k, (k, g) ∈ d /\ (1 < List.length g)%nat /\ l = label k g.
Proof.
  unfold add_duplicates. revert dup.
  induction d as [|[k files] d IH]; simpl; intros dup Hin; [now left|].
  destruct (IH _ Hin) as [Hdup|(k0 & Hk0 & Hlen & Hl)].
  - destruct (1 <? List.length files)%nat eqn:Hlen.
    + destruct (dict_set_elem _ _ _ _ _ Hdup) as [[-> ->]|?]; [|now left].
      right. exists k. split; [apply list_elem_of_here|].
      split; [now apply Nat.ltb_lt|done].
    + now left.
  - right. exists k0. split; [now apply list_elem_of_further|done].
Qed.

(** The members of a class of [md5_groups] are input files whose digest is
    the key of the class, and the key is a real digest. *)
Lemma md5_groups_elem (w : World) (files : list FileInfo)
    (d : string) (g : list FileInfo) (f : FileInfo) :
  (d, g) ∈ md5_groups w files -> f ∈ g ->
  f ∈ files /\ md5 w f = Some d /\ d <> unknown_md5.
Proof.
  intros Hin Hf. apply (group_pairs_elem _ _ _ _ Hin) in Hf.
  apply list_elem_of_omap in Hf as (f' & Hf' & Heq).
  destruct (md5 w f') as [[|c d']|] eqn:Hmd5; simpl in Heq; try discriminate.
  inversion Heq; subst. split; [done|]. split; [done|]. discriminate.
Qed.

(** The retry loop never makes more attempts than allowed. *)
Lemma md5_loop_attempts (read : nat -> attempt) (max_retries fuel retries : nat) :
  (retries + snd (md5_loop read max_retries retries fuel) <= Nat.max retries max_retries)%nat.
Proof.
  revert retries. induction fuel as [|fuel IH]; intros retries; simpl; [lia|].
  destruct (retries <? max_retries)%nat eqn:Hlt; simpl; [|lia].
  apply Nat.ltb_lt in Hlt.
  destruct (read retries); simpl; try lia.
  destruct (max_retries <=? S retries)%nat eqn:Hle; simpl; [lia|].
  specialize (IH (S retries)).
  destruct (md5_loop read max_retries (S retries) fuel) as [r n]. simpl in *. lia.
Qed.

(** With fuel for every allowed attempt the loop ends by a [return]. *)
Lemma md5_loop_returns (read : nat -> attempt) (max_retries fuel retries : nat) :
  (retries < max_retries)%nat -> (max_retries <= retries + fuel)%nat ->
  exists d, fst (md5_loop read max_retries retries fuel) = Some d.
Proof.
  revert retries. induction fuel as [|fuel IH]; intros retries Hlt Hfuel; [lia|].
  simpl. apply Nat.ltb_lt in Hlt as Hlt'. rewrite Hlt'.
  destruct (read retries); simpl; eauto.
  destruct (max_retries <=? S retries)%nat eqn:Hle; simpl; eauto.
  apply Nat.leb_gt in Hle.
  destruct (IH (S retries)) as [d Hd]; [lia|lia|].
  destruct (md5_loop read max_retries (S retries) fuel) as [r n]. simpl in *. eauto.
Qed.

(** C5.  Hashing a file makes at most three attempts; when every attempt
    fails with an I/O error the third one gives up and the result is the
    sentinel, the empty digest; and no file whose hash is the sentinel (or
    is missing) is a member of a group of the MD5 method, so two files
    with unknown hashes never share a group. *)
Theorem hash_retries_bounded_and_unknown_excluded :
  (forall read, (snd (calculate_md5_with read default_max_retries) <= 3)%nat) /\
  (forall read, exists d, fst (calculate_md5_with read default_max_retries) = Some d) /\
  (forall read,
      read 0%nat = ReadIOError -> read 1%nat = ReadIOError -> read 2%nat = ReadIOError ->
      calculate_md5_with read default_max_retries = (Some unknown_md5, 3%nat)) /\
  (forall w files label g f,
      (label, g) ∈ group_files w MD5 files -> f ∈ g ->
      f ∈ files /\ exists d, md5 w f = Some d /\ d <> unknown_md5) /\
  (forall w files label g a b,
      (label, g) ∈ group_files w MD5 files -> a ∈ g -> b ∈ g ->
      md5 w a <> Some unknown_md5 /\ md5 w b <> Some unknown_md5 /\ md5 w a = md5 w b).
Proof.
  assert (Hgrp : forall w files label g f,
      (label, g) ∈ group_files w MD5 files -> f ∈ g ->
      exists d, (d, g) ∈ md5_groups w files /\ f ∈ files /\ md5 w f = Some d /\ d <> unknown_md5).
  { intros w files label g f Hin Hf. simpl in Hin.
    apply add_duplicates_elem in Hin as [Hnil|(d & Hd & _ & _)].
    - now apply elem_of_nil in Hnil.
    - exists d. split; [done|]. now apply (md5_groups_elem w files d g f). }
  repeat split.
  - intros read. pose proof (md5_loop_attempts read 3 3 0) as H.
    rewrite Nat.add_0_l in H. exact H.
  - intros read. apply md5_loop_returns; unfold default_max_retries; lia.
  - intros read H0 H1 H2. unfold calculate_md5_with, default_max_retries.
    simpl. rewrite H0. simpl. rewrite H1. simpl. rewrite H2. reflexivity.
  - destruct (Hgrp _ _ _ _ _ H H0) as (d & _ & ? & _). done.
  - destruct (Hgrp _ _ _ _ _ H H0) as (d & _ & _ & ? & ?). eauto.
  - destruct (Hgrp _ _ _ _ _ H H0) as (d & _ & _ & Hd & Hne). congruence.
  - destruct (Hgrp _ _ _ _ _ H H1) as (d & _ & _ & Hd & Hne). congruence.
  - destruct (Hgrp _ _ _ _ _ H H0) as (d & Hg & _ & Hd & _).
    destruct (Hgrp _ _ _ _ _ H H1) as (d' & Hg' & _ & Hd' & _).
    destruct (md5_groups_elem w files d g b Hg H1) as (_ & Hb & _). congruence.
Qed.
Lemma hash_retries_bounded_and_unknown_excluded_witness :
  calculate_md5_with (w_read Scenarios.unreadable_world "/m/x.mp3") default_max_retries
    = (Some unknown_md5, 3%nat) /\
  md5 Scenarios.unreadable_world (from_path Scenarios.unreadable_world "/m/x.mp3")
    = Some unknown_md5 /\
  md5 Scenarios.unreadable_world (from_path Scenarios.unreadable_world "/m/y.mp3")
    = Some unknown_md5 /\
  group_files Scenarios.unreadable_world MD5 Scenarios.unreadable_files
    = [("MD5: 22fc0bbc...",
        map (from_path Scenarios.unreadable_world) ["/m/a.mp3"; "/m/b.mp3"])] /\
  exists d,
    md5 Scenarios.unreadable_world (from_path Scenarios.unreadable_world "/m/a.mp3")
      = Some d /\ d <> unknown_md5.
Proof.
  destruct hash_retries_bounded_and_unknown_excluded as (_ & _ & Hsentinel & Hmember & _).
  split; [apply Hsentinel; reflexivity|].
  split; [vm_compute; reflexivity|]. split; [vm_compute; reflexivity|].
  split; [vm_compute; reflexivity|].
  destruct (Hmember Scenarios.unreadable_world Scenarios.unreadable_files
              "MD5: 22fc0bbc..."
              (map (from_path Scenarios.unreadable_world) ["/m/a.mp3"; "/m/b.mp3"])
              (from_path Scenarios.unreadable_world "/m/a.mp3")) as (_ & Hd).
  - vm_compute. apply list_elem_of_here.
  - apply list_elem_of_here.
  - exact Hd.
Defined.

End GroupingFacts.

(** ** The persisted index *)

Module IndexFacts.
Import FileInfoM FileIndexM MusicFinderM Stated.

#[local] Arguments Ascii.eqb : simpl never.

Lemma append_cons (c : ascii) (a b : string) :
  (String c a ++ b)%string = String c (a ++ b).
Proof. reflexivity. Qed.

Lemma append_length (a b : string) :
  String.length (a ++ b) = (String.length a + String.length b)%nat.
Proof.
  induction a as [|c a IH]; [done|].
  rewrite append_cons. simpl. now rewrite IH.
Qed.

Lemma append_assoc (a b c : string) : ((a ++ b) ++ c = a ++ (b ++ c))%string.
Proof.
  induction a as [|x a IH]; [done|].
  rewrite !append_cons. now rewrite IH.
Qed.

(** Text added after a non-empty last component is added to the joined
    path. *)
Lemma join_append (a b x : string) :
  b <> "" -> PosixPath.join a (b ++ x) = (PosixPath.join a b ++ x)%string.
Proof.
  intros Hb. destruct b as [|c b]; [done|].
  unfold PosixPath.join, Str.startswith. rewrite append_cons. simpl.
  destruct (Ascii.eqb PosixPath.sep c) eqn:Hc.
  - now rewrite append_cons.
  - destruct (Str.rsplit_char PosixPath.sep a) as [[h [|t ts]]|].
    + now rewrite append_assoc, append_cons.
    + destruct a; [now rewrite append_cons|].
      now rewrite append_assoc, !append_cons.
    + destruct a; [now rewrite append_cons|].
      now rewrite append_assoc, !append_cons.
Qed.

(** The temporary file is not the index file. *)
Lemma temp_path_differs (w : World) (root_dir : string) :
  temp_path_of w root_dir <> get_index_path w root_dir.
Proof.
  unfold temp_path_of, get_index_path. intros Heq.
  assert (Hne : (w_md5_hex w root_dir ++ ".json")%string <> "").
  { destruct (w_md5_hex w root_dir); discriminate. }
  replace (w_md5_hex w root_dir ++ ".json.tmp")%string
    with ((w_md5_hex w root_dir ++ ".json") ++ ".tmp")%string in Heq
    by (rewrite append_assoc; reflexivity).
  rewrite (join_append _ _ ".tmp" Hne) in Heq.
  apply (f_equal String.length) in Heq. rewrite append_length in Heq.
  simpl in Heq. lia.
Qed.

(** What a save that has something to write leaves in the directory. *)
Lemma save_index_writes (w : World) (st : store) (root_dir : string)
    (files : list index_entry) :
  omap (refresh_entry w) files <> [] ->
  save_index w st root_dir files
  = <[get_index_path w root_dir :=
        Document root_dir (Some (w_now w)) (Some (omap (refresh_entry w) files))]>
      (delete (temp_path_of w root_dir) st).
Proof.
  intros Hne. unfold save_index.
  destruct (omap (refresh_entry w) files) as [|e es] eqn:Hfiles; [done|].
  rewrite delete_insert_eq.
  rewrite lookup_insert_ne by (apply not_eq_sym, temp_path_differs).
  now rewrite lookup_delete_eq.
Qed.

(** A save with nothing to write leaves the directory alone. *)
Lemma save_index_nothing (w : World) (st : store) (root_dir : string)
    (files : list index_entry) :
  omap (refresh_entry w) files = [] -> save_index w st root_dir files = st.
Proof. intros Hnil. unfold save_index. now rewrite Hnil. Qed.

Lemma is_valid_spec (w : World) (e : index_entry) :
  is_valid w e = true <->
  exists p stats,
    e_path e = Some p /\ w_stat w p = Some stats /\
    Some (st_size stats) = e_size e /\
    Z.abs (st_mtime stats - default 0 (e_mtime e)) < second.
Proof.
  unfold is_valid, check_entry. split.
  - destruct (e_path e) as [p|]; [|discriminate].
    destruct (w_stat w p) as [stats|] eqn:Hst; [|discriminate].
    destruct (bool_decide _ && _) eqn:Hok; [|discriminate]. intros _.
    apply andb_true_iff in Hok as [Hsz Hmt].
    apply bool_decide_eq_true in Hsz. apply Z.ltb_lt in Hmt.
    exists p, stats. repeat split; try done; lia.
  - intros (p & stats & -> & -> & Hsz & Hmt).
    rewrite bool_decide_eq_true_2 by done.
    replace (_ <? _) with true; [done|]. symmetry. apply Z.ltb_lt. lia.
Qed.

Lemma valid_of_elem (w : World) (files : list index_entry) (e : index_entry) :
  e ∈ valid_of w files <-> e ∈ files /\ is_valid w e = true.
Proof. unfold valid_of. rewrite !list_elem_of_In. apply filter_In. Qed.

(** A valid entry is written back with its path and size and the live
    time of its file. *)
Lemma refresh_valid (w : World) (e : index_entry) :
  is_valid w e = true ->
  exists e', refresh_entry w e = Some e' /\ entry_id e' = entry_id e.
Proof.
  intros (p & stats & Hp & Hst & Hsz & _)%is_valid_spec.
  unfold refresh_entry, entry_id. rewrite Hp, Hst, <- Hsz. eauto.
Qed.

Lemma refresh_valid_of (w : World) (files : list index_entry) :
  map entry_id (omap (refresh_entry w) (valid_of w files))
  = map entry_id (valid_of w files).
Proof.
  unfold valid_of. induction files as [|e files IH]; simpl; [done|].
  destruct (is_valid w e) eqn:Hv; [|done].
  destruct (refresh_valid w e Hv) as (e' & He' & Hid).
  simpl. rewrite He'. simpl. f_equal; [exact Hid|exact IH].
Qed.

(** What [load_index] returns and leaves behind for a document that has
    its time stamp and its files and has not expired. *)
Lemma load_index_document (w : World) (st : store) (root_dir rd : string)
    (ts : Z) (files : list index_entry) :
  st !! get_index_path w root_dir = Some (Document rd (Some ts) (Some files)) ->
  w_now w - ts <= 24 * (3600 * second) ->
  load_index w st root_dir
  = (match valid_of w files with
     | [] => None
     | valid => Some (valid, ts)
     end,
     match invalid_of w files with
     | [] => st
     | _ => save_index w st root_dir (valid_of w files)
     end).
Proof.
  intros Hst Hage. unfold load_index. rewrite Hst.
  replace (_ <? _) with false by (symmetry; apply Z.ltb_ge; lia).
  now destruct (valid_of w files).
Qed.

(** C3 (amended).  When the index file of a root is malformed,
    [load_index] reports a cache miss and leaves the index directory as it
    was: the corrupt file stays at its path, neither renamed nor deleted.
    The scan then starts from a cold cache: no index, no cached record,
    no known file, and a walk in which no directory is pruned for being
    unchanged. *)
Theorem corrupt_index_is_a_miss_left_in_place (w : World) (st : store)
    (root_dir : string) (max_depth min_size_mb : Z) :
  st !! get_index_path w root_dir = Some Malformed ->
  load_index w st root_dir = (None, st) /\
  st !! get_index_path w root_dir = Some Malformed /\
  (let s := collect_files w st root_dir max_depth min_size_mb in
   index_result s = None /\ cached_files s = [] /\ known_files s = ∅ /\
   scan_store s = st /\
   new_files s = walk w root_dir None ∅ max_depth (min_size_mb * 1024 * 1024)
                      0 root_dir (w_walk w root_dir)) /\
  (forall dir_path, should_scan_dir w root_dir None dir_path = true).
Proof.
  intros Hst.
  assert (Hload : load_index w st root_dir = (None, st)).
  { unfold load_index. now rewrite Hst. }
  split; [done|]. split; [done|]. split; [|done].
  unfold collect_files. rewrite Hload. simpl. done.
Qed.

Lemma corrupt_index_is_a_miss_left_in_place_witness :
  let w := Scenarios.old_song_world 200 in
  Scenarios.corrupt_index w !! get_index_path w "/m" = Some Malformed /\
  load_index w (Scenarios.corrupt_index w) "/m" = (None, Scenarios.corrupt_index w).
Proof.
  split; [vm_compute; reflexivity|].
  apply (corrupt_index_is_a_miss_left_in_place
           (Scenarios.old_song_world 200) _ "/m" 0 0).
  vm_compute; reflexivity.
Defined.

(** C3 as stated fails: after the load of a malformed index the file is
    still at the index path, and the directory holds nothing else. *)
Lemma corrupt_index_is_not_renamed :
  load_index (Scenarios.old_song_world 200)
             (Scenarios.corrupt_index (Scenarios.old_song_world 200)) "/m"
    = (None, {[ "/home/u/.music_finder/index/36e11f4aa67c6edbb1fcca180c1a8f89.json"
                := Malformed ]}) /\
  ~ renames_corrupt_index_aside
      (Scenarios.old_song_world 200)
      (Scenarios.corrupt_index (Scenarios.old_song_world 200)) "/m".
Proof.
  split; [vm_compute; reflexivity|].
  intros H. destruct H as (_ & Hgone & _); [vm_compute; reflexivity|].
  vm_compute in Hgone. discriminate.
Qed.

(** When every record has a path, a record is dropped exactly when one
    is found invalid. *)
Lemma dropped_iff_invalid (w : World) (files : list index_entry) :
  records_have_paths files ->
  (valid_of w files = files <-> invalid_of w files = []).
Proof.
  unfold valid_of, invalid_of, is_valid.
  induction files as [|e files IH]; intros Hpaths; [done|].
  assert (Hrest : records_have_paths files).
  { intros e' He'. apply Hpaths. now apply list_elem_of_further. }
  destruct (Hpaths e (list_elem_of_here _ _)) as [p Hp].
  specialize (IH Hrest). simpl.
  destruct (check_entry w e) as [|q|] eqn:Hcheck.
  - split.
    + intros Heq. inversion Heq as [Heq']. rewrite Heq'. now apply IH.
    + intros Hnil. f_equal. now apply IH.
  - split; [|discriminate]. intros Heq.
    assert (Hlen : (List.length (List.filter
                     (fun file => match check_entry w file with
                                  | Valid => true
                                  | _ => false
                                  end) files) <= List.length files)%nat)
      by apply filter_length_le.
    rewrite Heq in Hlen. simpl in Hlen. lia.
  - unfold check_entry in Hcheck. rewrite Hp in Hcheck.
    destruct (w_stat w p); [destruct (_ && _)|]; discriminate.
Qed.

(** The paths noted as invalid are the paths of the records that have
    one and fail the test. *)
Lemma invalid_of_elem (w : World) (files : list index_entry) (p : string) :
  p ∈ invalid_of w files <->
  exists e, e ∈ files /\ e_path e = Some p /\ is_valid w e = false.
Proof.
  unfold invalid_of. rewrite list_elem_of_omap. split.
  - intros (e & He & Hcheck). exists e. split; [done|].
    unfold is_valid. unfold check_entry in *.
    destruct (e_path e) as [q|]; [|discriminate].
    destruct (w_stat w q); [destruct (_ && _)|]; try discriminate;
      inversion Hcheck; subst; done.
  - intros (e & He & Hp & Hv). exists e. split; [done|].
    unfold is_valid in Hv. unfold check_entry in *. rewrite Hp in *.
    destruct (w_stat w p); [destruct (_ && _)|]; try discriminate; done.
Qed.




End IndexFacts.

(** ** The scan *)

Module ScanFacts.
Import FileInfoM FileIndexM MusicFinderM Stated.

Lemma from_path_path (w : World) (p : string) : path (from_path w p) = p.
Proof. unfold from_path. now destruct (w_stat w p). Qed.

Lemma from_path_exists (w : World) (p : string) :
  exists_ (from_path w p) = true <-> exists stats, w_stat w p = Some stats.
Proof.
  unfold from_path. destruct (w_stat w p) as [stats|]; simpl.
  - split; eauto.
  - split; [discriminate|]. now intros [? ?].
Qed.

Lemma from_path_size (w : World) (p : string) (stats : stat_result) :
  w_stat w p = Some stats -> size_bytes (from_path w p) = st_size stats.
Proof. intros H. unfold from_path. now rewrite H. Qed.

(** One turn of the loop over the loaded entries either adds the record
    of the entry and notes its path, or changes nothing. *)
Lemma rehydrate_step_cases (w : World) (files : list FileInfo)
    (known : gset string) (e : index_entry) :
  (exists p, rehydrates w e p /\ exists_ (from_path w p) = true /\
             rehydrate_step w (files, known) e
             = ((files ++ [from_path w p])%list, {[p]} ∪ known)) \/
  ((forall p, rehydrates w e p -> exists_ (from_path w p) = false) /\
   rehydrate_step w (files, known) e = (files, known)).
Proof.
  unfold rehydrate_step, rehydrates.
  destruct (e_path e) as [p|] eqn:Hp.
  2: { right. split; [|done]. intros p (Hp' & _). discriminate. }
  destruct (String.eqb (PosixPath.dirname p) "") eqn:Hdir.
  { right. split; [|done]. intros p' (Hp' & Hd & _). inversion Hp'; subst.
    apply String.eqb_eq in Hdir. done. }
  destruct (_ <? _) eqn:Hlt.
  { right. split; [|done]. intros p' (Hp' & _ & Hm). inversion Hp'; subst.
    apply Z.ltb_lt in Hlt. lia. }
  destruct (exists_ (from_path w p)) eqn:Hex.
  - left. exists p. apply String.eqb_neq in Hdir. apply Z.ltb_ge in Hlt. done.
  - right. split; [|done]. intros p' (Hp' & _). inversion Hp'; subst. done.
Qed.

Lemma rehydrate_fold (w : World) (l : list index_entry)
    (files : list FileInfo) (known : gset string) :
  let r := fold_left (rehydrate_step w) l (files, known) in
  (forall fi, fi ∈ r.1 <->
              fi ∈ files \/
              exists e p, e ∈ l /\ rehydrates w e p /\
                          exists_ (from_path w p) = true /\ fi = from_path w p) /\
  (forall q, q ∈ r.2 <->
             q ∈ known \/
             exists e, e ∈ l /\ rehydrates w e q /\ exists_ (from_path w q) = true).
Proof.
  revert files known. induction l as [|e l IH]; intros files known; cbn [fold_left].
  - simpl. split; [intros fi|intros q]; split; try tauto.
    + intros [?|(e & p & He & _)]; [done|]. now apply elem_of_nil in He.
    + intros [?|(e & He & _)]; [done|]. now apply elem_of_nil in He.
  - destruct (rehydrate_step_cases w files known e)
      as [(p & Hre & Hex & ->)|(Hno & ->)];
      [destruct (IH (files ++ [from_path w p])%list ({[p]} ∪ known)) as [IHf IHk]
      |destruct (IH files known) as [IHf IHk]]; clear IH; cbv zeta.
    + split; [intros fi; rewrite IHf|intros q; rewrite IHk].
      * rewrite elem_of_app, list_elem_of_singleton. split.
        -- intros [ [? | ->] | (e' & p' & He' & ?) ]; [now left| |].
           ++ right. exists e, p. split; [apply list_elem_of_here|done].
           ++ right. exists e', p'. split; [now apply list_elem_of_further|done].
        -- intros [?|(e' & p' & He' & Hre' & Hex' & ->)]; [now left; left|].
           apply elem_of_cons in He' as [->|He'].
           ++ left. right. destruct Hre as (Hp & _), Hre' as (Hp' & _). congruence.
           ++ right. now exists e', p'.
      * rewrite elem_of_union, elem_of_singleton. split.
        -- intros [ [-> | ?] | (e' & He' & ?) ]; [|now left|].
           ++ right. exists e. split; [apply list_elem_of_here|done].
           ++ right. exists e'. split; [now apply list_elem_of_further|done].
        -- intros [?|(e' & He' & Hre' & Hex')]; [now left; right|].
           apply elem_of_cons in He' as [->|He'].
           ++ left. left. destruct Hre as (Hp & _), Hre' as (Hp' & _). congruence.
           ++ right. now exists e'.
    + split; [intros fi; rewrite IHf|intros q; rewrite IHk].
      * split.
        -- intros [?|(e' & p' & He' & ?)]; [now left|].
           right. exists e', p'. split; [now apply list_elem_of_further|done].
        -- intros [?|(e' & p' & He' & Hre' & Hex' & ->)]; [now left|].
           apply elem_of_cons in He' as [->|He'].
           ++ rewrite (Hno _ Hre') in Hex'. discriminate.
           ++ right. now exists e', p'.
      * split.
        -- intros [?|(e' & He' & ?)]; [now left|].
           right. exists e'. split; [now apply list_elem_of_further|done].
        -- intros [?|(e' & He' & Hre' & Hex')]; [now left|].
           apply elem_of_cons in He' as [->|He'].
           ++ rewrite (Hno _ Hre') in Hex'. discriminate.
           ++ right. now exists e'.
Qed.

(** The records and the paths that the loop over the loaded entries
    leaves. *)
Lemma rehydrate_spec (w : World) (l : list index_entry) :
  (forall fi, fi ∈ (rehydrate w l).1 <->
              exists e p, e ∈ l /\ rehydrates w e p /\
                          exists_ (from_path w p) = true /\ fi = from_path w p) /\
  (forall q, q ∈ (rehydrate w l).2 <->
             exists e, e ∈ l /\ rehydrates w e q /\ exists_ (from_path w q) = true).
Proof.
  destruct (rehydrate_fold w l [] ∅) as [Hf Hk]. unfold rehydrate.
  split; [intros fi; rewrite Hf|intros q; rewrite Hk].
  - split; [intros [H|H]; [now apply elem_of_nil in H|done]|now right].
  - split; [intros [H|H]; [now apply not_elem_of_empty in H|done]|now right].
Qed.

Section WalkFacts.
Variable w : World.
Variable root_dir : string.
Variable index_time : option Z.
Variable known : gset string.
Variable max_depth : Z.
Variable min_size_bytes : Z.

Lemma scan_file_found (root file : string) (fi : FileInfo) :
  scan_file w known min_size_bytes root file = Some fi ->
  newly_found w known min_size_bytes fi.
Proof.
  unfold scan_file, newly_found.
  destruct (bool_decide _) eqn:Hknown; [discriminate|].
  apply bool_decide_eq_false in Hknown.
  destruct (recognized _) eqn:Hrec; [|discriminate]. simpl.
  destruct (w_stat w _) as [stats|] eqn:Hst; [|discriminate].
  destruct (_ <? _) eqn:Hsz; [discriminate|]. apply Z.ltb_ge in Hsz.
  destruct (exists_ _) eqn:Hex; [|discriminate].
  intros Heq. inversion Heq; subst. rewrite from_path_path.
  rewrite (from_path_size _ _ _ Hst). done.
Qed.

(** Every file the walk adds passed the tests of the loop body. *)
Lemma walk_found (t : dir_tree) :
  forall depth root fi,
    fi ∈ walk w root_dir index_time known max_depth min_size_bytes depth root t ->
    newly_found w known min_size_bytes fi.
Proof.
  induction t using dir_tree_mut with
    (P0 := fun dirs => forall depth root fi,
               fi ∈ walk_dirs w root_dir index_time known max_depth
                      min_size_bytes depth root dirs ->
               newly_found w known min_size_bytes fi);
    intros depth root fi Hin; simpl in Hin.
  - now apply elem_of_nil in Hin.
  - destruct (negb _); [now apply elem_of_nil in Hin|].
    destruct (_ && _); [now apply elem_of_nil in Hin|].
    apply elem_of_app in Hin as [Hin|Hin]; [|eauto].
    apply list_elem_of_omap in Hin as (file & _ & Hfile).
    eapply scan_file_found, Hfile.
  - now apply elem_of_nil in Hin.
  - apply elem_of_app in Hin as [Hin|Hin]; eauto.
Qed.
End WalkFacts.

(** When [load_index] returns entries they are the valid entries of an
    unexpired document. *)
Lemma load_index_some (w : World) (st : store) (root_dir : string)
    (valid : list index_entry) (ts : Z) :
  fst (load_index w st root_dir) = Some (valid, ts) ->
  exists rd files,
    st !! get_index_path w root_dir = Some (Document rd (Some ts) (Some files)) /\
    valid = valid_of w files.
Proof.
  unfold load_index.
  destruct (st !! _) as [[|rd [ts'|] files]|]; try discriminate.
  destruct (_ <? _); [discriminate|].
  destruct files as [files|]; [|discriminate].
  destruct (valid_of w files) eqn:Hv; [discriminate|].
  simpl. intros Heq. inversion Heq; subst. eauto.
Qed.

(** A miss leaves the index directory as it was. *)
Lemma load_index_none (w : World) (st : store) (root_dir : string) :
  fst (load_index w st root_dir) = None -> snd (load_index w st root_dir) = st.
Proof.
  unfold load_index.
  destruct (st !! _) as [[|rd [ts'|] files]|]; try done.
  destruct (_ <? _); [done|].
  destruct files as [files|]; [|done].
  destruct (valid_of w files) eqn:Hv; [|discriminate].
  simpl. intros _. destruct (invalid_of w files); [done|].
  now apply IndexFacts.save_index_nothing.
Qed.

(** An entry that [load_index] returns has a file that can be stat'ed. *)
Lemma loaded_entry_exists (w : World) (st : store) (root_dir : string)
    (valid : list index_entry) (ts : Z) (e : index_entry) (p : string) :
  fst (load_index w st root_dir) = Some (valid, ts) ->
  e ∈ valid -> e_path e = Some p ->
  exists stats, w_stat w p = Some stats /\ Some (st_size stats) = e_size e.
Proof.
  intros (rd & files & _ & ->)%load_index_some
         (_ & (p' & stats & Hp' & Hst & Hsz & _)%IndexFacts.is_valid_spec)%IndexFacts.valid_of_elem
         Hp.
  exists stats. split; congruence.
Qed.

(** The parts of a scan that loaded an index. *)
Lemma collect_files_loaded (w : World) (st : store) (root_dir : string)
    (max_depth min_size_mb : Z) (valid : list index_entry) (ts : Z) :
  fst (load_index w st root_dir) = Some (valid, ts) ->
  let s := collect_files w st root_dir max_depth min_size_mb in
  index_result s = Some (valid, ts) /\
  cached_files s = (rehydrate w valid).1 /\
  known_files s = (rehydrate w valid).2 /\
  new_files s = walk w root_dir (Some ts) (rehydrate w valid).2 max_depth
                     (min_size_mb * 1024 * 1024) 0 root_dir (w_walk w root_dir).
Proof.
  intros Hload. unfold collect_files.
  destruct (load_index w st root_dir) as [r st']. simpl in Hload. subst r.
  destruct (rehydrate w valid) as [cached known]. done.
Qed.

(** The parts of a scan that loaded no index. *)
Lemma collect_files_cold (w : World) (st : store) (root_dir : string)
    (max_depth min_size_mb : Z) :
  fst (load_index w st root_dir) = None ->
  let s := collect_files w st root_dir max_depth min_size_mb in
  index_result s = None /\ cached_files s = [] /\ known_files s = ∅ /\
  new_files s = walk w root_dir None ∅ max_depth
                     (min_size_mb * 1024 * 1024) 0 root_dir (w_walk w root_dir).
Proof.
  intros Hload. unfold collect_files.
  destruct (load_index w st root_dir) as [r st']. simpl in Hload. subst r. done.
Qed.

(** The parts of the result of a scan that loaded an index: which entries
    are rehydrated, which paths are known, what the walk may add. *)
Lemma loaded_scan_parts (w : World) (st : store) (root_dir : string)
    (max_depth min_size_mb : Z) (valid : list index_entry) (ts : Z) :
  fst (load_index w st root_dir) = Some (valid, ts) ->
  let s := collect_files w st root_dir max_depth min_size_mb in
  all_files s = (cached_files s ++ new_files s)%list /\
  (forall e p, e ∈ valid -> rehydrates w e p ->
               from_path w p ∈ all_files s /\ p ∈ known_files s) /\
  (forall fi, fi ∈ cached_files s ->
              exists e, e ∈ valid /\ rehydrates w e (path fi) /\
                        fi = from_path w (path fi) /\ exists_ fi = true) /\
  (forall p, p ∈ known_files s <-> exists fi, fi ∈ cached_files s /\ path fi = p) /\
  (forall fi, fi ∈ new_files s ->
              newly_found w (known_files s) (min_size_mb * 1024 * 1024) fi).
Proof.
  intros Hload.
  destruct (collect_files_loaded w st root_dir max_depth min_size_mb valid ts Hload)
    as (_ & Hcached & Hknown & Hnew).
  destruct (rehydrate_spec w valid) as [Hf Hk].
  cbv zeta. unfold all_files. rewrite Hcached, Hknown, Hnew.
  split; [done|]. split; [|split; [|split]].
  - intros e p He Hre.
    destruct Hre as (Hp & Hrest).
    destruct (loaded_entry_exists w st root_dir valid ts e p Hload He Hp)
      as (stats & Hst & _).
    assert (Hex : exists_ (from_path w p) = true)
      by (apply from_path_exists; eauto).
    split.
    + apply elem_of_app. left. apply Hf. exists e, p. done.
    + apply Hk. exists e. done.
  - intros fi (e & p & He & Hre & Hex & ->)%Hf.
    exists e. rewrite from_path_path. done.
  - intros p. rewrite Hk. split.
    + intros (e & He & Hre & Hex). exists (from_path w p).
      split; [|apply from_path_path]. apply Hf. now exists e, p.
    + intros (fi & (e & p' & He & Hre & Hex & ->)%Hf & <-).
      rewrite from_path_path. now exists e.
  - intros fi Hin. eapply walk_found, Hin.
Qed.




Lemma group_files_nil (w : World) (method : DuplicateCheckMethod) :
  group_files w method [] = [].
Proof. now destruct method. Qed.

Lemma find_duplicates_returns (w : World) (st : store) (directory : string)
    (method : DuplicateCheckMethod) (max_depth min_size_mb : Z) :
  w_index_dir_ok w = true ->
  let s := collect_files w st (normalize_path directory) max_depth min_size_mb in
  fst (find_duplicates w st directory method max_depth min_size_mb)
  = Returned (group_files w method (all_files s), List.length (all_files s)).
Proof. intros Hok. unfold find_duplicates, FileIndex_init. now rewrite Hok. Qed.

(** A call that meets the four provisos is not left by an exception: it
    does what the body of [find_duplicates] does. *)
Lemma find_duplicates_call_returns (w : World) (st : store) (directory : string)
    (method : DuplicateCheckMethod) (max_depth min_size_mb : Z) :
  w_index_dir_ok w = true ->
  Str.is_utf8 (normalize_path directory) = true ->
  has_nul (normalize_path directory) = false ->
  (forall valid ts,
      index_result (collect_files w st (normalize_path directory) max_depth min_size_mb)
        = Some (valid, ts) -> w_localtime_ok w ts = true) ->
  find_duplicates_call w st directory method max_depth min_size_mb
  = find_duplicates w st directory method max_depth min_size_mb.
Proof.
  intros Hok Hutf8 Hnul Htime. unfold find_duplicates_call, FileIndex_init.
  rewrite Hok, Hutf8, Hnul. cbn [negb].
  destruct (index_result (collect_files w st (normalize_path directory)
                            max_depth min_size_mb)) as [[valid ts]|] eqn:Hres.
  - now rewrite (Htime valid ts eq_refl).
  - reflexivity.
Qed.

(** A call that misses one of the provisos is left by an exception. *)
Lemma find_duplicates_call_raises (w : World) (st : store) (directory : string)
    (method : DuplicateCheckMethod) (max_depth min_size_mb : Z) :
  w_index_dir_ok w = false \/
  Str.is_utf8 (normalize_path directory) = false \/
  has_nul (normalize_path directory) = true \/
  (exists valid ts,
      index_result (collect_files w st (normalize_path directory) max_depth min_size_mb)
        = Some (valid, ts) /\ w_localtime_ok w ts = false) ->
  exists e, fst (find_duplicates_call w st directory method max_depth min_size_mb)
            = Raised e.
Proof.
  intros Hmiss. unfold find_duplicates_call, FileIndex_init.
  destruct (w_index_dir_ok w) eqn:Hok; [|eauto].
  destruct (Str.is_utf8 (normalize_path directory)) eqn:Hutf8; cbn [negb]; [|eauto].
  destruct (index_result (collect_files w st (normalize_path directory)
                            max_depth min_size_mb)) as [[valid ts]|] eqn:Hres.
  - destruct (w_localtime_ok w ts) eqn:Htime; cbn [negb]; [|eauto].
    destruct (has_nul (normalize_path directory)) eqn:Hnul; [eauto|].
    destruct Hmiss as [?|[?|[?|(valid' & ts' & Heq & Hbad)]]]; try discriminate.
    inversion Heq; subst. congruence.
  - cbn [negb].
    destruct (has_nul (normalize_path directory)) eqn:Hnul; [eauto|].
    destruct Hmiss as [?|[?|[?|(valid' & ts' & Heq & Hbad)]]]; discriminate.
Qed.

(** C7 (amended).  When the root cannot be listed, because the listing
    fails with an [OSError] that [os.walk] passes over, the scan completes
    normally under four provisos: the index directory can be made, the
    root path has an encoding, it holds no NUL character, and the time
    stamp of a loaded index can be shown as a local time.  Then nothing is
    raised, the walk adds no file, and the result is the grouping of the
    records rehydrated from the index, the empty map with the count 0
    when no index is loaded; the search thread emits [finished], not
    [error].  When a proviso is missed an exception leaves the scan, and
    the search thread emits [error]. *)
Theorem unlistable_root_completes_normally (w : World) (st : store)
    (directory : string) (method : DuplicateCheckMethod) (max_depth min_size_mb : Z) :
  w_walk w (normalize_path directory) = Unlistable ->
  let root := normalize_path directory in
  let provisos (md ms : Z) :=
    w_index_dir_ok w = true /\ Str.is_utf8 root = true /\ has_nul root = false /\
    (forall valid ts, index_result (collect_files w st root md ms) = Some (valid, ts) ->
                      w_localtime_ok w ts = true) in
  let s := collect_files w st root max_depth min_size_mb in
  new_files s = [] /\
  (provisos max_depth min_size_mb ->
   fst (find_duplicates_call w st directory method max_depth min_size_mb)
     = Returned (group_files w method (cached_files s), List.length (cached_files s)) /\
   (fst (load_index w st root) = None ->
    fst (find_duplicates_call w st directory method max_depth min_size_mb)
      = Returned ([], 0%nat))) /\
  (provisos 0 0 ->
   exists results total,
     fst (SearchWorker.run w st directory method) = SearchWorker.finished results total) /\
  (w_index_dir_ok w = false \/ Str.is_utf8 root = false \/ has_nul root = true \/
   (exists valid ts, index_result (collect_files w st root 0 0) = Some (valid, ts) /\
                     w_localtime_ok w ts = false) ->
   exists message,
     fst (SearchWorker.run w st directory method) = SearchWorker.error message).
Proof.
  intros Hwalk.
  assert (Hnew : forall md ms,
             new_files (collect_files w st (normalize_path directory) md ms) = []).
  { intros md ms. unfold collect_files.
    destruct (load_index w st (normalize_path directory)) as [r st'].
    destruct (match r with Some _ => _ | None => _ end) as [cached known].
    simpl. now rewrite Hwalk. }
  cbv zeta. split; [apply Hnew|].
  assert (Hall : forall md ms,
             all_files (collect_files w st (normalize_path directory) md ms)
             = cached_files (collect_files w st (normalize_path directory) md ms)).
  { intros md ms. unfold all_files. rewrite Hnew. apply app_nil_r. }
  split; [|split].
  - intros (Hok & Hutf8 & Hnul & Htime).
    rewrite (find_duplicates_call_returns _ _ _ _ _ _ Hok Hutf8 Hnul Htime).
    rewrite (find_duplicates_returns _ _ _ _ _ _ Hok). cbv zeta. rewrite Hall.
    split; [reflexivity|]. intros Hnone.
    destruct (collect_files_cold w st (normalize_path directory)
                max_depth min_size_mb Hnone) as (_ & -> & _).
    now rewrite group_files_nil.
  - intros (Hok & Hutf8 & Hnul & Htime). unfold SearchWorker.run.
    rewrite (find_duplicates_call_returns _ _ _ _ _ _ Hok Hutf8 Hnul Htime).
    pose proof (find_duplicates_returns w st directory method 0 0 Hok) as Hfd.
    cbv zeta in Hfd.
    destruct (find_duplicates w st directory method 0 0) as [[e|[results total]] st'];
      simpl in Hfd; [discriminate|]. simpl. eauto.
  - intros Hmiss. unfold SearchWorker.run.
    destruct (find_duplicates_call_raises w st directory method 0 0 Hmiss) as [e He].
    destruct (find_duplicates_call w st directory method 0 0) as [[e'|r] st'];
      simpl in He; [|discriminate]. simpl. eauto.
Qed.

Lemma unlistable_root_completes_normally_witness :
  w_walk Scenarios.no_root_world (normalize_path "/nowhere") = Unlistable /\
  fst (find_duplicates_call Scenarios.no_root_world ∅ "/nowhere" SIZE 0 0)
    = Returned ([], 0%nat) /\
  (exists results total,
     fst (SearchWorker.run Scenarios.no_root_world ∅ "/nowhere" SIZE)
       = SearchWorker.finished results total) /\
  exists message,
    fst (SearchWorker.run Scenarios.no_root_world ∅
           (String "/" (String "000" "nowhere")) SIZE)
      = SearchWorker.error message.
Proof.
  split; [reflexivity|].
  destruct (unlistable_root_completes_normally
              Scenarios.no_root_world ∅ "/nowhere" SIZE 0 0 eq_refl)
    as (_ & Hnormal & Hfinished & _).
  assert (Hprovisos :
    w_index_dir_ok Scenarios.no_root_world = true /\
    Str.is_utf8 (normalize_path "/nowhere") = true /\
    has_nul (normalize_path "/nowhere") = false /\
    (forall valid ts,
        index_result (collect_files Scenarios.no_root_world ∅
                        (normalize_path "/nowhere") 0 0) = Some (valid, ts) ->
        w_localtime_ok Scenarios.no_root_world ts = true)).
  { repeat split; try reflexivity. intros valid ts Hres. vm_compute in Hres.
    discriminate. }
  split; [apply (Hnormal Hprovisos); vm_compute; reflexivity|].
  split; [apply (Hfinished Hprovisos)|].
  destruct (unlistable_root_completes_normally
              Scenarios.no_root_world ∅ (String "/" (String "000" "nowhere")) SIZE 0 0
              eq_refl) as (_ & _ & _ & Herror).
  apply Herror. right. right. left. vm_compute. reflexivity.
Defined.

(** C7 as stated fails: for a root that cannot be listed the search thread
    emits [finished] with no group and the count 0. *)
Lemma unreadable_root_gives_empty_result :
  SearchWorker.run Scenarios.no_root_world ∅ "/nowhere" SIZE
    = (SearchWorker.finished [] 0, ∅) /\
  ~ unreadable_root_is_an_error Scenarios.no_root_world ∅ "/nowhere" SIZE.
Proof.
  split; [vm_compute; reflexivity|].
  intros H. destruct H as [message Hmsg]; [reflexivity|].
  vm_compute in Hmsg. discriminate.
Qed.




End ScanFacts.

(** ** Groups and their labels *)

Module LabelFacts.
Import FileInfoM FileIndexM MusicFinderM Stated.

(** A group of the MIXED method is a class of digests inside a class of
    sizes. *)
Lemma mixed_fold_elem (w : World) (d : list (Z * list FileInfo)) (dup : groups)
    (label : string) (g : list FileInfo) :
  (label, g) ∈ fold_left (fun dup sf =>
                            if (1 <? List.length (snd sf))%nat
                            then add_duplicates mixed_label (md5_groups w (snd sf)) dup
                            else dup) d dup ->
  (label, g) ∈ dup \/
  exists sz class digest,
    (sz, class) ∈ d /\ (digest, g) ∈ md5_groups w class /\
    (1 < List.length g)%nat /\ label = mixed_label digest g.
Proof.
  revert dup. induction d as [|[sz class] d IH]; simpl; intros dup Hin; [now left|].
  destruct (IH _ Hin) as [Hdup|(sz' & class' & digest & Hd & Hrest)].
  - destruct (1 <? List.length class)%nat; [|now left].
    apply GroupingFacts.add_duplicates_elem in Hdup as [?|(digest & Hg & Hlen & Hl)];
      [now left|].
    right. exists sz, class, digest. split; [apply list_elem_of_here|done].
  - right. exists sz', class', digest. split; [now apply list_elem_of_further|done].
Qed.

(** C6.  Every group of the MIXED method lies inside one class of the
    partition by byte size, the partition the SIZE method builds: its
    members all have the size of that class (and, within it, the same
    digest), so two files of a MIXED group always have equal byte size. *)
Theorem mixed_group_within_one_size_class (w : World) (files : list FileInfo)
    (label : string) (g : list FileInfo) :
  (label, g) ∈ group_files w MIXED files ->
  (exists sz class,
      (sz, class) ∈ size_groups files /\
      forall f, f ∈ g -> f ∈ class /\ f ∈ files /\ size_bytes f = sz) /\
  (forall a b, a ∈ g -> b ∈ g ->
               size_bytes a = size_bytes b /\ md5 w a = md5 w b).
Proof.
  intros Hin. simpl in Hin.
  apply mixed_fold_elem in Hin as [Hnil|(sz & class & digest & Hclass & Hg & _ & _)];
    [now apply elem_of_nil in Hnil|].
  assert (Hmem : forall f, f ∈ g ->
                   f ∈ class /\ f ∈ files /\ size_bytes f = sz /\ md5 w f = Some digest).
  { intros f Hf.
    destruct (GroupingFacts.md5_groups_elem w class digest g f Hg Hf) as (Hfc & Hd & _).
    destruct (group_by_elem size_bytes files sz class f Hclass Hfc) as (Hff & Hsz).
    done. }
  split.
  - exists sz, class. split; [done|]. intros f Hf.
    destruct (Hmem f Hf) as (? & ? & ? & _). done.
  - intros a b Ha Hb.
    destruct (Hmem a Ha) as (_ & _ & Hsa & Hda), (Hmem b Hb) as (_ & _ & Hsb & Hdb).
    split; congruence.
Qed.

Lemma mixed_group_within_one_size_class_witness :
  ("大小: 0.00 MB, MD5: 22fc0bbc...",
   map (from_path Scenarios.two_digests_world) ["/m/c.mp3"; "/m/d.mp3"])
    ∈ group_files Scenarios.two_digests_world MIXED Scenarios.two_digests_files /\
  size_bytes (from_path Scenarios.two_digests_world "/m/c.mp3")
    = size_bytes (from_path Scenarios.two_digests_world "/m/d.mp3").
Proof.
  assert (Hin :
    ("大小: 0.00 MB, MD5: 22fc0bbc...",
     map (from_path Scenarios.two_digests_world) ["/m/c.mp3"; "/m/d.mp3"])
      ∈ group_files Scenarios.two_digests_world MIXED Scenarios.two_digests_files).
  { vm_compute. apply list_elem_of_here. }
  split; [exact Hin|].
  destruct (mixed_group_within_one_size_class _ _ _ _ Hin) as (_ & Hpair).
  apply Hpair.
  - apply list_elem_of_here.
  - apply list_elem_of_further, list_elem_of_here.
Defined.

(** C9.  The labels of the returned map do not tell the groups apart.
    For the SIZE method there is a list of files with two classes of
    different byte sizes, each with two members, whose labels are the same
    text "x.yz MB"; the returned map then has one entry, which holds the
    later class, and the earlier class is lost.  The same happens to two
    classes of different digests that share their first eight characters,
    for the MD5 method and for the MIXED method. *)
Theorem group_labels_collide :
  (exists w files sz1 g1 sz2 g2,
      size_groups files = [(sz1, g1); (sz2, g2)] /\ sz1 <> sz2 /\
      (1 < List.length g1)%nat /\ (1 < List.length g2)%nat /\
      size_label sz1 g1 = size_label sz2 g2 /\
      group_files w SIZE files = [(size_label sz2 g2, g2)] /\
      forall f, f ∈ g1 -> f ∉ g2) /\
  (exists w files d1 g1 d2 g2,
      md5_groups w files = [(d1, g1); (d2, g2)] /\ d1 <> d2 /\
      (1 < List.length g1)%nat /\ (1 < List.length g2)%nat /\
      md5_label d1 g1 = md5_label d2 g2 /\
      group_files w MD5 files = [(md5_label d2 g2, g2)] /\
      forall f, f ∈ g1 -> f ∉ g2) /\
  (exists w files sz d1 g1 d2 g2,
      size_groups files = [(sz, files)] /\
      md5_groups w files = [(d1, g1); (d2, g2)] /\ d1 <> d2 /\
      (1 < List.length g1)%nat /\ (1 < List.length g2)%nat /\
      mixed_label d1 g1 = mixed_label d2 g2 /\
      group_files w MIXED files = [(mixed_label d2 g2, g2)] /\
      forall f, f ∈ g1 -> f ∉ g2).
Proof.
  assert (Hdisjoint : forall (w : World) (f : FileInfo),
             f ∈ map (from_path w) ["/m/a.mp3"; "/m/b.mp3"] ->
             f ∉ map (from_path w) ["/m/c.mp3"; "/m/d.mp3"]).
  { intros w f Hf Hf'. simpl in Hf, Hf'.
    assert (Hp : path f = "/m/a.mp3" \/ path f = "/m/b.mp3").
    { apply elem_of_cons in Hf as [->|Hf]; [left; apply ScanFacts.from_path_path|].
      apply list_elem_of_singleton in Hf as ->. right. apply ScanFacts.from_path_path. }
    assert (Hp' : path f = "/m/c.mp3" \/ path f = "/m/d.mp3").
    { apply elem_of_cons in Hf' as [->|Hf']; [left; apply ScanFacts.from_path_path|].
      apply list_elem_of_singleton in Hf' as ->. right. apply ScanFacts.from_path_path. }
    destruct Hp as [Hp|Hp], Hp' as [Hp'|Hp']; rewrite Hp in Hp'; discriminate. }
  split; [|split].
  - exists Scenarios.two_sizes_world, Scenarios.two_sizes_files,
      1048576, (map (from_path Scenarios.two_sizes_world) ["/m/a.mp3"; "/m/b.mp3"]),
      1048577, (map (from_path Scenarios.two_sizes_world) ["/m/c.mp3"; "/m/d.mp3"]).
    split; [vm_compute; reflexivity|]. split; [discriminate|].
    split; [simpl; lia|]. split; [simpl; lia|].
    split; [vm_compute; reflexivity|]. split; [vm_compute; reflexivity|].
    apply Hdisjoint.
  - exists Scenarios.two_digests_world, Scenarios.two_digests_files,
      Scenarios.digest_1, (map (from_path Scenarios.two_digests_world) ["/m/a.mp3"; "/m/b.mp3"]),
      Scenarios.digest_2, (map (from_path Scenarios.two_digests_world) ["/m/c.mp3"; "/m/d.mp3"]).
    split; [vm_compute; reflexivity|]. split; [discriminate|].
    split; [simpl; lia|]. split; [simpl; lia|].
    split; [vm_compute; reflexivity|]. split; [vm_compute; reflexivity|].
    apply Hdisjoint.
  - exists Scenarios.two_digests_world, Scenarios.two_digests_files, 8,
      Scenarios.digest_1, (map (from_path Scenarios.two_digests_world) ["/m/a.mp3"; "/m/b.mp3"]),
      Scenarios.digest_2, (map (from_path Scenarios.two_digests_world) ["/m/c.mp3"; "/m/d.mp3"]).
    split; [vm_compute; reflexivity|].
    split; [vm_compute; reflexivity|]. split; [discriminate|].
    split; [simpl; lia|]. split; [simpl; lia|].
    split; [vm_compute; reflexivity|]. split; [vm_compute; reflexivity|].
    apply Hdisjoint.
Qed.

Lemma name_key_of_basename (f : FileInfo) (name key : string) :
  PosixPath.basename (path f) = name ->
  (let (title, artist) := parse_music_filename name in
   match artist with
   | EmptyString => title
   | _ => (title ++ "|" ++ artist)%string
   end) = key ->
  name_key f = key.
Proof. intros Hname Hkey. unfold name_key. now rewrite Hname. Qed.

(** C8 (amended).  The names "Song - Artist.mp3" and
    "Song - Artist (Live).mp3" are both parsed to the title "Song", with
    its capital letter (only the artist is put in lower case), and the
    artist "artist"; two files with these names form one group of the
    FILENAME method. *)
Theorem live_marker_collapses_into_one_group (w : World) (a b : FileInfo) :
  PosixPath.basename (path a) = "Song - Artist.mp3" ->
  PosixPath.basename (path b) = "Song - Artist (Live).mp3" ->
  parse_music_filename (PosixPath.basename (path a)) = ("Song", "artist") /\
  parse_music_filename (PosixPath.basename (path b)) = ("Song", "artist") /\
  group_files w FILENAME [a; b] = [("歌曲: Song (2个版本)", [a; b])].
Proof.
  intros Ha Hb. rewrite Ha, Hb.
  split; [vm_compute; reflexivity|]. split; [vm_compute; reflexivity|].
  assert (Hka : name_key a = "Song|artist")
    by (apply (name_key_of_basename a _ _ Ha); vm_compute; reflexivity).
  assert (Hkb : name_key b = "Song|artist")
    by (apply (name_key_of_basename b _ _ Hb); vm_compute; reflexivity).
  unfold group_files, name_groups, group_by, group_pairs. simpl.
  rewrite Hka, Hkb. rewrite decide_True by reflexivity.
  reflexivity.
Qed.

Lemma live_marker_collapses_into_one_group_witness :
  PosixPath.basename (path Scenarios.song_plain) = "Song - Artist.mp3" /\
  PosixPath.basename (path Scenarios.song_live) = "Song - Artist (Live).mp3" /\
  group_files Scenarios.live_world FILENAME [Scenarios.song_plain; Scenarios.song_live]
    = [("歌曲: Song (2个版本)", [Scenarios.song_plain; Scenarios.song_live])].
Proof.
  split; [vm_compute; reflexivity|]. split; [vm_compute; reflexivity|].
  apply (live_marker_collapses_into_one_group
           Scenarios.live_world Scenarios.song_plain Scenarios.song_live);
    vm_compute; reflexivity.
Defined.

(** C8 as stated fails: the title keeps its capital letter. *)
Lemma title_is_not_lowercased :
  parse_music_filename "Song - Artist.mp3" = ("Song", "artist") /\
  parse_music_filename "Song - Artist (Live).mp3" = ("Song", "artist") /\
  ~ live_scenario_as_stated Scenarios.live_world Scenarios.song_plain Scenarios.song_live.
Proof.
  split; [vm_compute; reflexivity|]. split; [vm_compute; reflexivity|].
  intros (Htitle & _). vm_compute in Htitle. discriminate.
Qed.

End LabelFacts.

(** ** The automatic selection *)

Module FileTreeFacts.
Import FileTree.

Lemma key_le_refl (a : bool * Z * Z * Z) : key_le a a.
Proof. key_cases. Qed.

Lemma key_le_trans (a b c : bool * Z * Z * Z) :
  key_le a b -> key_le b c -> key_le a c.
Proof. intros Hab Hbc. key_cases. Qed.

Lemma key_lt_le (a b : bool * Z * Z * Z) : key_ltb a b = true -> key_le a b.
Proof. intros Hab. key_cases. Qed.

Lemma key_le_total (a b : bool * Z * Z * Z) : key_ltb a b = false -> key_le b a.
Proof. intros Hab. exact Hab. Qed.

Lemma insert_by_perm (s : settings) (x : file_entry) (l : list file_entry) :
  Permutation (insert_by s x l) (x :: l).
Proof.
  induction l as [|y l IH]; cbn [insert_by]; [done|].
  destruct (key_ltb (sort_key s x) (sort_key s y)); [done|].
  rewrite IH. apply perm_swap.
Qed.

Lemma sort_fold_perm (s : settings) (files sorted : list file_entry) :
  Permutation (fold_left (fun sorted x => insert_by s x sorted) files sorted)
              (sorted ++ files).
Proof.
  revert sorted. induction files as [|x files IH]; intros sorted; cbn [fold_left].
  - now rewrite app_nil_r.
  - rewrite IH, insert_by_perm. apply Permutation_middle.
Qed.

(** The sort only reorders the rows. *)
Lemma sort_files_perm (s : settings) (files : list file_entry) :
  Permutation (sort_files s files) files.
Proof. apply (sort_fold_perm s files []). Qed.

Lemma insert_by_ascending (s : settings) (x : file_entry) (l : list file_entry) :
  ascending s l -> ascending s (insert_by s x l).
Proof.
  unfold ascending. induction l as [|y l IH]; cbn [insert_by]; intros Hl.
  - repeat constructor.
  - inversion Hl as [|? ? Hsorted Hall]; subst.
    destruct (key_ltb (sort_key s x) (sort_key s y)) eqn:Hlt.
    + constructor; [done|]. constructor.
      * now apply key_lt_le.
      * eapply Forall_impl; [exact Hall|]. intros z Hz. simpl in Hz.
        eapply key_le_trans; [apply key_lt_le, Hlt|exact Hz].
    + constructor; [now apply IH|].
      rewrite (insert_by_perm s x l). constructor; [exact Hlt|exact Hall].
Qed.

Lemma sort_fold_ascending (s : settings) (files sorted : list file_entry) :
  ascending s sorted ->
  ascending s (fold_left (fun sorted x => insert_by s x sorted) files sorted).
Proof.
  revert sorted. induction files as [|x files IH]; intros sorted Hs; cbn [fold_left]; [done|].
  apply IH, insert_by_ascending, Hs.
Qed.

(** The sort puts the rows in ascending order of the key of the code. *)
Lemma sort_files_ascending (s : settings) (files : list file_entry) :
  ascending s (sort_files s files).
Proof. apply sort_fold_ascending. constructor. Qed.

(** What [_select_files_to_delete] does, with the key as the code has it:
    the rows are sorted in ascending order of [sort_key]; the first row of
    that order is kept and is a minimum of the key; all the other rows
    are selected, so one row less than the group has. *)
Lemma select_keeps_minimum_of_code_key (s : settings) (files : list file_entry) :
  files <> [] ->
  exists k,
    kept files s = Some k /\
    Permutation (k :: _select_files_to_delete files s) files /\
    sort_files s files = k :: _select_files_to_delete files s /\
    ascending s (sort_files s files) /\
    (forall f, f ∈ files -> key_le (sort_key s k) (sort_key s f)) /\
    List.length (_select_files_to_delete files s) = (List.length files - 1)%nat.
Proof.
  intros Hne.
  pose proof (sort_files_perm s files) as Hperm.
  pose proof (sort_files_ascending s files) as Hasc.
  unfold kept, _select_files_to_delete.
  destruct files as [|f0 files']; [done|].
  destruct (sort_files s (f0 :: files')) as [|k rest] eqn:Hsort.
  { apply Permutation_nil in Hperm. discriminate. }
  exists k. simpl. split; [done|]. split; [done|]. split; [done|].
  split; [done|]. split.
  - intros f Hf. rewrite <- Hperm in Hf.
    apply elem_of_cons in Hf as [->|Hf]; [apply key_le_refl|].
    inversion Hasc as [|? ? _ Hall]; subst.
    rewrite Forall_forall in Hall. apply Hall, Hf.
  - apply Permutation_length in Hperm. simpl in Hperm. lia.
Qed.

Lemma collect_all (s : settings) (rows : list tree_item) (j : nat) :
  exclude_dirs s = [] -> List.length (collect s j rows) = List.length rows.
Proof.
  intros Hex. revert j. induction rows as [|row rows IH]; intros j; simpl; [done|].
  rewrite Hex. simpl. now rewrite IH.
Qed.

(** Without excluded directories and without the restriction to equal
    names, a group of rows loses all its rows but one to the selection. *)
Lemma auto_select_all_but_one (s : settings) (rows : list tree_item) :
  exclude_dirs s = [] -> skip_different_names s = false -> rows <> [] ->
  auto_select_group s rows = tail (sort_files s (collect s 0 rows)) /\
  List.length (auto_select_group s rows) = (List.length rows - 1)%nat.
Proof.
  intros Hex Hskip Hne. unfold auto_select_group. rewrite Hskip.
  pose proof (collect_all s rows 0 Hex) as Hlen.
  destruct (collect s 0 rows) as [|f files] eqn:Hc.
  { destruct rows; [done|discriminate]. }
  destruct (select_keeps_minimum_of_code_key s (f :: files)) as (k & _ & _ & _ & _ & _ & Hl);
    [done|].
  split; [done|]. rewrite Hl, Hlen. done.
Qed.

(** C1 at its failing inputs.  With "keep the larger file" set, the
    3.00 MB copy is kept and the 5.00 MB copy is selected for deletion;
    with "keep the oldest file" set, the copy of second 2000 is kept and
    the copy of second 1000 is selected.  Under the ranking of the
    specification the selected row is in both cases strictly below the
    kept one, so the kept row is not the minimum of that ranking. *)
Theorem size_and_time_preferences_are_inverted :
  kept (collect (Scenarios.plain_settings true false) 0 Scenarios.small_and_large)
       (Scenarios.plain_settings true false)
    = Some (Scenarios.mp3_entry 0 "/m/a.mp3" 300 1000) /\
  auto_select_group (Scenarios.plain_settings true false) Scenarios.small_and_large
    = [Scenarios.mp3_entry 1 "/m/b.mp3" 500 1000] /\
  key_ltb (Stated.stated_key (Scenarios.plain_settings true false)
             (Scenarios.mp3_entry 1 "/m/b.mp3" 500 1000))
          (Stated.stated_key (Scenarios.plain_settings true false)
             (Scenarios.mp3_entry 0 "/m/a.mp3" 300 1000)) = true /\
  kept (collect (Scenarios.plain_settings false true) 0 Scenarios.old_and_new)
       (Scenarios.plain_settings false true)
    = Some (Scenarios.mp3_entry 1 "/m/b.mp3" 300 2000) /\
  auto_select_group (Scenarios.plain_settings false true) Scenarios.old_and_new
    = [Scenarios.mp3_entry 0 "/m/a.mp3" 300 1000] /\
  key_ltb (Stated.stated_key (Scenarios.plain_settings false true)
             (Scenarios.mp3_entry 0 "/m/a.mp3" 300 1000))
          (Stated.stated_key (Scenarios.plain_settings false true)
             (Scenarios.mp3_entry 1 "/m/b.mp3" 300 2000)) = true.
Proof. repeat split; vm_compute; reflexivity. Qed.

End FileTreeFacts.

(** ** Worked examples *)

Module Examples.
Import FileInfoM FileIndexM MusicFinderM.

(** Sizes are shown rounded to hundredths of a megabyte, ties to even. *)
Example format_size_values :
  format_size 0 = "0.00 MB" /\ format_size 131072 = "0.12 MB" /\
  format_size 393216 = "0.38 MB" /\ format_size 1048576 = "1.00 MB" /\
  format_size 1048577 = "1.00 MB" /\ format_size 123456789 = "117.74 MB".
Proof. repeat split; vm_compute; reflexivity. Qed.

Example splitext_values :
  PosixPath.splitext "/a/b.c/Song (Live).mp3" = ("/a/b.c/Song (Live)", ".mp3") /\
  PosixPath.splitext ".bashrc" = (".bashrc", "") /\
  PosixPath.splitext "a.b/c" = ("a.b/c", "") /\
  PosixPath.splitext "a/b.tar.gz" = ("a/b.tar", ".gz").
Proof. repeat split; vm_compute; reflexivity. Qed.

Example dirname_and_join_values :
  PosixPath.dirname "/m/a.mp3" = "/m" /\ PosixPath.dirname "/m" = "/" /\
  PosixPath.dirname "a.mp3" = "" /\ PosixPath.join "/m" "a.mp3" = "/m/a.mp3" /\
  PosixPath.join "/m/" "a.mp3" = "/m/a.mp3" /\ PosixPath.join "/m" "/x" = "/x".
Proof. repeat split; vm_compute; reflexivity. Qed.

Example normalize_path_values :
  normalize_path "/a//b/../c/./d/" = "/a/c/d" /\
  normalize_path "" = "." /\
  normalize_path "//srv/share/x" = "\\srv\share\x".
Proof. repeat split; vm_compute; reflexivity. Qed.

(** The time stamp suffix, the tag markers of the title and the trailers
    of the artist. *)
Example parse_music_filename_values :
  parse_music_filename "Song_20240101123456.mp3" = ("Song", "") /\
  parse_music_filename "Song (Live) - Artist.mp3" = ("Song", "artist") /\
  parse_music_filename "Song - Artist（现场）.flac" = ("Song", "artist") /\
  parse_music_filename "One - Two - Three.mp3" = ("One", "two three").
Proof. repeat split; vm_compute; reflexivity. Qed.

(** The artist's dots, dashes and blanks become single blanks before the
    suffix patterns are tried, so a pattern with a dot or a dash in it
    ("feat.", "G.E.M", "A-Mei") finds nothing to remove. *)
Example normalize_artist_name_values :
  normalize_artist_name "Artist feat. Guest" = "artist feat guest" /\
  normalize_artist_name "G.E.M" = "g e m" /\
  normalize_artist_name "A-Mei" = "a mei" /\
  normalize_artist_name "Band cover of X" = "band".
Proof. repeat split; vm_compute; reflexivity. Qed.

(** Three failed reads give up; a read that succeeds at the second attempt
    returns its digest after two attempts. *)
Example calculate_md5_values :
  calculate_md5_with (fun _ => ReadIOError) default_max_retries = (Some "", 3%nat) /\
  calculate_md5_with (fun n => if Nat.eqb n 0 then ReadIOError
                               else ReadDigest Scenarios.digest_1)
                     default_max_retries
    = (Some Scenarios.digest_1, 2%nat) /\
  calculate_md5_with (fun _ => ReadOtherError) default_max_retries = (Some "", 1%nat).
Proof. repeat split; vm_compute; reflexivity. Qed.

(** A scan with an index: the cached record first, then the new file; the
    text file is not audio. *)
Example scan_with_index :
  map path (all_files (collect_files Scenarios.fresh_song_world
                         (Scenarios.fresh_song_index Scenarios.fresh_song_world)
                         "/m" 0 0))
    = ["/m/sub/a.mp3"; "/m/new.mp3"] /\
  map path (all_files (collect_files Scenarios.fresh_song_world ∅ "/m" 0 0))
    = ["/m/new.mp3"; "/m/sub/a.mp3"] /\
  map path (all_files (collect_files Scenarios.fresh_song_world ∅ "/m" 0 6))
    = ["/m/new.mp3"].
Proof. repeat split; vm_compute; reflexivity. Qed.

End Examples.

(** ** More on dictionaries *)

Section DictMore.
Context {K V : Type} `{EqDecision K}.

Lemma dict_get_elem (k : K) (v : V) (d : list (K * V)) :
  dict_get k d = Some v -> (k, v) ∈ d.
Proof.
  induction d as [|[k' v'] d IH]; simpl; [discriminate|].
  destruct (decide (k = k')) as [->|Hne].
  - intros Heq. inversion Heq; subst. apply list_elem_of_here.
  - intros Hget. apply list_elem_of_further, IH, Hget.
Qed.

Lemma dict_get_none (k : K) (d : list (K * V)) :
  dict_get k d = None <-> k ∉ map fst d.
Proof.
  induction d as [|[k' v'] d IH]; simpl.
  - split; [intros _; apply not_elem_of_nil|done].
  - destruct (decide (k = k')) as [->|Hne].
    + split; [discriminate|]. intros Hnot. destruct Hnot. apply list_elem_of_here.
    + rewrite IH, not_elem_of_cons. tauto.
Qed.

Lemma elem_dict_get (k : K) (v : V) (d : list (K * V)) :
  NoDup (map fst d) -> (k, v) ∈ d -> dict_get k d = Some v.
Proof.
  induction d as [|[k' v'] d IH]; simpl; intros Hnd Hin.
  - now apply elem_of_nil in Hin.
  - apply NoDup_cons in Hnd as [Hk' Hnd].
    apply elem_of_cons in Hin as [Heq|Hin].
    + inversion Heq; subst. now rewrite decide_True.
    + destruct (decide (k = k')) as [->|Hne]; [|now apply IH].
      destruct Hk'. apply list_elem_of_In, in_map_iff.
      exists (k', v). split; [done|]. now apply list_elem_of_In.
Qed.

(** Setting a key that is not there appends it. *)
Lemma dict_set_fresh (k : K) (v : V) (d : list (K * V)) :
  k ∉ map fst d -> dict_set k v d = (d ++ [(k, v)])%list.
Proof.
  induction d as [|[k' v'] d IH]; simpl; intros Hk; [done|].
  apply not_elem_of_cons in Hk as [Hne Hk].
  rewrite decide_False by done. now rewrite IH.
Qed.

End DictMore.

Section DictGroups.
Context {K V : Type} `{EqDecision K}.

Lemma dict_append_keys (k : K) (v : V) (d : list (K * list V)) :
  map fst (dict_append k v d)
  = (map fst d ++ if bool_decide (k ∈ map fst d) then [] else [k])%list.
Proof.
  induction d as [|[k' vs] d IH]; simpl; [done|].
  destruct (decide (k = k')) as [->|Hne]; simpl.
  - rewrite bool_decide_eq_true_2 by apply list_elem_of_here.
    now rewrite app_nil_r.
  - rewrite IH. f_equal. f_equal.
    destruct (bool_decide (k ∈ map fst d)) eqn:Hin.
    + apply bool_decide_eq_true in Hin.
      now rewrite bool_decide_eq_true_2 by now apply list_elem_of_further.
    + apply bool_decide_eq_false in Hin.
      rewrite bool_decide_eq_false_2; [done|].
      rewrite not_elem_of_cons. done.
Qed.

Lemma dict_append_NoDup (k : K) (v : V) (d : list (K * list V)) :
  NoDup (map fst d) -> NoDup (map fst (dict_append k v d)).
Proof.
  intros Hnd. rewrite dict_append_keys.
  destruct (bool_decide (k ∈ map fst d)) eqn:Hin.
  - now rewrite app_nil_r.
  - apply bool_decide_eq_false in Hin.
    apply NoDup_app. split; [done|]. split.
    + intros x Hx Hx'. apply list_elem_of_singleton in Hx' as ->. done.
    + apply NoDup_singleton.
Qed.

Lemma dict_append_get (k k0 : K) (v : V) (d : list (K * list V)) :
  dict_get k0 (dict_append k v d)
  = if decide (k0 = k)
    then Some (default [] (dict_get k0 d) ++ [v])%list
    else dict_get k0 d.
Proof.
  induction d as [|[k' vs] d IH]; simpl.
  - repeat case_decide; simplify_eq; done.
  - destruct (decide (k = k')) as [->|Hne]; simpl.
    + repeat case_decide; simplify_eq; done.
    + rewrite IH. repeat case_decide; simplify_eq; done.
Qed.

Lemma values_of_cons (k : K) (kv : K * V) (kvs : list (K * V)) :
  GroupingRef.values_of k (kv :: kvs)
  = ((if decide (k = fst kv) then [snd kv] else []) ++ GroupingRef.values_of k kvs)%list.
Proof.
  unfold GroupingRef.values_of. simpl.
  destruct (decide (k = fst kv)) as [->|Hne].
  - now rewrite bool_decide_eq_true_2.
  - rewrite bool_decide_eq_false_2 by (intros Heq; now apply Hne). done.
Qed.

Lemma fold_dict_append_spec (kvs : list (K * V)) (d : list (K * list V)) :
  let r := fold_left (fun d kv => dict_append (fst kv) (snd kv) d) kvs d in
  NoDup (map fst d) ->
  NoDup (map fst r) /\
  forall k, dict_get k r
            = match dict_get k d, GroupingRef.values_of k kvs with
              | None, [] => None
              | o, vs => Some (default [] o ++ vs)%list
              end.
Proof.
  revert d. induction kvs as [|[k0 v0] kvs IH]; intros d; cbn [fold_left]; intros Hnd.
  - split; [done|]. intros k. simpl.
    destruct (dict_get k d); [now rewrite app_nil_r|done].
  - destruct (IH (dict_append k0 v0 d)) as [Hnd' Hget]; [now apply dict_append_NoDup|].
    split; [exact Hnd'|]. intros k. rewrite Hget, values_of_cons.
    simpl. rewrite dict_append_get.
    destruct (decide (k = k0)) as [->|Hne]; simpl.
    + destruct (dict_get k0 d) as [vs|]; simpl.
      * now rewrite <- app_assoc.
      * done.
    + done.
Qed.

(** The classes of [group_pairs]: the keys are distinct, and the class of
    a key holds the values paired with it, in their order. *)
Lemma group_pairs_spec (kvs : list (K * V)) :
  NoDup (map fst (group_pairs kvs)) /\
  forall k vs,
    (k, vs) ∈ group_pairs kvs <-> vs <> [] /\ vs = GroupingRef.values_of k kvs.
Proof.
  destruct (fold_dict_append_spec kvs []) as [Hnd Hget]; [constructor|].
  fold (group_pairs kvs) in Hnd, Hget. split; [exact Hnd|].
  intros k vs. split.
  - intros Hin. apply (elem_dict_get _ _ _ Hnd) in Hin.
    rewrite Hget in Hin. simpl in Hin.
    destruct (GroupingRef.values_of k kvs) as [|v vs'] eqn:Hv; [discriminate|].
    inversion Hin; subst. done.
  - intros [Hne ->]. apply dict_get_elem. rewrite Hget. simpl.
    destruct (GroupingRef.values_of k kvs); done.
Qed.

Lemma values_of_map (key : V -> K) (xs : list V) (k : K) :
  GroupingRef.values_of k (map (fun x => (key x, x)) xs)
  = List.filter (fun x => bool_decide (key x = k)) xs.
Proof.
  unfold GroupingRef.values_of. induction xs as [|x xs IH]; simpl; [done|].
  destruct (bool_decide (key x = k)); simpl; now rewrite IH.
Qed.

(** the classes of [group_by]: distinct keys, and under each key the
    elements with that key, in their order *)
Lemma group_by_spec (key : V -> K) (xs : list V) :
  NoDup (map fst (group_by key xs)) /\
  forall k vs,
    (k, vs) ∈ group_by key xs <->
    vs <> [] /\ vs = List.filter (fun x => bool_decide (key x = k)) xs.
Proof.
  unfold group_by.
  destruct (group_pairs_spec (map (fun x => (key x, x)) xs)) as [Hnd Hspec].
  split; [exact Hnd|]. intros k vs. now rewrite Hspec, values_of_map.
Qed.
End DictGroups.

(** ** What the grouping returns *)

Module GroupingMore.
Import FileInfoM FileIndexM MusicFinderM GroupingRef.

(** X1.  Whatever the method, a group of the result has at least two
    members, every member is one of the files given, and any two members
    are duplicates under the method: equal byte size for SIZE, equal known
    digest for MD5, both for MIXED, equal name key for FILENAME. *)
Theorem groups_hold_duplicates (w : World) (method : DuplicateCheckMethod)
    (files : list FileInfo) (label : string) (g : list FileInfo) :
  (label, g) ∈ group_files w method files ->
  (1 < List.length g)%nat /\
  (forall f, f ∈ g -> f ∈ files) /\
  (forall a b, a ∈ g -> b ∈ g -> duplicate_under w method a b).
Proof.
  intros Hin. destruct method; simpl in Hin.
  - apply GroupingFacts.add_duplicates_elem in Hin as [Hnil|(k & Hk & Hlen & _)];
      [now apply elem_of_nil in Hnil|].
    split; [done|]. split.
    + intros f Hf. now destruct (group_by_elem name_key files k g f Hk Hf).
    + intros a b Ha Hb. simpl.
      destruct (group_by_elem name_key files k g a Hk Ha) as [_ ->].
      now destruct (group_by_elem name_key files k g b Hk Hb) as [_ ->].
  - apply GroupingFacts.add_duplicates_elem in Hin as [Hnil|(k & Hk & Hlen & _)];
      [now apply elem_of_nil in Hnil|].
    split; [done|]. split.
    + intros f Hf. now destruct (group_by_elem size_bytes files k g f Hk Hf).
    + intros a b Ha Hb. simpl.
      destruct (group_by_elem size_bytes files k g a Hk Ha) as [_ ->].
      now destruct (group_by_elem size_bytes files k g b Hk Hb) as [_ ->].
  - apply GroupingFacts.add_duplicates_elem in Hin as [Hnil|(d & Hd & Hlen & _)];
      [now apply elem_of_nil in Hnil|].
    split; [done|]. split.
    + intros f Hf. now destruct (GroupingFacts.md5_groups_elem w files d g f Hd Hf).
    + intros a b Ha Hb. simpl. exists d.
      destruct (GroupingFacts.md5_groups_elem w files d g a Hd Ha) as (_ & Hda & Hne).
      destruct (GroupingFacts.md5_groups_elem w files d g b Hd Hb) as (_ & Hdb & _).
      done.
  - apply LabelFacts.mixed_fold_elem in Hin
      as [Hnil|(sz & class & d & Hclass & Hd & Hlen & _)];
      [now apply elem_of_nil in Hnil|].
    assert (Hmem : forall f, f ∈ g ->
               f ∈ files /\ size_bytes f = sz /\ md5 w f = Some d /\ d <> unknown_md5).
    { intros f Hf.
      destruct (GroupingFacts.md5_groups_elem w class d g f Hd Hf) as (Hfc & Hmd & Hne).
      destruct (group_by_elem size_bytes files sz class f Hclass Hfc) as (Hff & Hsz).
      done. }
    split; [done|]. split.
    + intros f Hf. now destruct (Hmem f Hf).
    + intros a b Ha Hb. simpl.
      destruct (Hmem a Ha) as (_ & Hsa & Hda & Hne), (Hmem b Hb) as (_ & Hsb & Hdb & _).
      split; [congruence|]. now exists d.
Qed.

Lemma groups_hold_duplicates_witness :
  ("歌曲: Song (2个版本)", [Scenarios.song_plain; Scenarios.song_live])
    ∈ group_files Scenarios.live_world FILENAME [Scenarios.song_plain; Scenarios.song_live] /\
  duplicate_under Scenarios.live_world FILENAME Scenarios.song_plain Scenarios.song_live.
Proof.
  assert (Hin :
    ("歌曲: Song (2个版本)", [Scenarios.song_plain; Scenarios.song_live])
      ∈ group_files Scenarios.live_world FILENAME
          [Scenarios.song_plain; Scenarios.song_live]).
  { vm_compute. apply list_elem_of_here. }
  split; [exact Hin|].
  destruct (groups_hold_duplicates _ _ _ _ _ Hin) as (_ & _ & Hdup).
  apply Hdup; [apply list_elem_of_here|apply list_elem_of_further, list_elem_of_here].
Defined.

(** X2.  The first pass of the SIZE and MIXED methods is a partition of
    the files by byte size: the sizes filed are distinct, the class of a
    size is not empty and holds exactly the files of that size in scan
    order, and every file is in the class of its size. *)
Theorem size_groups_is_a_partition (files : list FileInfo) :
  NoDup (map fst (size_groups files)) /\
  (forall sz class,
      (sz, class) ∈ size_groups files <->
      class <> [] /\
      class = List.filter (fun f => bool_decide (size_bytes f = sz)) files) /\
  (forall f, f ∈ files ->
             exists class, (size_bytes f, class) ∈ size_groups files /\ f ∈ class).
Proof.
  unfold size_groups, group_by.
  destruct (group_pairs_spec (map (fun x => (size_bytes x, x)) files)) as [Hnd Hspec].
  split; [exact Hnd|]. split.
  - intros sz class. rewrite Hspec, values_of_map. done.
  - intros f Hf.
    exists (List.filter (fun x => bool_decide (size_bytes x = size_bytes f)) files).
    assert (Hmem : f ∈ List.filter
                       (fun x => bool_decide (size_bytes x = size_bytes f)) files).
    { apply list_elem_of_In, filter_In. split; [now apply list_elem_of_In|].
      now apply bool_decide_eq_true. }
    split; [|exact Hmem].
    apply Hspec. rewrite values_of_map. split; [|done].
    intros Hnil. rewrite Hnil in Hmem. now apply elem_of_nil in Hmem.
Qed.

Lemma labelled_keys_cons {K : Type} (label : K -> list FileInfo -> string)
    (kf : K * list FileInfo) (d : list (K * list FileInfo)) :
  labelled label (kf :: d)
  = ((if (1 <? List.length (snd kf))%nat then [(label (fst kf) (snd kf), snd kf)] else [])
     ++ labelled label d)%list.
Proof. unfold labelled. simpl. now destruct (1 <? List.length (snd kf))%nat. Qed.

(** When no label repeats, filing the classes into the result map is
    appending them. *)
Lemma add_duplicates_no_collision {K : Type} (label : K -> list FileInfo -> string)
    (d : list (K * list FileInfo)) (dup : groups) :
  NoDup (map fst (dup ++ labelled label d)) ->
  add_duplicates label d dup = (dup ++ labelled label d)%list.
Proof.
  unfold add_duplicates. revert dup.
  induction d as [|kf d IH]; intros dup Hnd; cbn [fold_left].
  - unfold labelled. simpl. now rewrite app_nil_r.
  - rewrite labelled_keys_cons in *.
    destruct (1 <? List.length (snd kf))%nat eqn:Hbig.
    + rewrite dict_set_fresh.
      * rewrite IH; [now rewrite <- app_assoc|]. now rewrite <- app_assoc.
      * rewrite map_app in Hnd. apply NoDup_app in Hnd as (_ & Hdisj & _).
        intros Hin. apply (Hdisj _ Hin). simpl. apply list_elem_of_here.
    + simpl in *. now apply IH.
Qed.

(** X3.  When the labels of the classes found are pairwise different, the
    result map holds every class with more than one member, under its
    label and in the order found: nothing is lost.  (Classes are lost
    only through equal labels.) *)
Theorem distinct_labels_lose_no_group (w : World) (method : DuplicateCheckMethod)
    (files : list FileInfo) :
  NoDup (map fst (labelled_classes w method files)) ->
  group_files w method files = labelled_classes w method files.
Proof.
  destruct method; simpl; intros Hnd.
  - now apply (add_duplicates_no_collision song_label _ []).
  - now apply (add_duplicates_no_collision size_label _ []).
  - now apply (add_duplicates_no_collision md5_label _ []).
  - assert (Hgen : forall (d : list (Z * list FileInfo)) (dup : groups),
               NoDup (map fst (dup ++ flat_map (fun sf : Z * list FileInfo =>
                        if (1 <? List.length (snd sf))%nat
                        then labelled mixed_label (md5_groups w (snd sf))
                        else []) d)) ->
               fold_left (fun (dup : groups) (sf : Z * list FileInfo) =>
                 if (1 <? List.length (snd sf))%nat
                 then add_duplicates mixed_label (md5_groups w (snd sf)) dup
                 else dup) d dup
               = (dup ++ flat_map (fun sf : Z * list FileInfo =>
                    if (1 <? List.length (snd sf))%nat
                    then labelled mixed_label (md5_groups w (snd sf))
                    else []) d)%list).
    { induction d as [|sf d IH]; intros dup Hd; cbn [fold_left flat_map].
      - now rewrite app_nil_r.
      - cbn [flat_map] in Hd.
        destruct (1 <? List.length (snd sf))%nat.
        + rewrite app_assoc in Hd. rewrite add_duplicates_no_collision.
          * rewrite IH; [now rewrite <- app_assoc|exact Hd].
          * rewrite map_app in Hd. now apply NoDup_app in Hd as (Hd & _).
        + simpl in *. now apply IH. }
    exact (Hgen _ [] Hnd).
Qed.

Lemma distinct_labels_lose_no_group_witness :
  NoDup (map fst (labelled_classes Scenarios.unreadable_world MD5
                    Scenarios.unreadable_files)) /\
  group_files Scenarios.unreadable_world MD5 Scenarios.unreadable_files
    = labelled_classes Scenarios.unreadable_world MD5 Scenarios.unreadable_files.
Proof.
  assert (Hnd : NoDup (map fst (labelled_classes Scenarios.unreadable_world MD5
                                  Scenarios.unreadable_files))).
  { vm_compute. apply NoDup_singleton. }
  split; [exact Hnd|].
  apply (distinct_labels_lose_no_group _ _ _ Hnd).
Defined.

(** X4.  The label of a FILENAME group shows the title and the number of
    versions, not the artist: when the files fall into two classes with
    the same title and equally many members (the same song by two
    artists), both classes get the same label and the result map holds
    the second class only. *)
Theorem same_title_groups_collide (w : World) (files : list FileInfo)
    (k1 k2 : string) (g1 g2 : list FileInfo) :
  name_groups files = [(k1, g1); (k2, g2)] ->
  (1 < List.length g1)%nat -> (1 < List.length g2)%nat ->
  Str.before_first "|" k1 = Str.before_first "|" k2 ->
  List.length g1 = List.length g2 ->
  song_label k1 g1 = song_label k2 g2 /\
  group_files w FILENAME files = [(song_label k2 g2, g2)].
Proof.
  intros Hgroups Hlen1 Hlen2 Htitle Hlen.
  assert (Hlabel : song_label k1 g1 = song_label k2 g2)
    by (unfold song_label; now rewrite Htitle, Hlen).
  split; [exact Hlabel|].
  unfold group_files, add_duplicates. rewrite Hgroups. cbn [fold_left fst snd].
  apply Nat.ltb_lt in Hlen1, Hlen2. rewrite Hlen1, Hlen2.
  cbn [dict_set]. rewrite Hlabel. now rewrite decide_True.
Qed.

Lemma same_title_groups_collide_witness :
  name_groups Scenarios2.two_artists_files
    = [("Song|ann", map (from_path Scenarios2.two_artists_world)
                      ["/m/Song - Ann.mp3"; "/m/Song - Ann (Live).mp3"]);
       ("Song|bob", map (from_path Scenarios2.two_artists_world)
                      ["/m/Song - Bob.mp3"; "/m/Song - Bob (Live).mp3"])] /\
  group_files Scenarios2.two_artists_world FILENAME Scenarios2.two_artists_files
    = [("歌曲: Song (2个版本)",
        map (from_path Scenarios2.two_artists_world)
          ["/m/Song - Bob.mp3"; "/m/Song - Bob (Live).mp3"])].
Proof.
  assert (Hgroups :
    name_groups Scenarios2.two_artists_files
      = [("Song|ann", map (from_path Scenarios2.two_artists_world)
                        ["/m/Song - Ann.mp3"; "/m/Song - Ann (Live).mp3"]);
         ("Song|bob", map (from_path Scenarios2.two_artists_world)
                        ["/m/Song - Bob.mp3"; "/m/Song - Bob (Live).mp3"])])
    by (vm_compute; reflexivity).
  split; [exact Hgroups|].
  destruct (same_title_groups_collide Scenarios2.two_artists_world _ _ _ _ _ Hgroups)
    as [_ Hres]; [simpl; lia|simpl; lia|vm_compute; reflexivity|reflexivity|].
  rewrite Hres. vm_compute. reflexivity.
Defined.

End GroupingMore.

(** ** The artist name *)

Module ParsingMore.
Import MusicFinderM ParsingRef.

#[local] Arguments Ascii.eqb : simpl never.

Lemma all_chars_impl (p q : ascii -> bool) (s : string) :
  (forall c, p c = true -> q c = true) ->
  Str.all_chars p s = true -> Str.all_chars q s = true.
Proof.
  intros Himp. induction s as [|c s IH]; simpl; [done|].
  intros [Hc Hs]%andb_true_iff. rewrite (Himp c Hc). now apply IH.
Qed.

Lemma plus_step (ci : bool) (p : ascii -> bool) (c : ascii) (s : string) :
  Re.match_here ci [Re.Plus p] (String c s) =
  if p c
  then match Re.match_here ci [Re.Plus p] s with
       | Some rest => Some rest
       | None => Some s
       end
  else None.
Proof. reflexivity. Qed.

Lemma plus_fails (ci : bool) (p : ascii -> bool) (c : ascii) (s : string) :
  Re.match_here ci [Re.Plus p] (String c s) = None -> p c = false.
Proof.
  rewrite plus_step. destruct (p c); [|done].
  destruct (Re.match_here ci [Re.Plus p] s); discriminate.
Qed.

Lemma plus_consumes (ci : bool) (p : ascii -> bool) (s rest : string) :
  Re.match_here ci [Re.Plus p] s = Some rest ->
  (String.length rest < String.length s)%nat.
Proof.
  revert rest. induction s as [|c s IH]; intros rest; [discriminate|].
  rewrite plus_step. destruct (p c); [|discriminate].
  destruct (Re.match_here ci [Re.Plus p] s) as [r|] eqn:Hm.
  - intros Heq. inversion Heq; subst. specialize (IH _ eq_refl). simpl. lia.
  - intros Heq. inversion Heq; subst. simpl. lia.
Qed.

(** Substituting a blank for every run of separators leaves only clean
    characters. *)
Lemma sub_separators_clean (s : string) (skip : nat) :
  Str.all_chars clean
    (Re.sub_scan false [Re.Plus artist_separators] " " s skip) = true.
Proof.
  revert skip. induction s as [|c s IH]; intros skip.
  - destruct skip; reflexivity.
  - destruct skip as [|k]; [|apply IH].
    cbn [Re.sub_scan].
    destruct (Re.match_here false [Re.Plus artist_separators] (String c s))
      as [rest|] eqn:Hm.
    + apply plus_consumes in Hm.
      destruct (String.length (String c s) - String.length rest)%nat eqn:Hn; [lia|].
      rewrite IndexFacts.append_cons. simpl. apply IH.
    + apply plus_fails in Hm. simpl. unfold clean at 1. rewrite Hm. simpl. apply IH.
Qed.

(** Deleting matches adds no character. *)
Lemma sub_delete_keeps (q : ascii -> bool) (ci : bool) (r : Re.regex)
    (s : string) (skip : nat) :
  Str.all_chars q s = true ->
  Str.all_chars q (Re.sub_scan ci r "" s skip) = true.
Proof.
  revert skip. induction s as [|c s IH]; intros skip Hs.
  - destruct skip; [|reflexivity]. cbn [Re.sub_scan].
    destruct (Re.match_here ci r ""); [|reflexivity].
    destruct (String.length "" - String.length s)%nat; reflexivity.
  - simpl in Hs. apply andb_true_iff in Hs as [Hc Hs].
    destruct skip as [|k]; [|now apply IH].
    cbn [Re.sub_scan].
    destruct (Re.match_here ci r (String c s)) as [rest|].
    + destruct (String.length (String c s) - String.length rest)%nat.
      * change (Str.all_chars q (String c (Re.sub_scan ci r "" s 0)) = true).
        simpl. rewrite Hc. now apply IH.
      * change (Str.all_chars q (Re.sub_scan ci r "" s n) = true). now apply IH.
    + simpl. rewrite Hc. now apply IH.
Qed.

(** Where the pattern matches at no place, the text is returned as it is. *)
Lemma sub_no_match (q : ascii -> bool) (ci : bool) (r : Re.regex)
    (repl s : string) :
  (forall t, Str.all_chars q t = true -> Re.match_here ci r t = None) ->
  Str.all_chars q s = true -> Re.sub ci r repl s = s.
Proof.
  intros Hnone. unfold Re.sub. induction s as [|c s IH]; intros Hs.
  - cbn [Re.sub_scan]. now rewrite (Hnone "" eq_refl).
  - cbn [Re.sub_scan]. rewrite (Hnone _ Hs).
    simpl in Hs. apply andb_true_iff in Hs as [_ Hs]. now rewrite IH.
Qed.

Lemma lower_char_dot (b : ascii) :
  Str.lower_char b = "."%char -> b = "."%char.
Proof.
  destruct b as [[] [] [] [] [] [] [] []]; vm_compute; intros H;
    first [reflexivity|discriminate].
Qed.

Lemma lower_char_dash (b : ascii) :
  Str.lower_char b = "-"%char -> b = "-"%char.
Proof.
  destruct b as [[] [] [] [] [] [] [] []]; vm_compute; intros H;
    first [reflexivity|discriminate].
Qed.

(** A literal matched without regard to case needs its dots and dashes in
    the text. *)
Lemma literal_needs_its_chars (t s s' : string) :
  Str.drop_prefix_ci t s = Some s' ->
  Str.all_chars no_dot_or_dash s = true -> Str.all_chars no_dot_or_dash t = true.
Proof.
  revert s. induction t as [|a t IH]; intros s; [done|].
  destruct s as [|b s]; [discriminate|]. simpl.
  destruct (Ascii.eqb (Str.lower_char a) (Str.lower_char b)) eqn:Hab; [|discriminate].
  apply Ascii.eqb_eq in Hab.
  intros Hrest [Hb Hs]%andb_true_iff. rewrite (IH _ Hrest Hs), andb_true_r.
  unfold no_dot_or_dash in *. apply andb_true_iff in Hb as [Hdot Hdash].
  apply andb_true_iff. split; apply negb_true_iff, Ascii.eqb_neq; intros ->.
  - symmetry in Hab. apply lower_char_dot in Hab. subst b. discriminate.
  - symmetry in Hab. apply lower_char_dash in Hab. subst b. discriminate.
Qed.

(** A pattern that starts with a literal holding a dot or a dash finds
    nothing in a text without dots and dashes. *)
Lemma dotted_pattern_is_dead (t : string) (r : Re.regex) (s : string) :
  Str.all_chars no_dot_or_dash t = false ->
  Str.all_chars no_dot_or_dash s = true ->
  Re.sub true (Re.Lit t :: r) "" s = s.
Proof.
  intros Ht. apply sub_no_match. intros u Hu. cbn [Re.match_here].
  destruct (Str.drop_prefix_ci t u) as [u'|] eqn:Hd; [|reflexivity].
  rewrite (literal_needs_its_chars _ _ _ Hd Hu) in Ht. discriminate.
Qed.

Lemma clean_no_dot_or_dash (c : ascii) : clean c = true -> no_dot_or_dash c = true.
Proof.
  destruct c as [[] [] [] [] [] [] [] []]; vm_compute; intros H;
    first [reflexivity|discriminate].
Qed.

Lemma clean_lower (c : ascii) : clean c = true -> clean (Str.lower_char c) = true.
Proof.
  destruct c as [[] [] [] [] [] [] [] []]; vm_compute; intros H;
    first [reflexivity|discriminate].
Qed.

Lemma all_chars_lower (s : string) :
  Str.all_chars clean s = true -> Str.all_chars clean (Str.lower s) = true.
Proof.
  induction s as [|c s IH]; simpl; [done|].
  intros [Hc Hs]%andb_true_iff. rewrite (clean_lower c Hc). now apply IH.
Qed.

Lemma all_chars_lstrip (q : ascii -> bool) (s : string) :
  Str.all_chars q s = true -> Str.all_chars q (Str.lstrip s) = true.
Proof.
  induction s as [|c s IH]; simpl; [done|].
  intros Hs. destruct (Str.is_space c); [|exact Hs].
  apply andb_true_iff in Hs as [_ Hs]. now apply IH.
Qed.

Lemma all_chars_rstrip (q : ascii -> bool) (s : string) :
  Str.all_chars q s = true -> Str.all_chars q (Str.rstrip s) = true.
Proof.
  induction s as [|c s IH]; simpl; [done|].
  intros [Hc Hs]%andb_true_iff. specialize (IH Hs).
  destruct (Str.rstrip s) as [|c' r].
  - destruct (Str.is_space c); simpl; [done|]. now rewrite Hc.
  - simpl in *. now rewrite Hc.
Qed.

(** X5.  In [normalize_artist_name] the patterns "G.E.M", "A-Mei",
    "feat. ..." and "ft. ..." never remove anything: the first step
    replaces every run of dots, dashes, underscores, percent signs and
    white space by one blank, so no text is left for them to match.  The
    result is the same as with the other five patterns alone, and it
    holds no separator character except the blank. *)
Theorem dotted_artist_patterns_never_apply (artist : string) :
  normalize_artist_name artist = normalize_artist_name_live artist /\
  Str.all_chars clean (normalize_artist_name artist) = true.
Proof.
  unfold normalize_artist_name, normalize_artist_name_live, remove_patterns,
    live_patterns.
  cbn [fold_left].
  set (s0 := Re.sub false [Re.Plus artist_separators] " " artist).
  assert (Hclean0 : Str.all_chars clean s0 = true) by apply sub_separators_clean.
  set (s1 := Re.sub true [Re.Lit "邓紫棋"; Re.End] "" s0).
  assert (Hclean1 : Str.all_chars clean s1 = true)
    by (apply sub_delete_keeps, Hclean0).
  rewrite (dotted_pattern_is_dead "G.E.M" [Re.End] s1)
    by (first [reflexivity|eapply all_chars_impl; [apply clean_no_dot_or_dash|exact Hclean1]]).
  set (s2 := Re.sub true [Re.Lit "阿妹"; Re.End] "" s1).
  assert (Hclean2 : Str.all_chars clean s2 = true)
    by (apply sub_delete_keeps, Hclean1).
  assert (Hq2 : Str.all_chars no_dot_or_dash s2 = true)
    by (eapply all_chars_impl; [apply clean_no_dot_or_dash|exact Hclean2]).
  rewrite (dotted_pattern_is_dead "A-Mei" [Re.End] s2) by (first [reflexivity|exact Hq2]).
  rewrite (dotted_pattern_is_dead "feat." [Re.Plus Re.dot; Re.End] s2)
    by (first [reflexivity|exact Hq2]).
  rewrite (dotted_pattern_is_dead "ft." [Re.Plus Re.dot; Re.End] s2)
    by (first [reflexivity|exact Hq2]).
  split; [reflexivity|].
  apply all_chars_lower. unfold Str.strip.
  apply all_chars_rstrip, all_chars_lstrip.
  do 3 apply sub_delete_keeps. exact Hclean2.
Qed.

End ParsingMore.

(** ** Saving, loading and removing an index *)

Module IndexMore.
Import FileIndexM IndexRef Stated.

Lemma refresh_entry_some (w : World) (e e' : index_entry) :
  refresh_entry w e = Some e' ->
  exists p stats sz,
    e_path e = Some p /\ w_stat w p = Some stats /\ e_size e = Some sz /\
    e' = {| e_path := Some p; e_size := Some sz; e_mtime := Some (st_mtime stats) |}.
Proof.
  unfold refresh_entry.
  destruct (e_path e) as [p|]; [|discriminate].
  destruct (w_stat w p) as [stats|] eqn:Hst; [|discriminate].
  destruct (e_size e) as [sz|]; [|discriminate].
  intros Heq. inversion Heq. exists p, stats, sz. done.
Qed.

(** A record written by [save_index] passes the validation of
    [load_index] when the size it carries is the size of its file. *)
Lemma refreshed_is_valid (w : World) (e e' : index_entry) :
  refresh_entry w e = Some e' ->
  (forall p stats, e_path e = Some p -> w_stat w p = Some stats ->
                   e_size e = Some (st_size stats)) ->
  check_entry w e' = Valid.
Proof.
  intros (p & stats & sz & Hp & Hst & Hsz & ->)%refresh_entry_some Hlive.
  specialize (Hlive p stats Hp Hst). rewrite Hsz in Hlive. inversion Hlive; subst.
  unfold check_entry. simpl. rewrite Hst.
  rewrite bool_decide_eq_true_2 by done.
  rewrite Z.sub_diag. reflexivity.
Qed.

Lemma all_valid (w : World) (l : list index_entry) :
  (forall e, e ∈ l -> check_entry w e = Valid) ->
  valid_of w l = l /\ invalid_of w l = [].
Proof.
  unfold valid_of, invalid_of, is_valid.
  induction l as [|e l IH]; intros Hall; [done|].
  destruct IH as [IH1 IH2].
  { intros e' He'. apply Hall. now apply list_elem_of_further. }
  pose proof (Hall e (list_elem_of_here _ _)) as He.
  split.
  - cbn [List.filter]. rewrite He. now rewrite IH1.
  - cbn [omap list_omap]. rewrite He. exact IH2.
Qed.

Lemma saved_all_valid (w : World) (files : list index_entry) :
  sizes_are_live w files ->
  forall e', e' ∈ omap (refresh_entry w) files -> check_entry w e' = Valid.
Proof.
  intros Hlive e' (e & He & Hre)%list_elem_of_omap.
  apply (refreshed_is_valid w e e' Hre). intros p stats. now apply Hlive.
Qed.

Lemma valid_sizes_are_live (w : World) (files : list index_entry) :
  sizes_are_live w (valid_of w files).
Proof.
  intros e p stats [_ Hv]%IndexFacts.valid_of_elem Hp Hst.
  apply IndexFacts.is_valid_spec in Hv as (p' & stats' & Hp' & Hst' & Hsz & _).
  congruence.
Qed.

Lemma day_is_positive : 0 <= 24 * (3600 * second).
Proof. unfold second. lia. Qed.

(** Loading what has just been written. *)
Lemma load_saved (w : World) (st : store) (root_dir : string)
    (files : list index_entry) :
  sizes_are_live w files ->
  omap (refresh_entry w) files <> [] ->
  load_index w (save_index w st root_dir files) root_dir
  = (Some (omap (refresh_entry w) files, w_now w), save_index w st root_dir files).
Proof.
  intros Hlive Hne.
  rewrite (IndexFacts.save_index_writes w st root_dir files Hne).
  rewrite (IndexFacts.load_index_document w _ root_dir root_dir (w_now w)
             (omap (refresh_entry w) files)).
  - destruct (all_valid w _ (saved_all_valid w files Hlive)) as [-> ->].
    now destruct (omap (refresh_entry w) files).
  - now rewrite lookup_insert_eq.
  - rewrite Z.sub_diag. apply day_is_positive.
Qed.

(** [save_index] writes a record for each record whose file exists. *)
Lemma refresh_keeps_existing (w : World) (files : list index_entry) :
  sizes_are_live w files ->
  map entry_id (omap (refresh_entry w) files)
  = map entry_id
      (List.filter (fun e => bool_decide (is_Some (e_path e ≫= w_stat w))) files).
Proof.
  induction files as [|e files IH]; intros Hlive; [done|].
  assert (Hrest : sizes_are_live w files).
  { intros e' p stats He'. apply Hlive. now apply list_elem_of_further. }
  specialize (IH Hrest).
  destruct (e_path e) as [p|] eqn:Hp.
  - destruct (w_stat w p) as [stats|] eqn:Hst.
    + pose proof (Hlive e p stats (list_elem_of_here _ _) Hp Hst) as Hsz.
      assert (Hre : refresh_entry w e
                    = Some {| e_path := Some p; e_size := Some (st_size stats);
                              e_mtime := Some (st_mtime stats) |})
        by (unfold refresh_entry; now rewrite Hp, Hst, Hsz).
      assert (Hb : bool_decide (is_Some (e_path e ≫= w_stat w)) = true)
        by (apply bool_decide_eq_true; rewrite Hp; simpl; rewrite Hst; eauto).
      cbn [omap list_omap List.filter]. rewrite Hre, Hb. cbn [map].
      rewrite IH. f_equal.
      unfold entry_id. simpl. now rewrite Hp, Hsz.
    + assert (Hre : refresh_entry w e = None)
        by (unfold refresh_entry; now rewrite Hp, Hst).
      assert (Hb : bool_decide (is_Some (e_path e ≫= w_stat w)) = false)
        by (apply bool_decide_eq_false; rewrite Hp; simpl; rewrite Hst;
            intros [? ?]; discriminate).
      cbn [omap list_omap List.filter]. now rewrite Hre, Hb.
  - assert (Hre : refresh_entry w e = None)
      by (unfold refresh_entry; now rewrite Hp).
    assert (Hb : bool_decide (is_Some (e_path e ≫= w_stat w)) = false)
      by (apply bool_decide_eq_false; rewrite Hp; simpl; intros [? ?]; discriminate).
    cbn [omap list_omap List.filter]. now rewrite Hre, Hb.
Qed.



(** the directory after a load is the directory before it, or what a
    save of the valid records makes of it *)
Lemma load_index_store (w : World) (st : store) (root_dir : string) :
  snd (load_index w st root_dir) = st \/
  exists files,
    snd (load_index w st root_dir) = save_index w st root_dir files.
Proof.
  unfold load_index.
  destruct (st !! get_index_path w root_dir) as [[|rd [ts|] files]|]; try (now left).
  destruct (_ <? _); [now left|].
  destruct files as [files|]; [|now left].
  destruct (invalid_of w files).
  - left. now destruct (valid_of w files).
  - right. exists (valid_of w files). now destruct (valid_of w files).
Qed.

Lemma save_index_frame (w : World) (st : store) (root_dir : string)
    (files : list index_entry) (k : string) :
  k <> get_index_path w root_dir -> k <> temp_path_of w root_dir ->
  save_index w st root_dir files !! k = st !! k.
Proof.
  intros Hidx Htmp.
  destruct (decide (omap (refresh_entry w) files = [])) as [Hnil|Hne].
  - now rewrite IndexFacts.save_index_nothing.
  - rewrite IndexFacts.save_index_writes by done.
    rewrite lookup_insert_ne by done. now rewrite lookup_delete_ne.
Qed.

(** X7.  A second [load_index] in the same world changes nothing: the
    index directory is left as the first load left it; when the first
    load was a miss so is the second, and when the first load returned
    records the second returns records with the same paths and sizes (the
    validation and the compaction of the first load are not repeated). *)
Theorem second_load_changes_nothing (w : World) (st : store) (root_dir : string) :
  snd (load_index w (snd (load_index w st root_dir)) root_dir)
    = snd (load_index w st root_dir) /\
  (fst (load_index w st root_dir) = None ->
   fst (load_index w (snd (load_index w st root_dir)) root_dir) = None) /\
  (forall l ts,
      fst (load_index w st root_dir) = Some (l, ts) ->
      exists l' ts',
        fst (load_index w (snd (load_index w st root_dir)) root_dir) = Some (l', ts') /\
        map entry_id l' = map entry_id l).
Proof.
  assert (Hsame : snd (load_index w st root_dir) = st ->
    snd (load_index w (snd (load_index w st root_dir)) root_dir)
      = snd (load_index w st root_dir) /\
    (fst (load_index w st root_dir) = None ->
     fst (load_index w (snd (load_index w st root_dir)) root_dir) = None) /\
    (forall l ts,
        fst (load_index w st root_dir) = Some (l, ts) ->
        exists l' ts',
          fst (load_index w (snd (load_index w st root_dir)) root_dir) = Some (l', ts') /\
          map entry_id l' = map entry_id l)).
  { intros Heq. rewrite !Heq. split; [done|]. split; [done|]. intros l ts Hl. eauto. }
  destruct (st !! get_index_path w root_dir) as [[|rd [ts|] [files|]]|] eqn:Hst;
    try (apply Hsame; unfold load_index; rewrite Hst; try done;
         now destruct (_ <? _)).
  destruct (24 * (3600 * second) <? w_now w - ts) eqn:Hage.
  { apply Hsame. unfold load_index. now rewrite Hst, Hage. }
  apply Z.ltb_ge in Hage.
  pose proof (IndexFacts.load_index_document w st root_dir rd ts files Hst Hage) as Hload.
  destruct (invalid_of w files) as [|q qs] eqn:Hinv.
  { apply Hsame. now rewrite Hload. }
  destruct (decide (omap (refresh_entry w) (valid_of w files) = [])) as [Hnil|Hne].
  { apply Hsame. rewrite Hload. simpl. now apply IndexFacts.save_index_nothing. }
  assert (Hvalid : valid_of w files <> []).
  { intros Hv. rewrite Hv in Hne. done. }
  rewrite Hload. cbn [fst snd].
  rewrite (load_saved w st root_dir (valid_of w files)
             (valid_sizes_are_live w files) Hne).
  split; [done|]. split.
  - now destruct (valid_of w files).
  - intros l ts' Hl. destruct (valid_of w files) as [|v vs] eqn:Hv; [done|].
    inversion Hl; subst. eexists _, _. split; [reflexivity|].
    rewrite <- Hv. apply IndexFacts.refresh_valid_of.
Qed.

Lemma second_load_changes_nothing_witness :
  fst (load_index Scenarios.gone_world
         (Scenarios.half_stale_index Scenarios.gone_world) "/m")
    = Some ([Scenarios.entry "/m/kept.mp3" 3000000 100], Scenarios.secs 300) /\
  exists l' ts',
    fst (load_index Scenarios.gone_world
           (snd (load_index Scenarios.gone_world
                   (Scenarios.half_stale_index Scenarios.gone_world) "/m")) "/m")
      = Some (l', ts') /\
    map entry_id l' = map entry_id [Scenarios.entry "/m/kept.mp3" 3000000 100].
Proof.
  assert (Hfirst :
    fst (load_index Scenarios.gone_world
           (Scenarios.half_stale_index Scenarios.gone_world) "/m")
      = Some ([Scenarios.entry "/m/kept.mp3" 3000000 100], Scenarios.secs 300))
    by (vm_compute; reflexivity).
  split; [exact Hfirst|].
  destruct (second_load_changes_nothing Scenarios.gone_world
              (Scenarios.half_stale_index Scenarios.gone_world) "/m") as (_ & _ & Hsome).
  exact (Hsome _ _ Hfirst).
Defined.

(** X8.  [save_index], [load_index] and [remove_index] of a root touch
    the index file of that root and its temporary file only: every other
    file of the index directory is as it was; and a save that wrote
    something leaves no temporary file behind. *)
Theorem index_calls_touch_one_file (w : World) (st : store) (root_dir : string)
    (files : list index_entry) (k : string) :
  k <> get_index_path w root_dir -> k <> temp_path_of w root_dir ->
  save_index w st root_dir files !! k = st !! k /\
  snd (load_index w st root_dir) !! k = st !! k /\
  remove_index w st root_dir !! k = st !! k /\
  (save_index w st root_dir files <> st ->
   save_index w st root_dir files !! temp_path_of w root_dir = None).
Proof.
  intros Hidx Htmp. split; [now apply save_index_frame|]. split; [|split].
  - destruct (load_index_store w st root_dir) as [->|[valid ->]]; [done|].
    now apply save_index_frame.
  - unfold remove_index. now rewrite lookup_delete_ne.
  - intros Hchanged.
    destruct (decide (omap (refresh_entry w) files = [])) as [Hnil|Hne].
    + destruct Hchanged. now apply IndexFacts.save_index_nothing.
    + rewrite IndexFacts.save_index_writes by done.
      rewrite lookup_insert_ne by (apply not_eq_sym, IndexFacts.temp_path_differs).
      now rewrite lookup_delete_eq.
Qed.

Lemma index_calls_touch_one_file_witness :
  snd (load_index Scenarios.gone_world
         (<["/elsewhere.json" := Malformed]>
            (Scenarios.half_stale_index Scenarios.gone_world)) "/m") !! "/elsewhere.json"
  = Some Malformed.
Proof.
  destruct (index_calls_touch_one_file Scenarios.gone_world
              (<["/elsewhere.json" := Malformed]>
                 (Scenarios.half_stale_index Scenarios.gone_world)) "/m" []
              "/elsewhere.json") as (_ & Hload & _).
  - vm_compute. discriminate.
  - vm_compute. discriminate.
  - rewrite Hload. reflexivity.
Defined.

(** X9.  After [remove_index] a load of the root is a miss that leaves
    the directory alone, whatever the index file held; and on a directory
    that held neither the index file nor the temporary file of the root,
    saving and then removing gives the directory back as it was. *)
Theorem removed_index_is_a_miss (w : World) (st : store) (root_dir : string)
    (files : list index_entry) :
  load_index w (remove_index w st root_dir) root_dir
    = (None, remove_index w st root_dir) /\
  (st !! get_index_path w root_dir = None ->
   st !! temp_path_of w root_dir = None ->
   remove_index w (save_index w st root_dir files) root_dir = st).
Proof.
  split.
  - unfold load_index, remove_index. now rewrite lookup_delete_eq.
  - intros Hidx Htmp. unfold remove_index.
    destruct (decide (omap (refresh_entry w) files = [])) as [Hnil|Hne].
    + rewrite IndexFacts.save_index_nothing by done. now apply delete_id.
    + rewrite IndexFacts.save_index_writes by done.
      rewrite delete_insert_eq. rewrite delete_id; [now apply delete_id|].
      now rewrite lookup_delete_ne by apply IndexFacts.temp_path_differs.
Qed.

Lemma removed_index_is_a_miss_witness :
  remove_index Scenarios.gone_world
    (save_index Scenarios.gone_world ∅ "/m" [Scenarios.entry "/m/kept.mp3" 3000000 100])
    "/m" = ∅.
Proof.
  destruct (removed_index_is_a_miss Scenarios.gone_world ∅ "/m"
              [Scenarios.entry "/m/kept.mp3" 3000000 100]) as [_ Hback].
  apply Hback; apply lookup_empty.
Defined.

End IndexMore.

(** ** More on the scan *)

Module ScanMore.
Import FileInfoM FileIndexM MusicFinderM Stated ScanRef.

(** *** The equations of the walk *)

Section WalkEquations.
Variable w : World.
Variable root_dir : string.
Variable index_time : option Z.
Variable known : gset string.
Variable max_depth : Z.
Variable min_size_bytes : Z.

Lemma walk_listing (depth : nat) (root : string) (files : list string)
    (dirs : dir_forest) :
  walk w root_dir index_time known max_depth min_size_bytes depth root
       (Listing files dirs)
  = if negb (should_scan_dir w root_dir index_time root) then []
    else if (0 <? max_depth) && negb (Nat.eqb depth 0)
            && (max_depth <? Z.of_nat depth) then []
    else (omap (scan_file w known min_size_bytes root) files
          ++ walk_dirs w root_dir index_time known max_depth min_size_bytes
                       (S depth) root dirs)%list.
Proof. reflexivity. Qed.

Lemma walk_dirs_subdir (depth : nat) (root name : string) (t : dir_tree)
    (rest : dir_forest) :
  walk_dirs w root_dir index_time known max_depth min_size_bytes depth root
            (SubDir name t rest)
  = (walk w root_dir index_time known max_depth min_size_bytes depth
          (PosixPath.join root name) t
     ++ walk_dirs w root_dir index_time known max_depth min_size_bytes
                  depth root rest)%list.
Proof. reflexivity. Qed.
End WalkEquations.

(** *** The walk without an index *)

Lemma join_empty (p : string) : PosixPath.join "" p = p.
Proof. unfold PosixPath.join. now destruct (Str.startswith p _). Qed.

Section ColdWalk.
Variable w : World.
Variable root_dir : string.
Variable known : gset string.
Variable max_depth : Z.
Variable min_size_bytes : Z.

Lemma scan_file_joined (root file : string) :
  scan_file w known min_size_bytes root file
  = scan_file w known min_size_bytes "" (PosixPath.join root file).
Proof. unfold scan_file. cbv zeta. now rewrite join_empty. Qed.

Lemma scan_files_joined (root : string) (files : list string) :
  omap (scan_file w known min_size_bytes root) files
  = omap (scan_file w known min_size_bytes "") (map (PosixPath.join root) files).
Proof.
  induction files as [|file files IH]; [done|].
  cbn [map omap list_omap]. now rewrite <- IH, <- scan_file_joined.
Qed.

Lemma cold_walk (t : dir_tree) :
  max_depth <= 0 ->
  forall depth root,
    walk w root_dir None known max_depth min_size_bytes depth root t
    = omap (scan_file w known min_size_bytes "") (tree_files root t).
Proof.
  intros Hmax.
  induction t using dir_tree_mut with
    (P0 := fun dirs => forall depth root,
               walk_dirs w root_dir None known max_depth min_size_bytes depth root dirs
               = omap (scan_file w known min_size_bytes "") (forest_files root dirs));
    intros depth root.
  - reflexivity.
  - rewrite walk_listing. cbn [should_scan_dir negb tree_files].
    replace (0 <? max_depth) with false by (symmetry; apply Z.ltb_ge; lia).
    cbn [andb]. now rewrite omap_app, IHt, scan_files_joined.
  - reflexivity.
  - rewrite walk_dirs_subdir. cbn [forest_files].
    now rewrite omap_app, IHt, IHt0.
Qed.
End ColdWalk.

Lemma scan_unknown (w : World) (min_size_bytes : Z) (paths : list string) :
  omap (scan_file w ∅ min_size_bytes "") paths
  = map (from_path w) (List.filter (wanted w min_size_bytes) paths).
Proof.
  induction paths as [|p paths IH]; [done|].
  cbn [omap list_omap List.filter]. rewrite IH.
  unfold scan_file, wanted. cbv zeta. rewrite join_empty.
  rewrite bool_decide_eq_false_2 by apply not_elem_of_empty.
  destruct (recognized p); cbn [negb andb]; [|done].
  destruct (w_stat w p) as [stats|] eqn:Hst; [|done].
  rewrite Z.leb_antisym. destruct (st_size stats <? min_size_bytes); cbn [negb]; [done|].
  assert (Hex : exists_ (from_path w p) = true)
    by (apply ScanFacts.from_path_exists; eauto).
  now rewrite Hex.
Qed.



(** *** The depth limit *)

Section DepthLimit.
Variable w : World.
Variable root_dir : string.
Variable index_time : option Z.
Variable known : gset string.
Variable min_size_bytes : Z.
Variable limit : nat.
Hypothesis limit_set : (0 < limit)%nat.

Lemma walk_too_deep (t : dir_tree) (depth : nat) (root : string) :
  (limit < depth)%nat ->
  walk w root_dir index_time known (Z.of_nat limit) min_size_bytes depth root t = [].
Proof.
  intros Hdeep. destruct t as [|files dirs]; [done|]. rewrite walk_listing.
  destruct (negb _); [done|].
  replace (0 <? Z.of_nat limit) with true by (symmetry; apply Z.ltb_lt; lia).
  replace (Nat.eqb depth 0) with false by (symmetry; apply Nat.eqb_neq; lia).
  replace (Z.of_nat limit <? Z.of_nat depth) with true
    by (symmetry; apply Z.ltb_lt; lia).
  reflexivity.
Qed.

Lemma walk_dirs_too_deep (dirs : dir_forest) (depth : nat) (root : string) :
  (limit < depth)%nat ->
  walk_dirs w root_dir index_time known (Z.of_nat limit) min_size_bytes depth root dirs
  = [].
Proof.
  intros Hdeep. induction dirs as [|name t rest IH]; [done|].
  now rewrite walk_dirs_subdir, walk_too_deep, IH.
Qed.

Lemma walk_limited (t : dir_tree) :
  forall depth root,
    (depth <= limit)%nat ->
    walk w root_dir index_time known (Z.of_nat limit) min_size_bytes depth root t
    = walk w root_dir index_time known 0 min_size_bytes depth root
           (prune (limit - depth) t).
Proof.
  induction t using dir_tree_mut with
    (P0 := fun dirs => forall depth root,
               (depth <= limit)%nat ->
               walk_dirs w root_dir index_time known (Z.of_nat limit)
                         min_size_bytes depth root dirs
               = walk_dirs w root_dir index_time known 0 min_size_bytes depth root
                           (prune_forest (limit - depth) dirs));
    intros depth root Hdepth.
  - reflexivity.
  - cbn [prune]. rewrite !walk_listing.
    destruct (negb _); [done|].
    replace (Z.of_nat limit <? Z.of_nat depth) with false
      by (symmetry; apply Z.ltb_ge; lia).
    rewrite andb_false_r. cbn [Z.ltb Z.compare andb]. f_equal.
    destruct (limit - depth)%nat as [|n] eqn:Hn.
    + apply walk_dirs_too_deep. lia.
    + replace n with (limit - S depth)%nat by lia. apply IHt. lia.
  - reflexivity.
  - cbn [prune_forest]. rewrite !walk_dirs_subdir.
    now rewrite IHt, IHt0.
Qed.
End DepthLimit.

(** X11.  With a depth limit [max_depth > 0] the walk is the walk without
    a limit over the tree cut below the directories that lie [max_depth]
    levels under the root: the files of the root and of the directories
    down to that level are examined, and nothing below them is. *)
Theorem depth_limit_cuts_the_tree (w : World) (st : store) (root_dir : string)
    (max_depth min_size_mb : Z) :
  0 < max_depth ->
  let s := collect_files w st root_dir max_depth min_size_mb in
  new_files s
  = walk w root_dir (snd <$> index_result s) (known_files s) 0
         (min_size_mb * 1024 * 1024) 0 root_dir
         (prune (Z.to_nat max_depth) (w_walk w root_dir)).
Proof.
  intros Hmax. cbv zeta. unfold collect_files.
  destruct (load_index w st root_dir) as [r st'].
  destruct (match r with
            | Some (indexed_files, _) => rehydrate w indexed_files
            | None => ([], ∅)
            end) as [cached known].
  cbn [new_files index_result known_files].
  replace max_depth with (Z.of_nat (Z.to_nat max_depth)) at 1 by lia.
  rewrite walk_limited by lia. now rewrite Nat.sub_0_r.
Qed.

Lemma depth_limit_cuts_the_tree_witness :
  all_files (collect_files Scenarios3.deep_world ∅ "/m" 1 1)
  = map (from_path Scenarios3.deep_world) ["/m/top.mp3"; "/m/a/one.flac"].
Proof.
  pose proof (depth_limit_cuts_the_tree Scenarios3.deep_world ∅ "/m" 1 1) as Hnew.
  unfold all_files. rewrite Hnew by lia. vm_compute. reflexivity.
Defined.

End ScanMore.

(** ** A scan with an index *)

Module WarmScan.
Import FileInfoM FileIndexM MusicFinderM Stated ScanRef IndexRef.

Lemma rsplit_char_length (ch : ascii) (s a b : string) :
  Str.rsplit_char ch s = Some (a, b) ->
  (String.length a + String.length b = String.length s)%nat.
Proof.
  revert a b. induction s as [|c s IH]; intros a b; cbn [Str.rsplit_char]; [discriminate|].
  destruct (Str.rsplit_char ch s) as [[a' b']|].
  - intros Heq. inversion Heq; subst. specialize (IH _ _ eq_refl). simpl. lia.
  - destruct (Ascii.eqb c ch); [|discriminate].
    intros Heq. inversion Heq; subst. simpl. lia.
Qed.

Lemma rstrip_char_length (ch : ascii) (s : string) :
  (String.length (Str.rstrip_char ch s) <= String.length s)%nat.
Proof.
  induction s as [|c s IH]; cbn [Str.rstrip_char]; [done|].
  destruct (Str.rstrip_char ch s) as [|c' r].
  - destruct (Ascii.eqb c ch); simpl; lia.
  - simpl in *. lia.
Qed.

(** The directory part of a path is not longer than the path. *)
Lemma dirname_length (p : string) :
  (String.length (PosixPath.dirname p) <= String.length p)%nat.
Proof.
  unfold PosixPath.dirname, PosixPath.cut.
  destruct (Str.rsplit_char PosixPath.sep p) as [[head tail]|] eqn:Hcut; cbn [fst].
  - apply rsplit_char_length in Hcut.
    destruct (Str.all_chars _ head); [lia|].
    pose proof (rstrip_char_length PosixPath.sep head). lia.
  - simpl. lia.
Qed.

Lemma drop_prefix_app (p s r : string) :
  Str.drop_prefix p s = Some r -> s = (p ++ r)%string.
Proof.
  revert s. induction p as [|a p IH]; intros s; cbn [Str.drop_prefix].
  - intros Heq. now inversion Heq.
  - destruct s as [|b s]; [discriminate|].
    destruct (Ascii.eqb a b) eqn:Hab; [|discriminate].
    apply Ascii.eqb_eq in Hab. subst b. intros Hrest.
    rewrite IndexFacts.append_cons. f_equal. now apply IH.
Qed.

(** A text that starts with a text not shorter than itself is that text. *)
Lemma startswith_longer (s p : string) :
  Str.startswith s p = true -> (String.length s <= String.length p)%nat -> s = p.
Proof.
  unfold Str.startswith.
  destruct (Str.drop_prefix p s) as [r|] eqn:Hdrop; [|discriminate].
  intros _ Hlen. apply drop_prefix_app in Hdrop. subst s.
  rewrite IndexFacts.append_length in Hlen.
  destruct r as [|c r]; [|simpl in Hlen; lia].
  clear Hlen. induction p as [|a p IH]; [done|].
  rewrite IndexFacts.append_cons. now f_equal.
Qed.

(** For the root itself the test of [should_scan_dir] only looks at the
    root: its parent does not start with it, unless it is the root. *)
Lemma should_scan_root (w : World) (root_dir : string) (ts : Z) :
  should_scan_dir w root_dir (Some ts) root_dir = (ts <? get_dir_mtime w root_dir).
Proof.
  unfold should_scan_dir.
  destruct (ts <? get_dir_mtime w root_dir) eqn:Hroot; [done|].
  destruct (negb _ && Str.startswith _ _) eqn:Hparent; [|done].
  apply andb_true_iff in Hparent as [_ Hstarts].
  apply startswith_longer in Hstarts; [|apply dirname_length].
  now rewrite Hstarts.
Qed.

(** With an index, nothing is walked below a root that is not newer than
    the index. *)
Lemma quiet_walk (w : World) (root_dir : string) (ts : Z) (known : gset string)
    (max_depth min_size_bytes : Z) (t : dir_tree) :
  get_dir_mtime w root_dir <= ts ->
  walk w root_dir (Some ts) known max_depth min_size_bytes 0 root_dir t = [].
Proof.
  intros Hquiet. destruct t as [|files dirs]; [done|].
  rewrite ScanMore.walk_listing, should_scan_root.
  replace (ts <? get_dir_mtime w root_dir) with false
    by (symmetry; apply Z.ltb_ge; lia).
  reflexivity.
Qed.

(** X12.  When an index was loaded and the root directory itself has not
    been modified after the time stamp of the index, the walk examines
    nothing: no directory below the root is visited, whatever was added
    there since, and the scan result is the rehydrated records alone. *)
Theorem unchanged_root_is_not_walked (w : World) (st : store) (root_dir : string)
    (max_depth min_size_mb : Z) (valid : list index_entry) (ts : Z) :
  fst (load_index w st root_dir) = Some (valid, ts) ->
  get_dir_mtime w root_dir <= ts ->
  let s := collect_files w st root_dir max_depth min_size_mb in
  new_files s = [] /\
  all_files s = cached_files s /\
  (forall fi, fi ∈ all_files s -> exists e, e ∈ valid /\ e_path e = Some (path fi)).
Proof.
  intros Hload Hquiet.
  destruct (ScanFacts.collect_files_loaded w st root_dir max_depth min_size_mb
              valid ts Hload) as (_ & _ & _ & Hnew).
  destruct (ScanFacts.loaded_scan_parts w st root_dir max_depth min_size_mb
              valid ts Hload) as (_ & _ & Hcached & _).
  cbv zeta in *.
  assert (Hnone : new_files (collect_files w st root_dir max_depth min_size_mb) = []).
  { rewrite Hnew. now apply quiet_walk. }
  assert (Hall : all_files (collect_files w st root_dir max_depth min_size_mb)
                 = cached_files (collect_files w st root_dir max_depth min_size_mb)).
  { unfold all_files. rewrite Hnone. apply app_nil_r. }
  split; [exact Hnone|]. split; [exact Hall|].
  intros fi Hfi. rewrite Hall in Hfi.
  destruct (Hcached fi Hfi) as (e & He & (Hp & _) & _). eauto.
Qed.

Lemma unchanged_root_is_not_walked_witness :
  "/m/sub/new.mp3"
    ∈ List.filter (wanted Scenarios3.quiet_root_world 0)
        (tree_files "/m" (w_walk Scenarios3.quiet_root_world "/m")) /\
  all_files (collect_files Scenarios3.quiet_root_world
               (Scenarios3.quiet_root_index Scenarios3.quiet_root_world) "/m" 0 0)
  = [from_path Scenarios3.quiet_root_world "/m/a.mp3"].
Proof.
  split; [vm_compute; apply list_elem_of_further, list_elem_of_here|].
  destruct (unchanged_root_is_not_walked Scenarios3.quiet_root_world
              (Scenarios3.quiet_root_index Scenarios3.quiet_root_world) "/m" 0 0
              [Scenarios.entry "/m/a.mp3" 5000000 100] (Scenarios.secs 300))
    as (_ & Hall & _).
  - vm_compute. reflexivity.
  - vm_compute. discriminate.
  - rewrite Hall. vm_compute. reflexivity.
Defined.

(** *** The index a scan leaves *)

(** Every record of a scan is the live record of a file that exists. *)
Lemma all_files_live (w : World) (st : store) (root_dir : string)
    (max_depth min_size_mb : Z) (fi : FileInfo) :
  fi ∈ all_files (collect_files w st root_dir max_depth min_size_mb) ->
  fi = from_path w (path fi) /\ exists_ fi = true.
Proof.
  destruct (fst (load_index w st root_dir)) as [[valid ts]|] eqn:Hload.
  - destruct (ScanFacts.loaded_scan_parts w st root_dir max_depth min_size_mb
                valid ts Hload) as (-> & _ & Hcached & _ & Hnew).
    intros [Hin|Hin]%elem_of_app.
    + now destruct (Hcached fi Hin) as (_ & _ & _ & ? & ?).
    + now destruct (Hnew fi Hin) as (? & ? & _).
  - destruct (ScanFacts.collect_files_cold w st root_dir max_depth min_size_mb Hload)
      as (_ & Hcached & _ & Hnew).
    unfold all_files. rewrite Hcached, Hnew. cbn [app]. intros Hin.
    now destruct (ScanFacts.walk_found _ _ _ _ _ _ _ _ _ _ Hin) as (? & ? & _).
Qed.

Lemma live_record (w : World) (fi : FileInfo) :
  fi = from_path w (path fi) -> exists_ fi = true ->
  exists stats,
    w_stat w (path fi) = Some stats /\ size_bytes fi = st_size stats /\
    record_of w fi = {| e_path := Some (path fi); e_size := Some (st_size stats);
                        e_mtime := Some (st_mtime stats) |}.
Proof.
  intros Hfi Hex. rewrite Hfi in Hex.
  apply ScanFacts.from_path_exists in Hex as [stats Hst].
  exists stats. split; [done|].
  assert (Hsz : size_bytes fi = st_size stats)
    by (rewrite Hfi; now apply ScanFacts.from_path_size).
  split; [done|]. unfold record_of. now rewrite Hst, Hsz.
Qed.

Lemma index_data_live (w : World) (files : list FileInfo) :
  (forall fi, fi ∈ files -> fi = from_path w (path fi) /\ exists_ fi = true) ->
  index_data_of w files = map (record_of w) files /\
  omap (refresh_entry w) (map (record_of w) files) = map (record_of w) files /\
  sizes_are_live w (map (record_of w) files).
Proof.
  intros Hlive. split; [|split].
  - unfold index_data_of. induction files as [|fi files IH]; [done|].
    destruct (Hlive fi (list_elem_of_here _ _)) as [Hfi Hex].
    destruct (live_record w fi Hfi Hex) as (stats & Hst & Hsz & Hrec).
    cbn [omap list_omap map]. rewrite Hst, Hrec, Hsz. f_equal.
    apply IH. intros fi' Hfi'. apply Hlive. now apply list_elem_of_further.
  - induction files as [|fi files IH]; [done|].
    destruct (Hlive fi (list_elem_of_here _ _)) as [Hfi Hex].
    destruct (live_record w fi Hfi Hex) as (stats & Hst & Hsz & Hrec).
    cbn [omap list_omap map]. rewrite Hrec at 1.
    unfold refresh_entry at 1. cbn [e_path e_size]. rewrite Hst.
    rewrite <- Hrec. f_equal.
    apply IH. intros fi' Hfi'. apply Hlive. now apply list_elem_of_further.
  - intros e p stats (fi & -> & Hfi)%list_elem_of_fmap Hp Hst.
    destruct (Hlive fi Hfi) as [Hrec Hex].
    destruct (live_record w fi Hrec Hex) as (stats' & Hst' & Hsz & _).
    simpl in Hp. inversion Hp; subst p. simpl. congruence.
Qed.

(** The index directory after a scan that found new files, and what a
    load then returns. *)
Lemma scan_leaves_index (w : World) (st : store)
    (directory : string) (method : DuplicateCheckMethod) (max_depth min_size_mb : Z) :
  w_index_dir_ok w = true ->
  new_files (collect_files w st (normalize_path directory) max_depth min_size_mb) <> [] ->
  let root_dir := normalize_path directory in
  let s := collect_files w st root_dir max_depth min_size_mb in
  let st' := snd (find_duplicates w st directory method max_depth min_size_mb) in
  st' !! get_index_path w root_dir
    = Some (Document root_dir (Some (w_now w)) (Some (map (record_of w) (all_files s)))) /\
  load_index w st' root_dir = (Some (map (record_of w) (all_files s), w_now w), st').
Proof.
  intros Hok Hnew. cbv zeta.
  set (root_dir := normalize_path directory) in *.
  set (s := collect_files w st root_dir max_depth min_size_mb) in *.
  destruct (index_data_live w (all_files s)) as (Hdata & Hrefresh & Hlive).
  { intros fi Hfi. eapply all_files_live, Hfi. }
  assert (Hsome : all_files s <> []).
  { unfold all_files. destruct (new_files s); [done|]. now destruct (cached_files s). }
  assert (Hne : omap (refresh_entry w) (map (record_of w) (all_files s)) <> []).
  { rewrite Hrefresh. now destruct (all_files s). }
  assert (Hst : snd (find_duplicates w st directory method max_depth min_size_mb)
                = save_index w (scan_store s) root_dir (map (record_of w) (all_files s))).
  { unfold find_duplicates, FileIndex_init. rewrite Hok. cbn [snd].
    fold root_dir. fold s. unfold refresh_index, new_files_count.
    replace (0 <? List.length (new_files s))%nat with true
      by (symmetry; apply Nat.ltb_lt; destruct (new_files s); [done|simpl; lia]).
    cbn [orb]. rewrite Hdata.
    destruct (map (record_of w) (all_files s)) eqn:Hmap; [|done].
    now destruct (all_files s). }
  rewrite Hst. split.
  - rewrite IndexFacts.save_index_writes by done.
    now rewrite lookup_insert_eq, Hrefresh.
  - rewrite IndexMore.load_saved by done. now rewrite Hrefresh.
Qed.



(** *** A scan right after a scan *)

Lemma rehydrate_step_record (w : World) (fi : FileInfo)
    (acc : list FileInfo) (known : gset string) :
  fi = from_path w (path fi) -> exists_ fi = true ->
  fst (rehydrate_step w (acc, known) (record_of w fi))
  = (acc ++ if stays w fi then [fi] else [])%list.
Proof.
  intros Hfi Hex. unfold rehydrate_step, stays, record_of. cbn [e_path e_mtime].
  destruct (String.eqb (PosixPath.dirname (path fi)) ""); cbn [negb andb fst];
    [now rewrite app_nil_r|].
  destruct (_ <? _); cbn [negb fst]; [now rewrite app_nil_r|].
  rewrite <- Hfi, Hex. reflexivity.
Qed.

Lemma rehydrate_records (w : World) (files : list FileInfo) :
  (forall fi, fi ∈ files -> fi = from_path w (path fi) /\ exists_ fi = true) ->
  forall acc known,
    fst (fold_left (rehydrate_step w) (map (record_of w) files) (acc, known))
    = (acc ++ List.filter (stays w) files)%list.
Proof.
  induction files as [|fi files IH]; intros Hlive acc known.
  - cbn. now rewrite app_nil_r.
  - destruct (Hlive fi (list_elem_of_here _ _)) as [Hfi Hex].
    cbn [map fold_left List.filter].
    pose proof (rehydrate_step_record w fi acc known Hfi Hex) as Hstep.
    destruct (rehydrate_step w (acc, known) (record_of w fi)) as [acc' known'].
    cbn [fst] in Hstep. subst acc'.
    rewrite IH by (intros fi' Hfi'; apply Hlive; now apply list_elem_of_further).
    rewrite <- app_assoc. now destruct (stays w fi).
Qed.



End WarmScan.

(** ** More on the automatic selection *)

Module FileTreeMore.
Import FileTree.

(** The rows gathered are the rows that are not excluded, each with its
    position. *)
Lemma collect_elem (s : settings) (rows : list tree_item) (j : nat) (f : file_entry) :
  f ∈ collect s j rows ->
  (j <= item f)%nat /\
  (exists row, rows !! (item f - j)%nat = Some row /\ text0 row = path f) /\
  existsb (fun excl_dir => Str.contains excl_dir (path f)) (exclude_dirs s) = false /\
  ext f = Str.lower (snd (PosixPath.splitext (path f))) /\
  priority f = default 999 (format_priority s !! ext f).
Proof.
  revert j. induction rows as [|row rows IH]; intros j; cbn [collect].
  - intros Hin. now apply elem_of_nil in Hin.
  - assert (Hnext : f ∈ collect s (S j) rows ->
              (j <= item f)%nat /\
              (exists row0, (row :: rows) !! (item f - j)%nat = Some row0 /\
                            text0 row0 = path f) /\
              existsb (fun excl_dir => Str.contains excl_dir (path f)) (exclude_dirs s)
                = false /\
              ext f = Str.lower (snd (PosixPath.splitext (path f))) /\
              priority f = default 999 (format_priority s !! ext f)).
    { intros Hin. destruct (IH _ Hin) as (Hj & (row0 & Hrow0 & Htext) & Hrest).
      split; [lia|]. split; [|exact Hrest]. exists row0. split; [|exact Htext].
      replace (item f - j)%nat with (S (item f - S j)) by lia. exact Hrow0. }
    destruct (existsb (fun excl_dir => Str.contains excl_dir (text0 row))
                      (exclude_dirs s)) eqn:Hex; [exact Hnext|].
    intros [->|Hin]%elem_of_cons; [|now apply Hnext].
    cbn [item path ext priority]. split; [lia|]. split.
    + exists row. split; [|done]. now rewrite Nat.sub_diag.
    + done.
Qed.

Lemma collect_NoDup (s : settings) (rows : list tree_item) (j : nat) :
  NoDup (collect s j rows).
Proof.
  revert j. induction rows as [|row rows IH]; intros j; cbn [collect].
  - constructor.
  - destruct (existsb _ (exclude_dirs s)); [apply IH|].
    apply NoDup_cons. split; [|apply IH].
    intros Hin. apply collect_elem in Hin as (Hj & _). cbn [item] in Hj. lia.
Qed.

(** Of a list without repetition the selection leaves out one element,
    which is least in the order of the sort key. *)
Lemma select_spares_the_first (s : settings) (files : list file_entry) :
  NoDup files -> files <> [] ->
  exists k,
    k ∈ files /\ (k ∉ _select_files_to_delete files s) /\
    (forall f, f ∈ _select_files_to_delete files s -> f ∈ files) /\
    (forall f, f ∈ files -> key_le (sort_key s k) (sort_key s f)).
Proof.
  intros Hnd Hne.
  destruct (FileTreeFacts.select_keeps_minimum_of_code_key s files Hne)
    as (k & _ & Hperm & _ & _ & Hmin & _).
  exists k. rewrite <- Hperm in Hnd. apply NoDup_cons in Hnd as [Hk _].
  split; [rewrite <- Hperm; apply list_elem_of_here|]. split; [exact Hk|].
  split; [|exact Hmin].
  intros f Hf. rewrite <- Hperm. now apply list_elem_of_further.
Qed.

Lemma filter_NoDup {A : Type} (p : A -> bool) (l : list A) :
  NoDup l -> NoDup (List.filter p l).
Proof.
  induction 1 as [|x l Hx Hnd IH]; cbn [List.filter]; [constructor|].
  destruct (p x); [|exact IH].
  apply NoDup_cons. split; [|exact IH].
  intros Hin. apply Hx. apply list_elem_of_In in Hin.
  apply filter_In in Hin as [Hin _]. now apply list_elem_of_In.
Qed.

(** X14.  The automatic selection never takes every copy.  A selected
    row is a row of the group that contains none of the excluded
    directories in its path; and for every selected row there is a row of
    the group that is not excluded and not selected and that the sort key
    does not rank after it: with "skip different names" set, a row with
    the same base name. *)
Theorem auto_select_spares_a_copy (s : settings) (rows : list tree_item)
    (f : file_entry) :
  f ∈ auto_select_group s rows ->
  (exists row, rows !! item f = Some row /\ text0 row = path f) /\
  existsb (fun excl_dir => Str.contains excl_dir (path f)) (exclude_dirs s) = false /\
  exists k,
    k ∈ collect s 0 rows /\ (k ∉ auto_select_group s rows) /\
    key_le (sort_key s k) (sort_key s f) /\
    (skip_different_names s = true -> base_name k = base_name f).
Proof.
  intros Hsel.
  pose proof (collect_NoDup s rows 0) as Hnd.
  assert (Hmember : f ∈ collect s 0 rows /\
            exists k,
              k ∈ collect s 0 rows /\ (k ∉ auto_select_group s rows) /\
              key_le (sort_key s k) (sort_key s f) /\
              (skip_different_names s = true -> base_name k = base_name f)).
  { unfold auto_select_group in *.
    destruct (collect s 0 rows) as [|f0 files] eqn:Hfiles;
      [now apply elem_of_nil in Hsel|].
    rewrite <- Hfiles in *.
    assert (Hne : collect s 0 rows <> []) by (rewrite Hfiles; discriminate).
    clear Hfiles f0 files.
    destruct (skip_different_names s) eqn:Hskip.
    - destruct (group_by_spec base_name (collect s 0 rows)) as [Hkeys Hspec].
      apply list_elem_of_In, in_flat_map in Hsel as ([name g] & Hg & Hin).
      apply list_elem_of_In in Hg, Hin. cbn [snd] in Hin.
      destruct (1 <? List.length g)%nat eqn:Hlen; [|now apply elem_of_nil in Hin].
      pose proof Hg as Hclass. apply Hspec in Hclass as [Hgne Hgeq].
      assert (Hgnd : NoDup g) by (rewrite Hgeq; now apply filter_NoDup).
      destruct (select_spares_the_first s g Hgnd Hgne)
        as (k & Hk & Hspared & Hsub & Hmin).
      assert (Hin_class : forall x, x ∈ g -> x ∈ collect s 0 rows /\ base_name x = name).
      { intros x Hx. rewrite Hgeq in Hx.
        apply list_elem_of_In, filter_In in Hx as [Hx Hname].
        apply bool_decide_eq_true in Hname. split; [now apply list_elem_of_In|done]. }
      destruct (Hin_class f (Hsub f Hin)) as [Hf Hfname].
      destruct (Hin_class k Hk) as [Hkfiles Hkname].
      split; [exact Hf|]. exists k. split; [exact Hkfiles|]. split; [|split].
      + intros Hksel.
        apply list_elem_of_In, in_flat_map in Hksel as ([name' g'] & Hg' & Hin').
        apply list_elem_of_In in Hg', Hin'. cbn [snd] in Hin'.
        destruct (1 <? List.length g')%nat; [|now apply elem_of_nil in Hin'].
        pose proof Hg' as Hclass'. apply Hspec in Hclass' as [Hgne' Hgeq'].
        assert (Hgnd' : NoDup g') by (rewrite Hgeq'; now apply filter_NoDup).
        destruct (select_spares_the_first s g' Hgnd' Hgne') as (_ & _ & _ & Hsub' & _).
        assert (Hkname' : base_name k = name').
        { specialize (Hsub' k Hin'). rewrite Hgeq' in Hsub'.
          apply list_elem_of_In, filter_In in Hsub' as [_ Hname'].
          now apply bool_decide_eq_true in Hname'. }
        assert (name' = name) by congruence. subst name'.
        assert (Hsame : g' = g)
          by (rewrite Hgeq'; rewrite Hkname; now rewrite <- Hgeq).
        rewrite Hsame in Hin'. now apply Hspared.
      + apply Hmin. now apply Hsub.
      + intros _. congruence.
    - destruct (select_spares_the_first s (collect s 0 rows) Hnd Hne)
        as (k & Hk & Hspared & Hsub & Hmin).
      split; [now apply Hsub|]. exists k. split; [exact Hk|].
      split; [exact Hspared|]. split; [|discriminate]. apply Hmin. now apply Hsub. }
  destruct Hmember as [Hf Hk].
  apply collect_elem in Hf as (_ & (row & Hrow & Htext) & Hexcl & _).
  rewrite Nat.sub_0_r in Hrow. split; [eauto|]. split; [exact Hexcl|exact Hk].
Qed.

Lemma auto_select_spares_a_copy_witness :
  Scenarios.mp3_entry 1 "/m/b.mp3" 500 1000
    ∈ auto_select_group (Scenarios.plain_settings true false) Scenarios.small_and_large /\
  exists k,
    k ∈ collect (Scenarios.plain_settings true false) 0 Scenarios.small_and_large /\
    (k ∉ auto_select_group (Scenarios.plain_settings true false)
           Scenarios.small_and_large).
Proof.
  assert (Hsel : Scenarios.mp3_entry 1 "/m/b.mp3" 500 1000
                   ∈ auto_select_group (Scenarios.plain_settings true false)
                       Scenarios.small_and_large)
    by (vm_compute; apply list_elem_of_here).
  split; [exact Hsel|].
  destruct (auto_select_spares_a_copy _ _ _ Hsel) as (_ & _ & k & Hk & Hspared & _).
  exists k. split; [exact Hk|exact Hspared].
Defined.

(** X15.  Which row the selection keeps: a row outside the directories
    marked for deletion is kept before any row inside one, and among rows
    on the same side of that test the kept row has the least format
    number, an extension without a number counting as 999.  Size and time
    only decide between rows that agree on both. *)
Theorem kept_row_ranks_first (s : settings) (rows : list tree_item)
    (k f : file_entry) :
  kept (collect s 0 rows) s = Some k -> f ∈ collect s 0 rows ->
  k ∈ collect s 0 rows /\
  priority k = default 999 (format_priority s !! Str.lower (snd (PosixPath.splitext (path k)))) /\
  (in_delete_dir s k = true -> in_delete_dir s f = true) /\
  (in_delete_dir s k = in_delete_dir s f -> priority k <= priority f).
Proof.
  intros Hkept Hf.
  assert (Hne : collect s 0 rows <> []).
  { intros Hnil. rewrite Hnil in Hf. now apply elem_of_nil in Hf. }
  destruct (FileTreeFacts.select_keeps_minimum_of_code_key s _ Hne)
    as (k' & Hk' & Hperm & _ & _ & Hmin & _).
  rewrite Hkept in Hk'. inversion Hk'; subst k'. clear Hk'.
  assert (Hk : k ∈ collect s 0 rows) by (rewrite <- Hperm; apply list_elem_of_here).
  split; [exact Hk|]. split.
  { apply collect_elem in Hk as (_ & _ & _ & Hext & Hprio). now rewrite <- Hext. }
  specialize (Hmin f Hf). unfold sort_key in Hmin.
  destruct (in_delete_dir s k), (in_delete_dir s f);
    unfold key_le, key_ltb, bool_ltb in Hmin; cbn [negb andb] in Hmin.
  - split; [done|]. intros _.
    destruct (Z.ltb_spec (priority f) (priority k)); [discriminate|lia].
  - discriminate.
  - split; discriminate.
  - split; [discriminate|]. intros _.
    destruct (Z.ltb_spec (priority f) (priority k)); [discriminate|lia].
Qed.

Lemma kept_row_ranks_first_witness :
  kept (collect (Scenarios.plain_settings true false) 0 Scenarios.small_and_large)
       (Scenarios.plain_settings true false)
    = Some (Scenarios.mp3_entry 0 "/m/a.mp3" 300 1000) /\
  FileTree.priority (Scenarios.mp3_entry 0 "/m/a.mp3" 300 1000)
    <= FileTree.priority (Scenarios.mp3_entry 1 "/m/b.mp3" 500 1000).
Proof.
  assert (Hkept :
    kept (collect (Scenarios.plain_settings true false) 0 Scenarios.small_and_large)
         (Scenarios.plain_settings true false)
      = Some (Scenarios.mp3_entry 0 "/m/a.mp3" 300 1000)) by (vm_compute; reflexivity).
  split; [exact Hkept|].
  destruct (kept_row_ranks_first _ _ _ (Scenarios.mp3_entry 1 "/m/b.mp3" 500 1000) Hkept)
    as (_ & _ & _ & Hprio).
  - vm_compute. apply list_elem_of_further, list_elem_of_here.
  - apply Hprio. vm_compute. reflexivity.
Defined.

End FileTreeMore.

(** ** The name key *)

Module NameKeyMore.
Import FileInfoM MusicFinderM PathRef.

#[local] Arguments Ascii.eqb : simpl never.

Lemma rsplit_none (ch : ascii) (s : string) :
  free_of ch s = true -> Str.rsplit_char ch s = None.
Proof.
  unfold free_of. induction s as [|c s IH]; cbn [Str.all_chars Str.rsplit_char]; [done|].
  intros [Hc Hs]%andb_true_iff. rewrite (IH Hs).
  apply negb_true_iff in Hc. now rewrite Hc.
Qed.

Lemma rsplit_last (ch : ascii) (a b : string) :
  free_of ch b = true ->
  Str.rsplit_char ch (a ++ String ch b) = Some ((a ++ String ch "")%string, b).
Proof.
  intros Hb. induction a as [|c a IH].
  - change (Str.rsplit_char ch (String ch b) = Some (String ch "", b)).
    cbn [Str.rsplit_char]. rewrite (rsplit_none ch b Hb).
    now rewrite Ascii.eqb_refl.
  - rewrite !IndexFacts.append_cons. cbn [Str.rsplit_char]. now rewrite IH.
Qed.

Lemma free_of_app (ch : ascii) (a b : string) :
  free_of ch (a ++ b) = free_of ch a && free_of ch b.
Proof.
  unfold free_of. induction a as [|c a IH]; [done|].
  rewrite IndexFacts.append_cons. cbn [Str.all_chars]. now rewrite IH, andb_assoc.
Qed.

Lemma take_app (a b : string) : Str.take (String.length a) (a ++ b) = a.
Proof.
  induction a as [|c a IH].
  - now destruct b.
  - rewrite IndexFacts.append_cons. cbn [String.length Str.take]. now rewrite IH.
Qed.

(** The last component of a path is what follows its last separator. *)
Lemma basename_file_at (dir name : string) :
  free_of "/" name = true ->
  PosixPath.basename (dir ++ String "/" name) = name.
Proof.
  intros Hname. unfold PosixPath.basename, PosixPath.cut, PosixPath.sep.
  now rewrite rsplit_last.
Qed.

(** The extension of a file name is what follows its last dot, when
    something other than dots precedes it. *)
Lemma splitext_name (stem ext : string) :
  free_of "/" stem = true -> free_of "/" ext = true -> free_of "." ext = true ->
  Str.all_chars (Ascii.eqb ".") stem = false ->
  PosixPath.splitext (stem ++ String "." ext) = (stem, String "." ext).
Proof.
  intros Hstem Hext Hdot Hdots.
  unfold PosixPath.splitext, PosixPath.cut, PosixPath.sep, PosixPath.extsep.
  rewrite rsplit_none.
  2: { rewrite free_of_app, Hstem. unfold free_of. cbn [Str.all_chars andb].
       exact Hext. }
  rewrite rsplit_last by done.
  rewrite IndexFacts.append_length. cbn [String.length].
  replace (String.length stem + 1 - 1)%nat with (String.length stem) by lia.
  rewrite take_app, Hdots. reflexivity.
Qed.

Lemma parse_by_stem (dir stem ext : string) :
  free_of "/" stem = true -> free_of "/" ext = true -> free_of "." ext = true ->
  Str.all_chars (Ascii.eqb ".") stem = false ->
  parse_music_filename (PosixPath.basename (file_at dir stem ext))
  = parse_music_filename (stem ++ ".")%string.
Proof.
  intros Hstem Hext Hdot Hdots. unfold file_at.
  change ("/" ++ stem ++ "." ++ ext)%string with (String "/" (stem ++ String "." ext)).
  rewrite basename_file_at.
  2: { rewrite free_of_app, Hstem. unfold free_of. cbn [Str.all_chars andb].
       exact Hext. }
  unfold parse_music_filename.
  rewrite (splitext_name stem ext) by done.
  change (stem ++ ".")%string with (stem ++ String "." "")%string.
  now rewrite (splitext_name stem "") by done.
Qed.



End NameKeyMore.

(** ** The digest caches *)

Module CacheFacts.
Import FileInfoM FileInfoCache.

(** X17.  The property [md5] of a record computes the digest at most
    once.  The first access of a record of an existing file returns what
    the pure reading [md5] gives, always a value; every later access of
    the record returns that same value without reading the file, whatever
    has become of the file: also the sentinel of a failed computation is
    kept, so a record whose hashing failed is never hashed again. *)
Theorem md5_is_computed_once (w w' : World) (f : FileInfo) :
  exists_ f = true -> _md5 f = None ->
  fst (md5_access w f) = md5 w f /\
  (exists d, fst (md5_access w f) = Some d) /\
  md5_access w' (snd (md5_access w f)) = (fst (md5_access w f), snd (md5_access w f)) /\
  (w_read w (path f) 0%nat = ReadIOError -> w_read w (path f) 1%nat = ReadIOError ->
   w_read w (path f) 2%nat = ReadIOError ->
   fst (md5_access w' (snd (md5_access w f))) = Some unknown_md5).
Proof.
  intros Hex Hnone. unfold md5_access, md5. rewrite Hnone, Hex. cbn [fst snd].
  destruct (GroupingFacts.md5_loop_returns (w_read w (path f)) 3 3 0) as [d Hd];
    [lia|lia|].
  assert (Hcalc : _calculate_md5 w f = Some d) by exact Hd.
  rewrite Hcalc. cbn [with_md5 _md5].
  split; [done|]. split; [eauto|]. split; [done|].
  intros H0 H1 H2. cbn [fst]. rewrite <- Hcalc.
  unfold _calculate_md5, calculate_md5_with, default_max_retries.
  simpl. rewrite H0. simpl. rewrite H1. simpl. rewrite H2. reflexivity.
Qed.

Lemma md5_is_computed_once_witness :
  fst (md5_access Scenarios.two_digests_world
         (snd (md5_access Scenarios.unreadable_world
                 (from_path Scenarios.unreadable_world "/m/x.mp3"))))
  = Some unknown_md5 /\
  md5 Scenarios.two_digests_world (from_path Scenarios.two_digests_world "/m/a.mp3")
  = Some Scenarios.digest_1.
Proof.
  destruct (md5_is_computed_once Scenarios.unreadable_world Scenarios.two_digests_world
              (from_path Scenarios.unreadable_world "/m/x.mp3"))
    as (_ & _ & _ & Hkept); [reflexivity|reflexivity|].
  split; [apply Hkept; reflexivity|]. vm_compute. reflexivity.
Defined.

(** X18.  [calculate_md5] keeps successes only, and by path.  A digest in
    the table is returned without reading, for every record with that
    path; a successful read enters its digest, which later calls return
    even when the file has changed; a failed read returns the empty text
    and leaves the table alone, so the next call reads again. *)
Theorem calculate_md5_caches_successes (w w' : World) (cache : gmap string string)
    (f f' : FileInfo) (d : string) :
  path f' = path f ->
  (cache !! path f = Some d -> calculate_md5 w cache f = (d, cache)) /\
  (cache !! path f = None -> w_read w (path f) 0%nat = ReadDigest d ->
   calculate_md5 w cache f = (d, <[path f := d]> cache) /\
   calculate_md5 w' (snd (calculate_md5 w cache f)) f'
     = (d, snd (calculate_md5 w cache f))) /\
  (cache !! path f = None ->
   (forall d', w_read w (path f) 0%nat <> ReadDigest d') ->
   calculate_md5 w cache f = ("", cache) /\
   (w_read w' (path f) 0%nat = ReadDigest d ->
    fst (calculate_md5 w' (snd (calculate_md5 w cache f)) f') = d)).
Proof.
  intros Hpath. unfold calculate_md5. rewrite Hpath. split; [|split].
  - now intros ->.
  - intros Hmiss Hread. rewrite Hmiss, Hread. split; [done|]. cbn [snd].
    now rewrite lookup_insert_eq.
  - intros Hmiss Hfail. rewrite Hmiss.
    destruct (w_read w (path f) 0%nat) as [d'| |] eqn:Hread;
      [now destruct (Hfail d')| |]; (split; [done|]); cbn [snd];
      rewrite Hmiss; intros ->; reflexivity.
Qed.

Lemma calculate_md5_caches_successes_witness :
  calculate_md5 Scenarios.unreadable_world
    (snd (calculate_md5 Scenarios.two_digests_world ∅
            (from_path Scenarios.two_digests_world "/m/c.mp3")))
    (from_path Scenarios.unreadable_world "/m/c.mp3")
  = (Scenarios.digest_2, {[ "/m/c.mp3" := Scenarios.digest_2 ]}).
Proof.
  destruct (calculate_md5_caches_successes Scenarios.two_digests_world
              Scenarios.unreadable_world ∅
              (from_path Scenarios.two_digests_world "/m/c.mp3")
              (from_path Scenarios.unreadable_world "/m/c.mp3")
              Scenarios.digest_2 eq_refl) as (_ & Hhit & _).
  destruct Hhit as [Hfirst Hsecond]; [apply lookup_empty|reflexivity|].
  rewrite Hsecond, Hfirst. reflexivity.
Defined.

End CacheFacts.

(** ** The size shown *)

Module SizeFacts.
Import FileInfoM MusicFinderM PathRef SizeRef.

#[local] Arguments Ascii.eqb : simpl never.

Lemma pretty_N_go_digits (x : N) (s : string) :
  Str.all_chars Str.is_digit s = true ->
  Str.all_chars Str.is_digit (pretty_N_go x s) = true.
Proof.
  revert s. induction (N.lt_wf_0 x) as [x _ IH]; intros s Hs.
  assert (x = 0 \/ 0 < x)%N as [->|Hpos] by lia.
  - now rewrite pretty_N_go_0.
  - rewrite pretty_N_go_step by done. apply IH; [now apply N.div_lt|].
    cbn [Str.all_chars]. rewrite Hs, andb_true_r.
    unfold pretty_N_char. repeat case_match; reflexivity.
Qed.

(** The decimal text of a number that is not negative is made of digits. *)
Lemma pretty_Z_digits (z : Z) :
  0 <= z -> Str.all_chars Str.is_digit (pretty z) = true.
Proof.
  intros Hz. destruct z as [|p|p]; [reflexivity| |lia].
  unfold pretty, pretty_Z, pretty, pretty_positive, pretty, pretty_N.
  destruct (decide (N.pos p = 0%N)); [reflexivity|].
  now apply pretty_N_go_digits.
Qed.

Lemma digits_free_of_dot (s : string) :
  Str.all_chars Str.is_digit s = true -> free_of "." s = true.
Proof.
  apply ParsingMore.all_chars_impl. intros c.
  destruct c as [[] [] [] [] [] [] [] []]; vm_compute; intros H;
    first [reflexivity|discriminate].
Qed.

(** Two texts that agree and have their first dot after [a] and after
    [b] agree before and after it. *)
Lemma dot_split (a b x y : string) :
  free_of "." a = true -> free_of "." b = true ->
  (a ++ String "." x)%string = (b ++ String "." y)%string -> a = b /\ x = y.
Proof.
  unfold free_of. revert b. induction a as [|c a IH]; intros b Ha Hb Heq.
  - destruct b as [|c b].
    + change (String "." x = String "." y) in Heq. now inversion Heq.
    + rewrite IndexFacts.append_cons in Heq.
      change (String "." x = String c (b ++ String "." y)) in Heq.
      inversion Heq; subst c. discriminate.
  - destruct b as [|c' b].
    + rewrite IndexFacts.append_cons in Heq.
      change (String c (a ++ String "." x) = String "." y) in Heq.
      inversion Heq; subst c. discriminate.
    + rewrite !IndexFacts.append_cons in Heq. inversion Heq; subst c'.
      cbn [Str.all_chars] in Ha, Hb.
      apply andb_true_iff in Ha as [_ Ha]. apply andb_true_iff in Hb as [_ Hb].
      destruct (IH b Ha Hb) as [-> ->]; done.
Qed.

Lemma two_digits_inj (r r' : Z) :
  0 <= r < 100 -> 0 <= r' < 100 ->
  (two_digits r ++ " MB")%string = (two_digits r' ++ " MB")%string -> r = r'.
Proof.
  intros Hr Hr' Heq.
  assert (Hcheck : tails_differ = true) by (vm_compute; reflexivity).
  unfold tails_differ in Hcheck.
  rewrite forallb_forall in Hcheck.
  specialize (Hcheck (Z.to_nat r)). rewrite forallb_forall in Hcheck.
  assert (Hin : forall z, 0 <= z < 100 -> In (Z.to_nat z) (seq 0 100))
    by (intros z Hz; apply in_seq; lia).
  specialize (Hcheck (Hin r Hr) (Z.to_nat r') (Hin r' Hr')).
  rewrite !Z2Nat.id in Hcheck by lia.
  apply String.eqb_eq in Heq. rewrite Heq in Hcheck. cbn [implb] in Hcheck.
  apply Nat.eqb_eq in Hcheck. lia.
Qed.

Lemma hundredths_cases (n : Z) :
  exists q r,
    n * 100 = 1048576 * q + r /\ 0 <= r < 1048576 /\
    (hundredths_of_mb n = q /\ r <= 524288 \/
     hundredths_of_mb n = q + 1 /\ 524288 <= r).
Proof.
  exists (n * 100 / 1048576), ((n * 100) mod 1048576).
  pose proof (Z.div_mod (n * 100) 1048576 ltac:(lia)) as Hdiv.
  pose proof (Z.mod_pos_bound (n * 100) 1048576 ltac:(lia)) as Hmod.
  split; [exact Hdiv|]. split; [exact Hmod|].
  unfold hundredths_of_mb.
  destruct (Z.ltb_spec ((n * 100) mod 1048576) 524288); [left; lia|].
  destruct (Z.ltb_spec 524288 ((n * 100) mod 1048576)); [right; lia|].
  destruct (Z.even _); [left|right]; lia.
Qed.

Lemma hundredths_mono (a b : Z) :
  a <= b -> hundredths_of_mb a <= hundredths_of_mb b.
Proof.
  intros Hab. unfold hundredths_of_mb.
  pose proof (Z.div_mod (a * 100) 1048576 ltac:(lia)) as Hda.
  pose proof (Z.mod_pos_bound (a * 100) 1048576 ltac:(lia)) as Hma.
  pose proof (Z.div_mod (b * 100) 1048576 ltac:(lia)) as Hdb.
  pose proof (Z.mod_pos_bound (b * 100) 1048576 ltac:(lia)) as Hmb.
  set (qa := a * 100 / 1048576) in *. set (ra := (a * 100) mod 1048576) in *.
  set (qb := b * 100 / 1048576) in *. set (rb := (b * 100) mod 1048576) in *.
  destruct (Z.eq_dec qa qb) as [Hq|Hq].
  - rewrite <- Hq.
    destruct (Z.ltb_spec ra 524288), (Z.ltb_spec rb 524288); try lia;
      destruct (Z.ltb_spec 524288 ra), (Z.ltb_spec 524288 rb); try lia;
      destruct (Z.even qa); lia.
  - assert (qa < qb) by lia.
    destruct (ra <? 524288), (rb <? 524288), (524288 <? ra), (524288 <? rb),
      (Z.even qa), (Z.even qb); lia.
Qed.

Lemma hundredths_nonneg (n : Z) : 0 <= n -> 0 <= hundredths_of_mb n.
Proof.
  intros Hn. change 0 with (hundredths_of_mb 0) at 1. now apply hundredths_mono.
Qed.



End SizeFacts.

(** ** The verifiers of an index *)

Module VerifyFacts.
Import FileIndexM IndexVerify.

Lemma filter_all {A : Type} (p : A -> bool) (l : list A) :
  (forall x, x ∈ l -> p x = true) -> List.filter p l = l.
Proof.
  induction l as [|x l IH]; intros Hall; [done|]. cbn [List.filter].
  rewrite (Hall x (list_elem_of_here _ _)). f_equal.
  apply IH. intros y Hy. apply Hall. now apply list_elem_of_further.
Qed.

Lemma verified_all_valid (w : World) (sample_files : list index_entry) :
  _verify_index w sample_files = Verdict true ->
  forall e, e ∈ sample_files -> is_valid w e = true.
Proof.
  induction sample_files as [|file rest IH]; intros Hver e He.
  - now apply elem_of_nil in He.
  - cbn [_verify_index] in Hver.
    destruct (e_path file) as [p|] eqn:Hp; [|discriminate].
    destruct (w_stat w p) as [stats|] eqn:Hst; [|discriminate].
    destruct (bool_decide (Some (st_mtime stats) = e_mtime file)) eqn:Hmt;
      cbn [negb] in Hver; [|discriminate].
    destruct (bool_decide (Some (st_size stats) = e_size file)) eqn:Hsz;
      cbn [negb] in Hver; [|discriminate].
    apply elem_of_cons in He as [->|He]; [|now apply IH].
    apply bool_decide_eq_true in Hmt, Hsz.
    apply IndexFacts.is_valid_spec. exists p, stats.
    repeat split; try done. rewrite <- Hmt. cbn [default].
    rewrite Z.sub_diag. unfold second. lia.
Qed.

Lemma elem_take {A : Type} (n : nat) (l : list A) (x : A) :
  x ∈ take n l -> x ∈ l.
Proof.
  intros Hx. rewrite <- (take_drop n l). apply elem_of_app. now left.
Qed.

Lemma take_min_length {A : Type} (l : list A) :
  take (Nat.min 5 (List.length l)) l = take 5 l.
Proof.
  destruct (Nat.le_ge_cases 5 (List.length l)) as [Hle|Hge].
  - now rewrite Nat.min_l.
  - rewrite Nat.min_r by done. now rewrite !firstn_all2 by lia.
Qed.

Lemma quick_unfold (w : World) (files : list index_entry) :
  _quick_verify_index w files
  = (3 * Nat.min 5 (List.length files)
     <=? 5 * List.length (List.filter (is_valid w) (take 5 files)))%nat.
Proof. unfold _quick_verify_index. cbv zeta. now rewrite take_min_length. Qed.

(** X20.  How the two verifiers relate to the validation of
    [load_index].  [_quick_verify_index] looks at the first five records
    only, accepts an empty list, and accepts a list with records only when
    at least one of its first five records passes the validation of
    [load_index], so that a load of those records returns some; when all
    of the first five pass it accepts.  [_verify_index] asks more of each
    sampled record than the load does (the stored time itself, not a time
    within a second): when it accepts, every sampled record passes the
    validation of the load, and the quick verifier accepts the sample. *)
Theorem verifiers_agree_with_load_validation (w : World) (files : list index_entry) :
  _quick_verify_index w [] = true /\
  _quick_verify_index w files = _quick_verify_index w (take 5 files) /\
  (files <> [] -> _quick_verify_index w files = true -> valid_of w files <> []) /\
  (valid_of w (take 5 files) = take 5 files -> _quick_verify_index w files = true) /\
  (_verify_index w files = Verdict true ->
   valid_of w files = files /\ _quick_verify_index w files = true).
Proof.
  pose proof (take_min_length files) as Hsample.
  assert (Hall : valid_of w (take 5 files) = take 5 files ->
                 _quick_verify_index w files = true).
  { intros Hv. rewrite quick_unfold.
    unfold valid_of in Hv. rewrite Hv. apply Nat.leb_le.
    rewrite length_take. lia. }
  split; [reflexivity|]. split; [|split; [|split; [exact Hall|]]].
  - rewrite !quick_unfold. rewrite take_take, length_take.
    replace (Nat.min 5 (Nat.min 5 (List.length files)))
      with (Nat.min 5 (List.length files)) by lia.
    now replace (Nat.min 5 5) with 5%nat by lia.
  - intros Hne Hquick Hnone. rewrite quick_unfold in Hquick.
    assert (Hnil : List.filter (is_valid w) (take 5 files) = []).
    { destruct (List.filter (is_valid w) (take 5 files)) as [|e l] eqn:Hf; [done|].
      assert (He : e ∈ valid_of w files).
      { apply IndexFacts.valid_of_elem.
        assert (Hin : In e (List.filter (is_valid w) (take 5 files)))
          by (rewrite Hf; now left).
        apply filter_In in Hin as [Hin Hv]. split; [|exact Hv].
        eapply elem_take. apply list_elem_of_In, Hin. }
      rewrite Hnone in He. now apply elem_of_nil in He. }
    rewrite Hnil in Hquick. apply Nat.leb_le in Hquick. simpl in Hquick.
    destruct files; [done|]. simpl in Hquick. lia.
  - intros Hver.
    pose proof (verified_all_valid w files Hver) as Hvalid.
    split; [now apply filter_all|]. apply Hall. apply filter_all.
    intros e He. eapply Hvalid, elem_take, He.
Qed.

Lemma verifiers_agree_with_load_validation_witness :
  _quick_verify_index Scenarios.gone_world
    [Scenarios.entry "/m/gone.mp3" 5000000 100; Scenarios.entry "/m/kept.mp3" 3000000 100]
    = false /\
  _verify_index Scenarios.gone_world [Scenarios.entry "/m/kept.mp3" 3000000 100]
    = Verdict true /\
  _quick_verify_index Scenarios.gone_world [Scenarios.entry "/m/kept.mp3" 3000000 100]
    = true.
Proof.
  split; [vm_compute; reflexivity|].
  assert (Hver : _verify_index Scenarios.gone_world
                   [Scenarios.entry "/m/kept.mp3" 3000000 100] = Verdict true)
    by (vm_compute; reflexivity).
  split; [exact Hver|].
  destruct (verifiers_agree_with_load_validation Scenarios.gone_world
              [Scenarios.entry "/m/kept.mp3" 3000000 100]) as (_ & _ & _ & _ & Hstrict).
  now destruct (Hstrict Hver).
Defined.

End VerifyFacts.

(** ** The settings file *)

Module SettingsFacts.
Import SettingsM.

Lemma backup_differs (w : World) : backup_file w <> config_file w.
Proof.
  unfold backup_file, config_file. intros Heq.
  change "settings.json.bak" with ("settings.json" ++ ".bak")%string in Heq.
  rewrite (IndexFacts.join_append _ _ ".bak") in Heq by discriminate.
  apply (f_equal String.length) in Heq. rewrite IndexFacts.append_length in Heq.
  simpl in Heq. lia.
Qed.

(** X21.  A settings file that [json.load] rejects with a
    [JSONDecodeError] is set aside, not deleted: [load] returns the
    defaults and the file is then found under the backup name, the
    settings path being free; every other file is as it was.  This holds
    when no backup exists or when renaming replaces an existing file;
    where renaming onto an existing file raises, an existing backup makes
    [load] return the defaults and leave both files in place.  A file on
    which [json.load] raises another exception (bytes that are not UTF-8,
    values nested too deeply) or that holds no object is not set aside:
    [load] returns the defaults and leaves the directory as it was. *)
Theorem corrupt_settings_are_set_aside (from_base64 : string -> string)
    (w : World) (overwrite : bool) (fs : files) :
  (fs !! config_file w = Some NotJson ->
   fst (load from_base64 w overwrite fs) = defaults /\
   (fs !! backup_file w = None \/ overwrite = true ->
    snd (load from_base64 w overwrite fs) !! config_file w = None /\
    snd (load from_base64 w overwrite fs) !! backup_file w = Some NotJson /\
    forall p, p <> config_file w -> p <> backup_file w ->
              snd (load from_base64 w overwrite fs) !! p = fs !! p) /\
   (is_Some (fs !! backup_file w) -> overwrite = false ->
    snd (load from_base64 w overwrite fs) = fs)) /\
  (fs !! config_file w = Some Unreadable \/ fs !! config_file w = Some NotADict ->
   load from_base64 w overwrite fs = (defaults, fs)).
Proof.
  split.
  2: { unfold load. now intros [-> | ->]. }
  intros Hcorrupt. unfold load. rewrite Hcorrupt.
  pose proof (backup_differs w) as Hne.
  assert (Hrenamed :
    (<[backup_file w := NotJson]> (delete (config_file w) fs)) !! config_file w = None /\
    (<[backup_file w := NotJson]> (delete (config_file w) fs)) !! backup_file w
      = Some NotJson /\
    forall p, p <> config_file w -> p <> backup_file w ->
              (<[backup_file w := NotJson]> (delete (config_file w) fs)) !! p = fs !! p).
  { split; [|split].
    - rewrite lookup_insert_ne by done. apply lookup_delete_eq.
    - apply lookup_insert_eq.
    - intros p Hp1 Hp2. rewrite lookup_insert_ne by done. now rewrite lookup_delete_ne. }
  destruct (fs !! backup_file w) as [b|] eqn:Hbak; destruct overwrite; cbn [fst snd];
    (split; [reflexivity|]); split.
  - intros _. exact Hrenamed.
  - intros _ Hfalse. discriminate.
  - intros [?|?]; discriminate.
  - done.
  - intros _. exact Hrenamed.
  - intros [? ?]. discriminate.
  - intros _. exact Hrenamed.
  - intros [? ?]. discriminate.
Qed.

Lemma corrupt_settings_are_set_aside_witness :
  load (fun s => s) Scenarios.no_root_world false
       {[ config_file Scenarios.no_root_world := NotJson ]}
  = (defaults, {[ backup_file Scenarios.no_root_world := NotJson ]}) /\
  load (fun s => s) Scenarios.no_root_world false
       {[ config_file Scenarios.no_root_world := Unreadable ]}
  = (defaults, {[ config_file Scenarios.no_root_world := Unreadable ]}).
Proof.
  split.
  - destruct (corrupt_settings_are_set_aside (fun s => s) Scenarios.no_root_world false
                {[ config_file Scenarios.no_root_world := NotJson ]})
      as [Haside _].
    destruct Haside as (Hdefaults & _ & _); [apply lookup_singleton_eq|].
    rewrite <- Hdefaults. vm_compute. reflexivity.
  - destruct (corrupt_settings_are_set_aside (fun s => s) Scenarios.no_root_world false
                {[ config_file Scenarios.no_root_world := Unreadable ]})
      as [_ Hleft].
    apply Hleft. left. apply lookup_singleton_eq.
Defined.



End SettingsFacts.

(** ** The filter of the result tree *)

Module FilterFacts.
Import FileTreeFilter.

Lemma existsb_negb_forallb (l : list bool) :
  negb (existsb id l) = forallb id (map negb l).
Proof. induction l as [|[] l IH]; cbn; [done|done|exact IH]. Qed.

(** X23.  The filter hides a group exactly when it hides all of its rows
    (so a group without rows is hidden by any text); it keeps the groups
    and the rows in number and order; an empty text shows everything; a
    row that the filter on one column shows is shown by the filter on all
    columns; and a filter name that is none of the four hides every
    row. *)
Theorem filter_hides_groups_without_match (lower : string -> string)
    (text filter_by : string) (tree : list (list row)) :
  map (fun flags => List.length (snd flags)) (filter_items lower text filter_by tree)
    = map (fun group_item => List.length group_item) tree /\
  (lower text = "" ->
   forall flags, flags ∈ filter_items lower text filter_by tree ->
                 fst flags = false /\ forall h, h ∈ snd flags -> h = false) /\
  (lower text <> "" ->
   forall flags, flags ∈ filter_items lower text filter_by tree ->
                 fst flags = forallb id (snd flags)) /\
  (forall file_item,
      show_file lower text filter_by file_item = true ->
      filter_by <> "全部" -> show_file lower text "全部" file_item = true) /\
  (filter_by <> "全部" -> filter_by <> "路径" -> filter_by <> "大小" ->
   filter_by <> "时间" -> lower text <> "" ->
   forall flags, flags ∈ filter_items lower text filter_by tree ->
                 fst flags = true /\ forall h, h ∈ snd flags -> h = true).
Proof.
  split; [|split; [|split; [|split]]].
  - unfold filter_items. cbv zeta. destruct (lower text);
      rewrite map_map; apply map_ext; intros g; cbn [snd];
      now rewrite ?length_map.
  - intros Hempty flags Hin. unfold filter_items in Hin. cbv zeta in Hin.
    rewrite Hempty in Hin. apply list_elem_of_fmap in Hin as (g & -> & _).
    split; [done|]. intros h Hh. now apply list_elem_of_fmap in Hh as (? & -> & _).
  - intros Hne flags Hin. unfold filter_items in Hin. cbv zeta in Hin.
    destruct (lower text) as [|c t] eqn:Htext; [done|].
    apply list_elem_of_fmap in Hin as (g & -> & _). cbn [fst snd].
    apply existsb_negb_forallb.
  - intros file_item Hshow Hone. unfold show_file in *.
    rewrite decide_False in Hshow by done. rewrite decide_True by done.
    cbn [existsb].
    repeat case_decide; rewrite ?Hshow, ?orb_true_r; try done.
  - intros H1 H2 H3 H4 Hne flags Hin. unfold filter_items in Hin. cbv zeta in Hin.
    destruct (lower text) as [|c t] eqn:Htext; [done|].
    apply list_elem_of_fmap in Hin as (g & -> & _). cbn [fst snd].
    assert (Hnone : forall r, show_file lower (String c t) filter_by r = false).
    { intros r. unfold show_file. now rewrite !decide_False by done. }
    split.
    + induction g as [|r g IH]; [done|]. cbn [map existsb]. now rewrite Hnone.
    + intros h Hh. apply list_elem_of_fmap in Hh as (b & -> & Hb).
      apply list_elem_of_fmap in Hb as (r & -> & _). now rewrite Hnone.
Qed.

Lemma filter_hides_groups_without_match_witness :
  filter_items Str.lower "FLAC" "路径"
    [ [ {| column0 := "/m/a.flac"; column1 := "30.00 MB"; column2 := "2024-01-01 10:00:00" |};
        {| column0 := "/m/a.mp3"; column1 := "5.00 MB"; column2 := "2024-01-01 10:00:00" |} ];
      [ {| column0 := "/m/b.mp3"; column1 := "5.00 MB"; column2 := "2024-01-01 10:00:00" |};
        {| column0 := "/m/c.mp3"; column1 := "5.00 MB"; column2 := "2024-01-01 10:00:00" |} ] ]
  = [ (false, [false; true]); (true, [true; true]) ] /\
  true = forallb id [true; true].
Proof.
  assert (Hflags :
    filter_items Str.lower "FLAC" "路径"
      [ [ {| column0 := "/m/a.flac"; column1 := "30.00 MB";
             column2 := "2024-01-01 10:00:00" |};
          {| column0 := "/m/a.mp3"; column1 := "5.00 MB";
             column2 := "2024-01-01 10:00:00" |} ];
        [ {| column0 := "/m/b.mp3"; column1 := "5.00 MB";
             column2 := "2024-01-01 10:00:00" |};
          {| column0 := "/m/c.mp3"; column1 := "5.00 MB";
             column2 := "2024-01-01 10:00:00" |} ] ]
    = [ (false, [false; true]); (true, [true; true]) ]) by (vm_compute; reflexivity).
  split; [exact Hflags|].
  destruct (filter_hides_groups_without_match Str.lower "FLAC" "路径"
              [ [ {| column0 := "/m/a.flac"; column1 := "30.00 MB";
                     column2 := "2024-01-01 10:00:00" |};
                  {| column0 := "/m/a.mp3"; column1 := "5.00 MB";
                     column2 := "2024-01-01 10:00:00" |} ];
                [ {| column0 := "/m/b.mp3"; column1 := "5.00 MB";
                     column2 := "2024-01-01 10:00:00" |};
                  {| column0 := "/m/c.mp3"; column1 := "5.00 MB";
                     column2 := "2024-01-01 10:00:00" |} ] ])
    as (_ & _ & Hgroup & _).
  apply (Hgroup ltac:(vm_compute; discriminate) (true, [true; true])).
  rewrite Hflags. apply list_elem_of_further, list_elem_of_here.
Defined.

End FilterFacts.

(** ** The normalized root *)

Module NormalizeFacts.
Import FileInfoM FileIndexM MusicFinderM PathRef.

#[local] Arguments Ascii.eqb : simpl never.

Lemma split_sep_nonempty (s : string) : PosixPath.split_sep s <> [].
Proof.
  destruct s as [|c s]; cbn [PosixPath.split_sep]; [discriminate|].
  destruct (Ascii.eqb c PosixPath.sep); [discriminate|].
  destruct (PosixPath.split_sep s); discriminate.
Qed.

(** A separator at the end adds an empty last component. *)
Lemma split_sep_trailing (p : string) :
  PosixPath.split_sep (p ++ "/") = (PosixPath.split_sep p ++ [""])%list.
Proof.
  induction p as [|c p IH]; [reflexivity|].
  rewrite IndexFacts.append_cons. cbn [PosixPath.split_sep].
  destruct (Ascii.eqb c PosixPath.sep); [now rewrite IH|].
  rewrite IH. pose proof (split_sep_nonempty p) as Hne.
  now destruct (PosixPath.split_sep p).
Qed.

(** An empty last component is skipped. *)
Lemma norm_comps_trailing (rooted : bool) (comps new_comps : list string) :
  PosixPath.norm_comps rooted (comps ++ [""]) new_comps
  = PosixPath.norm_comps rooted comps new_comps.
Proof.
  revert new_comps. induction comps as [|comp comps IH]; intros new_comps; [reflexivity|].
  cbn [app PosixPath.norm_comps].
  destruct (_ || _); [apply IH|].
  destruct (negb _); [apply IH|].
  destruct new_comps as [|last before]; [destruct rooted; apply IH|].
  destruct (String.eqb last ".."); apply IH.
Qed.

Lemma startswith_app_long (s x pre : string) :
  (String.length pre <= String.length s)%nat ->
  Str.startswith (s ++ x) pre = Str.startswith s pre.
Proof.
  unfold Str.startswith. revert s. induction pre as [|a pre IH]; intros s Hlen; [done|].
  destruct s as [|b s]; [simpl in Hlen; lia|].
  rewrite IndexFacts.append_cons. cbn [Str.drop_prefix].
  destruct (Ascii.eqb a b); [|done]. apply IH. simpl in Hlen. lia.
Qed.

Lemma normpath_trailing (p : string) :
  p <> "" ->
  Str.startswith (p ++ "/") "/" = Str.startswith p "/" ->
  Str.startswith (p ++ "/") "//" = false -> Str.startswith p "//" = false ->
  PosixPath.normpath (p ++ "/") = PosixPath.normpath p.
Proof.
  intros Hne Hone Htwo' Htwo. unfold PosixPath.normpath.
  destruct p as [|c p]; [done|]. rewrite IndexFacts.append_cons.
  rewrite <- (IndexFacts.append_cons c p "/").
  rewrite Hone, Htwo', Htwo. cbn [andb].
  now rewrite split_sep_trailing, norm_comps_trailing.
Qed.

(** X24.  A separator at the end of the root does not matter: for a path
    that is not empty, is not the root directory "/" and does not start
    with two slashes or two backslashes, [normalize_path] gives the same
    result with and without a separator appended, so both spellings use
    the same index file. *)
Theorem trailing_separator_is_ignored (w : World) (p : string) :
  p <> "" -> p <> "/" ->
  Str.startswith p "//" = false -> Str.startswith p "\\" = false ->
  normalize_path (p ++ "/") = normalize_path p /\
  get_index_path w (normalize_path (p ++ "/")) = get_index_path w (normalize_path p).
Proof.
  intros Hne Hroot Hslash Hback.
  assert (Hnorm : normalize_path (p ++ "/") = normalize_path p).
  { unfold normalize_path. rewrite Hslash, Hback. cbn [orb].
    destruct p as [|c1 [|c2 p2]]; [done| |].
    - assert (Hc1 : Ascii.eqb "/" c1 = false).
      { apply Ascii.eqb_neq. intros <-. done. }
      assert (Hs1 : Str.startswith (String c1 "/") "/" = false).
      { unfold Str.startswith. cbn [Str.drop_prefix]. now rewrite Hc1. }
      assert (Hs2 : Str.startswith (String c1 "/") "//" = false).
      { unfold Str.startswith. cbn [Str.drop_prefix]. now rewrite Hc1. }
      assert (Hb2 : Str.startswith (String c1 "/") "\\" = false).
      { unfold Str.startswith. cbn [Str.drop_prefix].
        destruct (Ascii.eqb "\" c1); reflexivity. }
      assert (Hp1 : Str.startswith (String c1 "") "/" = false).
      { unfold Str.startswith. cbn [Str.drop_prefix]. now rewrite Hc1. }
      change (String c1 "" ++ "/")%string with (String c1 "/").
      rewrite Hs2, Hb2. cbn [orb].
      change (String c1 "/") with (String c1 "" ++ "/")%string.
      apply normpath_trailing; [done| |exact Hs2|exact Hslash].
      change (String c1 "" ++ "/")%string with (String c1 "/").
      now rewrite Hs1, Hp1.
    - rewrite !(startswith_app_long _ "/") by (simpl; lia).
      rewrite Hslash, Hback. cbn [orb].
      apply normpath_trailing; [done| | |exact Hslash].
      + apply startswith_app_long. simpl. lia.
      + rewrite startswith_app_long by (simpl; lia). exact Hslash. }
  split; [exact Hnorm|now rewrite Hnorm].
Qed.

Lemma trailing_separator_is_ignored_witness :
  normalize_path "/home/u/music/" = normalize_path "/home/u/music".
Proof.
  exact (proj1 (trailing_separator_is_ignored Scenarios.no_root_world "/home/u/music"
                  ltac:(discriminate) ltac:(discriminate) eq_refl eq_refl)).
Defined.

(** *** Network paths *)

Lemma replace_char_free (a b : ascii) (s : string) :
  a <> b -> free_of a (replace_char a b s) = true.
Proof.
  intros Hab. unfold free_of. induction s as [|c s IH]; [done|].
  cbn [replace_char Str.all_chars]. rewrite IH, andb_true_r.
  destruct (Ascii.eqb c a) eqn:Hc; [|now rewrite Hc].
  apply negb_true_iff, Ascii.eqb_neq. congruence.
Qed.

Lemma replace_char_id (a b : ascii) (s : string) :
  free_of a s = true -> replace_char a b s = s.
Proof.
  unfold free_of. induction s as [|c s IH]; [done|].
  cbn [replace_char Str.all_chars]. intros [Hc Hs]%andb_true_iff.
  apply negb_true_iff in Hc. now rewrite Hc, IH.
Qed.

(** X25.  For a network path, one that starts with two slashes or two
    backslashes, [normalize_path] only turns every slash into a backslash:
    the result starts with two backslashes and has no slash, the branch
    that would put the two backslashes in front is never taken, and
    normalizing the result again changes nothing. *)
Theorem network_path_gets_backslashes (p : string) :
  Str.startswith p "\\" || Str.startswith p "//" = true ->
  normalize_path p = replace_char "/" "\" p /\
  Str.startswith (normalize_path p) "\\" = true /\
  free_of "/" (normalize_path p) = true /\
  normalize_path (normalize_path p) = normalize_path p.
Proof.
  intros Hunc.
  assert (Hstarts : Str.startswith (replace_char "/" "\" p) "\\" = true).
  { unfold Str.startswith in Hunc.
    destruct p as [|c1 [|c2 p2]]; cbn [Str.drop_prefix] in Hunc.
    - discriminate.
    - destruct (Ascii.eqb "\" c1), (Ascii.eqb "/" c1); discriminate.
    - destruct (Ascii.eqb_spec "\" c1) as [<-|_].
      + destruct (Ascii.eqb_spec "\" c2) as [<-|_]; [reflexivity|].
        discriminate.
      + destruct (Ascii.eqb_spec "/" c1) as [<-|_]; [|discriminate].
        destruct (Ascii.eqb_spec "/" c2) as [<-|_]; [reflexivity|discriminate]. }
  assert (Hnorm : normalize_path p = replace_char "/" "\" p).
  { unfold normalize_path. rewrite Hunc, Hstarts. reflexivity. }
  assert (Hfree : free_of "/" (replace_char "/" "\" p) = true)
    by (apply replace_char_free; discriminate).
  rewrite Hnorm. split; [done|]. split; [exact Hstarts|]. split; [exact Hfree|].
  unfold normalize_path. rewrite Hstarts. cbn [orb].
  rewrite (replace_char_id _ _ _ Hfree). now rewrite Hstarts.
Qed.

Lemma network_path_gets_backslashes_witness :
  normalize_path "//nas/music/rock" = "\\nas\music\rock".
Proof.
  destruct (network_path_gets_backslashes "//nas/music/rock" eq_refl) as [Hnorm _].
  rewrite Hnorm. reflexivity.
Defined.

End NormalizeFacts.

(** ** The time stamp of a file name *)

Module StampFacts.
Import FileInfoM MusicFinderM PathRef StampRef.

#[local] Arguments Ascii.eqb : simpl never.

Lemma all_chars_app (p : ascii -> bool) (a b : string) :
  Str.all_chars p (a ++ b) = Str.all_chars p a && Str.all_chars p b.
Proof.
  induction a as [|c a IH]; [done|].
  rewrite IndexFacts.append_cons. cbn [Str.all_chars]. now rewrite IH, andb_assoc.
Qed.

Lemma take_class_length (n : nat) (p : ascii -> bool) (s rest : string) :
  Re.take_class n p s = Some rest ->
  String.length s = (n + String.length rest)%nat.
Proof.
  revert s. induction n as [|n IH]; intros s; cbn [Re.take_class].
  - intros Heq. now inversion Heq.
  - destruct s as [|c s]; [discriminate|]. destruct (p c); [|discriminate].
    intros Hrest. simpl. now rewrite (IH _ Hrest).
Qed.

Lemma take_class_all (p : ascii -> bool) (s : string) :
  Str.all_chars p s = true -> Re.take_class (String.length s) p s = Some "".
Proof.
  induction s as [|c s IH]; [done|]. cbn [Str.all_chars String.length Re.take_class].
  intros [-> Hs]%andb_true_iff. now apply IH.
Qed.

Lemma at_end_short (s : string) :
  Re.at_end s = true -> (String.length s <= 1)%nat.
Proof. destruct s as [|c [|c' s]]; simpl; intros H; first [lia|discriminate]. Qed.

(** Inside a name the pattern finds nothing before the stamp at the end. *)
Lemma stamp_no_match_inside (c : ascii) (u stamp : string) :
  is_stamp stamp ->
  Re.match_here false stamp_pattern (String c (u ++ "_" ++ stamp)) = None.
Proof.
  intros [Hlen Hdigits]. unfold stamp_pattern. cbn [Re.match_here Str.drop_prefix].
  destruct (Ascii.eqb "_" c); [|reflexivity].
  destruct (Re.take_class 14 Str.is_digit (u ++ "_" ++ stamp)) as [rest|] eqn:Htake;
    [|reflexivity].
  destruct u as [|c' u].
  - change ("" ++ "_" ++ stamp)%string with (String "_" stamp) in Htake.
    cbn [Re.take_class] in Htake. discriminate.
  - apply take_class_length in Htake.
    rewrite IndexFacts.append_length in Htake.
    change ("_" ++ stamp)%string with (String "_" stamp) in Htake.
    cbn [String.length] in Htake.
    destruct (Re.at_end rest) eqn:Hend; [|reflexivity].
    apply at_end_short in Hend. lia.
Qed.

Lemma stamp_match (stamp : string) :
  is_stamp stamp ->
  Re.match_here false stamp_pattern (String "_" stamp) = Some "".
Proof.
  intros [Hlen Hdigits]. unfold stamp_pattern. cbn [Re.match_here Str.drop_prefix].
  rewrite Ascii.eqb_refl. rewrite <- Hlen. now rewrite take_class_all.
Qed.

Lemma sub_scan_skip_all (ci : bool) (r : Re.regex) (s : string) :
  Re.match_here ci r "" = None ->
  Re.sub_scan ci r "" s (String.length s) = "".
Proof.
  intros Hnone. induction s as [|c s IH]; cbn [String.length Re.sub_scan].
  - now rewrite Hnone.
  - exact IH.
Qed.

(** The substitution removes the stamp at the end, and only it. *)
Lemma sub_strips_stamp (t stamp : string) :
  is_stamp stamp ->
  Re.sub false stamp_pattern "" (t ++ "_" ++ stamp) = t.
Proof.
  intros Hstamp. unfold Re.sub. induction t as [|c t IH].
  - change ("" ++ "_" ++ stamp)%string with (String "_" stamp).
    cbn [Re.sub_scan]. rewrite (stamp_match stamp Hstamp).
    cbn [String.length]. rewrite Nat.sub_0_r.
    change ("" ++ Re.sub_scan false stamp_pattern "" stamp (String.length stamp))%string
      with (Re.sub_scan false stamp_pattern "" stamp (String.length stamp)).
    now apply sub_scan_skip_all.
  - rewrite IndexFacts.append_cons. cbn [Re.sub_scan].
    rewrite (stamp_no_match_inside c t stamp Hstamp). now rewrite IH.
Qed.

Lemma lstrip_length (s : string) :
  (String.length (Str.lstrip s) <= String.length s)%nat.
Proof.
  induction s as [|c s IH]; cbn [Str.lstrip]; [done|].
  destruct (Str.is_space c); simpl; lia.
Qed.

Lemma lstrip_app (s x : string) :
  s <> "" -> Str.lstrip s = s -> Str.lstrip (s ++ x) = (s ++ x)%string.
Proof.
  intros Hne Hs. destruct s as [|c s]; [done|].
  rewrite IndexFacts.append_cons. cbn [Str.lstrip] in *.
  destruct (Str.is_space c); [|done].
  pose proof (lstrip_length s) as Hlen. rewrite Hs in Hlen. simpl in Hlen. lia.
Qed.

Lemma rstrip_no_space (s : string) :
  Str.all_chars (fun c => negb (Str.is_space c)) s = true -> Str.rstrip s = s.
Proof.
  induction s as [|c s IH]; [done|]. cbn [Str.all_chars Str.rstrip].
  intros [Hc Hs]%andb_true_iff. rewrite (IH Hs).
  apply negb_true_iff in Hc. rewrite Hc. now destruct s.
Qed.

Lemma rstrip_app (a b : string) :
  b <> "" -> Str.rstrip b = b -> Str.rstrip (a ++ b) = (a ++ b)%string.
Proof.
  intros Hne Hb. induction a as [|c a IH]; [exact Hb|].
  rewrite IndexFacts.append_cons. cbn [Str.rstrip]. rewrite IH.
  destruct (a ++ b)%string eqn:Hab; [|done].
  destruct a; [now destruct b|discriminate].
Qed.

Lemma digit_no_space (c : ascii) : Str.is_digit c = true -> negb (Str.is_space c) = true.
Proof.
  destruct c as [[] [] [] [] [] [] [] []]; vm_compute; intros H;
    first [reflexivity|discriminate].
Qed.

Lemma digit_no_slash (c : ascii) : Str.is_digit c = true -> negb (Ascii.eqb c "/") = true.
Proof.
  destruct c as [[] [] [] [] [] [] [] []]; vm_compute; intros H;
    first [reflexivity|discriminate].
Qed.

(** The name that [parse_music_filename] works with, for a stem with a
    stamp and without. *)
Lemma stamped_name (stem stamp : string) :
  plain_stem stem -> is_stamp stamp ->
  parse_music_filename (stem ++ "_" ++ stamp ++ ".")
  = parse_music_filename (stem ++ ".").
Proof.
  intros (_ & Hslash & Hdots & Hl & Hr & Hown) Hstamp.
  pose proof Hstamp as [Hlen Hdigits].
  assert (Hne : stem <> "") by (intros ->; discriminate).
  assert (Htail : Str.all_chars (fun c => negb (Str.is_space c)) ("_" ++ stamp) = true).
  { change ("_" ++ stamp)%string with (String "_" stamp). cbn [Str.all_chars].
    rewrite (ParsingMore.all_chars_impl _ _ _ digit_no_space Hdigits). reflexivity. }
  unfold parse_music_filename.
  replace (stem ++ "_" ++ stamp ++ ".")%string
    with ((stem ++ "_" ++ stamp) ++ String "." "")%string
    by (now rewrite !IndexFacts.append_assoc).
  rewrite (NameKeyMore.splitext_name (stem ++ "_" ++ stamp) "").
  - rewrite (NameKeyMore.splitext_name stem "") by done.
    cbn [fst]. unfold Str.strip.
    rewrite (lstrip_app stem _ Hne Hl), Hl, Hr.
    rewrite rstrip_app; [|now destruct stamp|now apply rstrip_no_space].
    fold stamp_pattern. now rewrite (sub_strips_stamp stem stamp Hstamp), Hown.
  - rewrite NameKeyMore.free_of_app, Hslash. cbn [andb]. unfold free_of.
    change ("_" ++ stamp)%string with (String "_" stamp). cbn [Str.all_chars].
    now rewrite (ParsingMore.all_chars_impl _ _ _ digit_no_slash Hdigits).
  - reflexivity.
  - reflexivity.
  - now rewrite all_chars_app, Hdots.
Qed.



End StampFacts.
